(** * Markdown Merger: text utilities, file analyzer, content processor
      and merge engine, embedded from the Python sources

    Python [str] values are sequences of Unicode code points; they are
    modelled as lists of code points ([N]).  Python [int] is [Z].  A call
    that can raise returns a [res]: [Ok v] or [Raise e]. *)

From Stdlib Require Import ZArith NArith Lia String Ascii DecimalString DecimalPos Sorted.
From stdpp Require Import gmap list.

Local Open Scope Z_scope.

(** ** Strings *)

Definition char := N.
Definition str := list char.

(** A literal of the source, as code points. *)
Definition lit (s : string) : str :=
  List.map N_of_ascii (list_ascii_of_string s).

Definition LF : char := 10%N.
Definition CR : char := 13%N.
Definition HASH : char := 35%N.
Definition DASH : char := 45%N.

(** ** Exceptions *)

Inductive exn_kind :=
  | ValueError | IOError | PermissionError | OtherError.

Record exn := Exn { exn_kind_of : exn_kind; exn_msg : str }.

Inductive res (A : Type) :=
  | Ok (a : A)
  | Raise (e : exn).
Arguments Ok {A} a.
Arguments Raise {A} e.

Definition res_bind {A B} (r : res A) (k : A -> res B) : res B :=
  match r with
  | Ok a => k a
  | Raise e => Raise e
  end.

Notation "'let*' x ':=' r 'in' k" := (res_bind r (fun x => k))
  (at level 10, x name, r at level 200, k at level 200).

(** ** analyzer.py: FileInfo *)

Definition path := list str.

(** [datetime] values are compared only; they are modelled by their
    position on the time line (microseconds since the epoch). *)
Definition datetime := Z.

Record FileInfo := mkFileInfo {
  fi_path : path;
  fi_size : Z;
  fi_modified : datetime;
  fi_hash : option str;
  fi_preview : str
}.

(** [file_info.hash = file_hash]. *)
Definition with_hash (f : FileInfo) (h : str) : FileInfo :=
  mkFileInfo (fi_path f) (fi_size f) (fi_modified f) (Some h) (fi_preview f).

(** ** Python built-ins over sequences *)

(** [sum(xs)]: a left fold from 0. *)
Definition py_sum (xs : list Z) : Z := foldl Z.add 0 xs.

(** [min(xs)]: raises ValueError on an empty sequence, otherwise keeps
    the first smallest item. *)
Definition py_min (xs : list Z) : res Z :=
  match xs with
  | [] => Raise (Exn ValueError (lit "min() arg is an empty sequence"))
  | x :: xs' => Ok (foldl (fun m y => if y <? m then y else m) x xs')
  end.

(** [max(xs)]: raises ValueError on an empty sequence, otherwise keeps
    the first largest item. *)
Definition py_max (xs : list Z) : res Z :=
  match xs with
  | [] => Raise (Exn ValueError (lit "max() arg is an empty sequence"))
  | x :: xs' => Ok (foldl (fun m y => if y >? m then y else m) x xs')
  end.

(** ** analyzer.py: FileAnalyzer.get_statistics

    The two [*_formatted] entries of the dictionary are renderings of
    [total_size] and [avg_size] through floating-point formatting; they
    are left out of the record. *)

Record Statistics := mkStatistics {
  st_count : Z;
  st_total_size : Z;
  st_avg_size : Z;
  st_oldest : option datetime;
  st_newest : option datetime
}.

Definition get_statistics (files : list FileInfo) : res Statistics :=
  match files with
  | [] => Ok (mkStatistics 0 0 0 None None)
  | _ :: _ =>
      let total_size := py_sum (List.map fi_size files) in
      let avg_size := total_size `div` Z.of_nat (length files) in
      let* oldest := py_min (List.map fi_modified files) in
      let* newest := py_max (List.map fi_modified files) in
      Ok (mkStatistics (Z.of_nat (length files)) total_size avg_size
            (Some oldest) (Some newest))
  end.

(** ** Character classes and slicing *)

Local Open Scope N_scope.

(** [str.isspace()] of one code point; the regex class [\s] on [str]
    patterns and [str.strip()] use the same table. *)
Definition is_space (c : char) : bool :=
  ((9 <=? c) && (c <=? 13)) || ((28 <=? c) && (c <=? 32))
  || (c =? 133) || (c =? 160) || (c =? 5760)
  || ((8192 <=? c) && (c <=? 8202))
  || (c =? 8232) || (c =? 8233) || (c =? 8239) || (c =? 8287)
  || (c =? 12288).

Definition is_nl (c : char) : bool := c =? LF.
Definition is_hash (c : char) : bool := c =? HASH.
(** The regex [.] without DOTALL: anything but a line feed. *)
Definition is_dot (c : char) : bool := negb (c =? LF).

Local Close Scope N_scope.
Local Open Scope nat_scope.

Fixpoint take_while (p : char -> bool) (s : str) : str :=
  match s with
  | c :: s' => if p c then c :: take_while p s' else []
  | [] => []
  end.

Fixpoint drop_while (p : char -> bool) (s : str) : str :=
  match s with
  | c :: s' => if p c then drop_while p s' else s
  | [] => []
  end.

Fixpoint str_eqb (a b : str) : bool :=
  match a, b with
  | [], [] => true
  | x :: a', y :: b' => N.eqb x y && str_eqb a' b'
  | _, _ => false
  end.

(** [s.startswith(prefix)]. *)
Fixpoint startswith (prefix s : str) : bool :=
  match prefix, s with
  | [], _ => true
  | x :: p', y :: s' => N.eqb x y && startswith p' s'
  | _ :: _, [] => false
  end.

(** [s.split('\n')]: never empty; a trailing separator yields a last
    empty piece. *)
Fixpoint split_lines (s : str) : list str :=
  match s with
  | [] => [[]]
  | c :: s' =>
      if is_nl c then [] :: split_lines s'
      else match split_lines s' with
           | l :: ls => (c :: l) :: ls
           | [] => [[c]]
           end
  end.

(** ['\n'.join(ls)]. *)
Fixpoint join_lines (ls : list str) : str :=
  match ls with
  | [] => []
  | [l] => l
  | l :: ls' => l ++ LF :: join_lines ls'
  end.

(** [s.lstrip()], [s.rstrip()] and [s.strip()]: CPython's strip finds the
    first non-space index from the left, then the last one from the
    right. *)
Definition lstrip (s : str) : str := drop_while is_space s.

Fixpoint rstrip (s : str) : str :=
  match s with
  | [] => []
  | c :: s' =>
      match rstrip s' with
      | [] => if is_space c then [] else [c]
      | r => c :: r
      end
  end.

Definition strip (s : str) : str := rstrip (lstrip s).

(** [s.lstrip('\n')]. *)
Definition lstrip_nl (s : str) : str := drop_while is_nl s.

(** ** A scanner for [re.sub] and [re.finditer]

    [match_at prev s] is the regex tried at the position whose remaining
    text is [s] and whose preceding character is [prev] ([None] at the
    start of the string); it answers the data of the match and its
    length.  The scanner goes left to right, as [re] does: a match is
    recorded and the scan resumes after it, otherwise one character is
    passed over.  The patterns modelled here never match the empty
    string.  The fuel bounds the number of steps; the length of the text
    is enough. *)

Section Regex.
Context {M : Type}.
Variable match_at : option char -> str -> option (M * nat).

Inductive token :=
  | Lit (c : char)
  | Match (m : M).

Fixpoint re_scan (fuel : nat) (prev : option char) (s : str) : list token :=
  match fuel with
  | O => []
  | S fuel' =>
      match s with
      | [] => []
      | c :: s' =>
          match match_at prev s with
          | Some (m, S n) =>
              Match m :: re_scan fuel' (last (take (S n) s)) (drop (S n) s)
          | _ => Lit c :: re_scan fuel' (Some c) s'
          end
      end
  end.

Definition render (repl : M -> str) (t : token) : str :=
  match t with
  | Lit c => [c]
  | Match m => repl m
  end.

Definition matches_of (ts : list token) : list M :=
  omap (fun t => match t with Match m => Some m | Lit _ => None end) ts.

(** The scan of a whole text from a position preceded by [prev]. *)
Definition scan (prev : option char) (s : str) : list token :=
  re_scan (length s) prev s.

(** [re.sub(pattern, repl, s)]. *)
Definition re_sub (repl : M -> str) (s : str) : str :=
  concat (List.map (render repl) (scan None s)).

(** [re.finditer(pattern, s)]. *)
Definition re_finditer (s : str) : list M :=
  matches_of (scan None s).

(** The pattern has no match that starts at this position. *)
Definition no_match (prev : option char) (s : str) : Prop :=
  forall m n, match_at prev s <> Some (m, S n).
End Regex.

Arguments Lit {M} c.
Arguments Match {M} m.

(** [^] under MULTILINE: start of the string or just after a line feed. *)
Definition at_line_start (prev : option char) : bool :=
  match prev with
  | None => true
  | Some c => is_nl c
  end.

(** ** helpers.py: adjust_header_levels

    The pattern, under MULTILINE, is [^], group 1 [#{1,6}], group 2
    [\s+] followed by [.*], and [$].  At a line start the
    run of [#] must have 1 to 6 characters and be followed by a space
    character (with 7 or more, every split of the run leaves a [#] where
    [\s] is required).  The greedy [\s+] takes the whole run of space
    characters, line feeds included, and the greedy [.*] the rest of that
    line; [$] then holds, the text being at its end or at a line feed, so
    the first alternative the engine tries is the match.  The data of a
    match: the length of group 1, and group 2. *)

Definition header_at (prev : option char) (s : str) : option ((nat * str) * nat) :=
  if at_line_start prev then
    let n := length (take_while is_hash s) in
    if (1 <=? n) && (n <=? 6) then
      match drop n s with
      | c :: _ =>
          if is_space c then
            let ws := take_while is_space (drop n s) in
            let ln := take_while is_dot (drop (n + length ws) s) in
            Some ((n, ws ++ ln), n + length ws + length ln)
          else None
      | [] => None
      end
    else None
  else None.

(** [new_level = max(1, min(6, current_level + offset))]. *)
Definition new_level (current_level : nat) (offset : Z) : Z :=
  Z.max 1 (Z.min 6 (Z.of_nat current_level + offset)).

(** The inner function [adjust_header]: ['#' * new_level + group(2)]. *)
Definition adjust_header (offset : Z) (m : nat * str) : str :=
  repeat HASH (Z.to_nat (new_level (fst m) offset)) ++ snd m.

Definition adjust_header_levels (content : str) (offset : Z) : str :=
  if Z.eqb offset 0 then content
  else re_sub header_at (adjust_header offset) content.

(** The depths of the header lines of a text, as the header pattern
    finds them. *)
Definition header_depths (content : str) : list nat :=
  List.map fst (re_finditer header_at content).

(** ** helpers.py: extract_front_matter *)

(** The loop over [enumerate(lines[1:], 1)]: the index of the first line
    whose [strip()] is [---]. *)
Fixpoint find_closing (ls : list str) (i : nat) : option nat :=
  match ls with
  | [] => None
  | l :: ls' =>
      if str_eqb (strip l) (lit "---") then Some i
      else find_closing ls' (S i)
  end.

Definition extract_front_matter (content : str) : option str * str :=
  if negb (startswith (lit "---") content) then (None, content)
  else
    let lines := split_lines content in
    match find_closing (drop 1 lines) 1 with
    | None => (None, content)
    | Some end_index =>
        let front_matter := join_lines (take (end_index - 1) (drop 1 lines)) in
        let remaining_content :=
          lstrip_nl (join_lines (drop (end_index + 1) lines)) in
        (Some front_matter, remaining_content)
    end.

(** ** helpers.py: normalize_whitespace

    The pattern [\n{k,}] with [k = max_consecutive + 2]: a match is a
    whole run of at least [k] line feeds.  The embedding covers
    [max_consecutive >= -2]; below that Python no longer reads the braces
    as a repetition. *)

Definition newline_run_at (k : nat) (prev : option char) (s : str)
  : option (unit * nat) :=
  let n := length (take_while is_nl s) in
  if k <=? n then Some (tt, n) else None.

Definition normalize_whitespace (content : str) (max_consecutive : Z) : str :=
  let k := Z.to_nat (max_consecutive + 2) in
  let replacement := repeat LF (Z.to_nat (max_consecutive + 1)) in
  strip (re_sub (newline_run_at k) (fun _ => replacement) content) ++ [LF].

(** ** helpers.py: normalize_line_endings *)

(** [s.replace('\r\n', '\n').replace('\r', '\n')]: every CR LF pair and
    every remaining CR becomes one LF. *)
Fixpoint crlf_to_lf (s : str) : str :=
  match s with
  | [] => []
  | c :: s' =>
      if N.eqb c CR then
        match s' with
        | d :: s'' => if N.eqb d LF then crlf_to_lf s' else LF :: crlf_to_lf s'
        | [] => [LF]
        end
      else c :: crlf_to_lf s'
  end.

Definition lf_to_crlf (s : str) : str :=
  flat_map (fun c => if N.eqb c LF then [CR; LF] else [c]) s.

(** ASCII lower-casing, enough for [style.lower() == "crlf"]: no other
    code point lower-cases to one of these four letters. *)
Definition ascii_lower (s : str) : str :=
  List.map (fun c => if (65 <=? c)%N && (c <=? 90)%N then (c + 32)%N else c) s.

Definition normalize_line_endings (content : str) (style : str) : str :=
  let content := crlf_to_lf content in
  if str_eqb (ascii_lower style) (lit "crlf") then lf_to_crlf content
  else content.

(** ** config.py: MergeConfig *)

Record MergeConfig := mkMergeConfig {
  cfg_header_style : str;
  cfg_include_file_path : bool;
  cfg_include_doc_index : bool;
  cfg_separator_style : str;
  cfg_separator_blank_lines : Z;
  cfg_generate_toc : bool;
  cfg_toc_depth : Z;
  cfg_toc_style : str;
  cfg_toc_position : str;
  cfg_adjust_header_level : Z;
  cfg_fix_relative_links : bool;
  cfg_strip_front_matter : bool;
  cfg_normalize_whitespace : bool;
  cfg_max_consecutive_blanks : Z;
  cfg_detect_duplicates : bool;
  cfg_add_metadata : bool;
  cfg_add_semantic_markers : bool;
  cfg_add_chunk_hints : bool;
  cfg_extract_keywords : bool;
  cfg_include_patterns : list str;
  cfg_exclude_patterns : list str;
  cfg_recursive : bool;
  cfg_max_depth : Z;
  cfg_sort_order : str;
  cfg_sort_ascending : bool;
  cfg_output_encoding : str;
  cfg_line_ending : str;
  cfg_create_backup : bool
}.

(** The defaults of the dataclass. *)
Definition default_config : MergeConfig := {|
  cfg_header_style := lit "## {name}";
  cfg_include_file_path := false;
  cfg_include_doc_index := true;
  cfg_separator_style := lit "---";
  cfg_separator_blank_lines := 2;
  cfg_generate_toc := true;
  cfg_toc_depth := 2;
  cfg_toc_style := lit "links";
  cfg_toc_position := lit "top";
  cfg_adjust_header_level := 0;
  cfg_fix_relative_links := false;
  cfg_strip_front_matter := true;
  cfg_normalize_whitespace := true;
  cfg_max_consecutive_blanks := 2;
  cfg_detect_duplicates := true;
  cfg_add_metadata := true;
  cfg_add_semantic_markers := true;
  cfg_add_chunk_hints := false;
  cfg_extract_keywords := false;
  cfg_include_patterns := [lit "*.md"; lit "*.markdown"];
  cfg_exclude_patterns := [];
  cfg_recursive := true;
  cfg_max_depth := -1;
  cfg_sort_order := lit "alphabetical";
  cfg_sort_ascending := true;
  cfg_output_encoding := lit "utf-8";
  cfg_line_ending := lit "lf";
  cfg_create_backup := true
|}.

(** ** What the program takes from Python's libraries

    Functions of the standard library that the sources call and whose
    tables or algorithms are not part of this repository, together with
    the two regex-driven extractors of helpers.py that no property below
    looks into. *)

Record Library := mkLibrary {
  (** [fnmatch.fnmatch(name, pattern)] *)
  fnmatch : str -> str -> bool;
  (** [str.lower()] *)
  str_lower : str -> str;
  (** the regex class [\w] *)
  is_word : char -> bool;
  (** the regex class [\d], with the value of the digit *)
  decimal_digit : char -> option Z;
  (** [str.isdigit()] of one code point *)
  is_digit : char -> bool;
  (** [hashlib.md5]: a fresh hasher, [update], [hexdigest] *)
  md5_state : Type;
  md5_new : md5_state;
  md5_update : md5_state -> list N -> md5_state;
  md5_hexdigest : md5_state -> str;
  (** the text that a file of these bytes gives when it is read in text
      mode with [encoding='utf-8', errors='replace'] *)
  read_text_replace : list N -> str;
  (** [json.dumps] of a [str] *)
  json_dumps_str : str -> str;
  (** [datetime.strftime] with the formats of the sources *)
  strftime_ymd : datetime -> str;
  (** [template.format(name=...)] *)
  format_name : str -> str -> res str;
  (** helpers.py [extract_headers(content, max_depth)] *)
  extract_headers : str -> Z -> list (Z * str);
  (** helpers.py [extract_keywords(content)] *)
  extract_keywords : str -> list str
}.

(** ** The file system as the program reads it *)

Record FileSystem := mkFileSystem {
  (** [open(path, 'rb')] and the reads that follow *)
  read_bytes : path -> res (list N);
  (** helpers.py [safe_read_file(path)]: the decoded text, or the
      exception of [open] *)
  safe_read_file : path -> res str;
  (** [path.stat()]: size and modification time *)
  stat_file : path -> res (Z * datetime);
  (** [path.exists()] *)
  path_exists : path -> bool;
  (** [shutil.copy2(src, dst)]: [Some msg] when it raises an IOError *)
  copy2_error : path -> option str;
  (** creating the parent directories and opening the output with the
      configured encoding: the exception, if one is raised *)
  open_error : path -> option exn;
  (** [f.write(text)] on the opened output: the exception, if encoding
      or writing this text raises one *)
  write_error : path -> str -> option exn
}.

(** ** pathlib: the parts of a path *)

Definition SLASH : char := 47%N.
Definition DOT : char := 46%N.

(** [path.name]: the last component. *)
Definition path_name (p : path) : str := List.last p [].

Fixpoint join_with (sep : str) (ls : list str) : str :=
  match ls with
  | [] => []
  | [l] => l
  | l :: ls' => l ++ sep ++ join_with sep ls'
  end.

(** [str(path)]. *)
Definition path_str (p : path) : str := join_with [SLASH] p.

(** The index of the last [.] of a name, if any. *)
Fixpoint rfind_dot (s : str) (i : nat) : option nat :=
  match s with
  | [] => None
  | c :: s' =>
      match rfind_dot s' (S i) with
      | Some j => Some j
      | None => if N.eqb c DOT then Some i else None
      end
  end.

(** [path.stem]: the name without its last suffix; a leading or a
    trailing dot starts no suffix. *)
Definition path_stem (p : path) : str :=
  let name := path_name p in
  match rfind_dot name 0 with
  | Some i => if (0 <? i) && (i <? length name - 1) then take i name else name
  | None => name
  end.

(** Decimal rendering of an [int]: [str(n)] and [format(n, '04d')]. *)
Definition str_of_Z (n : Z) : str :=
  lit (DecimalString.NilZero.string_of_int (Z.to_int n)).

Definition ZERO : char := 48%N.

Definition str_of_Z_04d (n : Z) : str :=
  if (n <? 0)%Z then
    let d := str_of_Z (Z.abs n) in DASH :: repeat ZERO (3 - length d) ++ d
  else
    let d := str_of_Z n in repeat ZERO (4 - length d) ++ d.

(** ** analyzer.py: FileAnalyzer *)

(** What a path of the scanned tree holds: a regular file (size,
    modification time, and its bytes unless it cannot be opened), a
    directory (its listing by name, unless [iterdir] raises
    PermissionError), something that is neither, or a path on which
    [stat], and with it [is_file()] and [is_dir()], raises
    PermissionError (as for the entries of a directory that can be listed
    but not searched). *)
#[local] Unset Elimination Schemes.
Inductive entry :=
  | EFile (size : Z) (mtime : datetime) (data : option (list N))
  | EDir (listing : option (list (str * entry)))
  | EOther
  | EDenied (msg : str).
#[local] Set Elimination Schemes.

Section Analyzer.
Variable lib : Library.
Variable config : MergeConfig.

(** helpers.py [matches_patterns]. *)
Definition matches_patterns (filename : str) (patterns : list str) : bool :=
  existsb (fun pattern =>
             fnmatch lib (str_lower lib filename) (str_lower lib pattern))
          patterns.

Definition matches_filters (filepath : path) : bool :=
  let filename := path_name filepath in
  if negb (matches_patterns filename (cfg_include_patterns config)) then false
  else
    match cfg_exclude_patterns config with
    | [] => true
    | _ :: _ =>
        if matches_patterns filename (cfg_exclude_patterns config) then false
        else true
    end.

(** [preview.rsplit('\n', 1)[0]]: the text before the last line feed,
    all of it when there is none. *)
Definition before_last_nl (s : str) : str :=
  match split_lines s with
  | [] | [_] => s
  | ls => join_lines (removelast ls)
  end.

Definition analyze_file (filepath : path) (size : Z) (mtime : datetime)
    (data : option (list N)) : FileInfo :=
  let preview :=
    match data with
    | Some bytes =>
        let preview := take 500 (read_text_replace lib bytes) in
        if Nat.eqb (length preview) 500
        then before_last_nl preview ++ lit "..."
        else preview
    | None => lit "[Could not read file]"
    end in
  mkFileInfo filepath size mtime None preview.

(** [_scan_directory(directory, progress_callback, current_depth)] on a
    directory whose content is [e].  The [try] holds the whole loop: a
    PermissionError, from [iterdir] or from [is_file()] on an entry, ends
    the scan of this directory, and the files found before it are
    returned. *)
Fixpoint scan_directory (directory : path) (e : entry) (current_depth : Z)
    {struct e} : list FileInfo :=
  match e with
  | EDir listing =>
      if (0 <=? cfg_max_depth config)%Z && (cfg_max_depth config <? current_depth)%Z
      then []
      else
        match listing with
        | None => []
        | Some children =>
            (fix each (cs : list (str * entry)) : list FileInfo :=
               match cs with
               | [] => []
               | (name, c) :: cs' =>
                   let entry_path := directory ++ [name] in
                   match c with
                   | EFile size mtime data =>
                       (if matches_filters entry_path
                        then [analyze_file entry_path size mtime data]
                        else []) ++ each cs'
                   | EDir _ =>
                       (if cfg_recursive config && negb (startswith [DOT] name)
                        then scan_directory entry_path c (current_depth + 1)
                        else []) ++ each cs'
                   | EOther => each cs'
                   | EDenied _ => []
                   end
               end) children
        end
  | _ => []
  end.

(** What one input path contributes to [files], before sorting. *)
Definition discover_one (p : path * entry) : list FileInfo :=
  match snd p with
  | EFile size mtime data =>
      if matches_filters (fst p)
      then [analyze_file (fst p) size mtime data] else []
  | EDir _ => scan_directory (fst p) (snd p) 0
  | EOther | EDenied _ => []
  end.

(** The first input path on which [is_file()] raises PermissionError:
    the loop of [discover_files] has no handler. *)
Fixpoint first_denied (paths : list (path * entry)) : option str :=
  match paths with
  | [] => None
  | (_, EDenied msg) :: _ => Some msg
  | _ :: paths' => first_denied paths'
  end.

(** *** Sorting *)

(** [sys.int_info.default_max_str_digits]: the most digits that [int()]
    converts; the program does not change the limit. *)
Definition int_max_str_digits : nat := Z.to_nat 4300.

Inductive key_item :=
  | KInt (n : Z)
  | KStr (s : str).

(** [re.split(r'(\d+)', s)]: text, digits, text, ... ending with a
    text piece. *)
Fixpoint split_digits (fuel : nat) (s : str) : list str :=
  let is_d := fun c => bool_decide (is_Some (decimal_digit lib c)) in
  let text := take_while (fun c => negb (is_d c)) s in
  match drop_while (fun c => negb (is_d c)) s, fuel with
  | [], _ | _, O => [text]
  | r, S fuel' =>
      text :: take_while is_d r :: split_digits fuel' (drop_while is_d r)
  end.

(** [int(text)] on a non-empty text of digits: ValueError when the run
    of decimal digits that the text begins with is longer than the limit
    [int_max_str_digits], and unless every character is a decimal
    digit. *)
Definition int_of_text (text : str) : res Z :=
  let is_d := fun c => bool_decide (is_Some (decimal_digit lib c)) in
  if int_max_str_digits <? length (take_while is_d text)
  then Raise (Exn ValueError
                (lit "Exceeds the limit (4300 digits) for integer string conversion"))
  else
    foldl (fun acc c =>
             let* n := acc in
             match decimal_digit lib c with
             | Some d => Ok (10 * n + d)%Z
             | None => Raise (Exn ValueError (lit "invalid literal for int()"))
             end) (Ok 0%Z) text.

(** helpers.py [natural_sort_key]. *)
Definition natural_sort_key (s : str) : res (list key_item) :=
  foldr (fun text acc =>
           let* item :=
             (if negb (Nat.eqb (length text) 0) && forallb (is_digit lib) text
              then let* n := int_of_text text in Ok (KInt n)
              else Ok (KStr (str_lower lib text))) in
           let* rest := acc in
           Ok (item :: rest))
        (Ok []) (split_digits (length s) s).

(** Python's [<=] on [str]: by code points. *)
Fixpoint str_leb (a b : str) : bool :=
  match a, b with
  | [], _ => true
  | _ :: _, [] => false
  | x :: a', y :: b' => (x <? y)%N || ((x =? y)%N && str_leb a' b')
  end.

(** [<=] on the keys of [natural_sort_key]: item by item.  Keys made by
    [natural_sort_key] carry text at even and numbers at odd positions,
    so the order given here to a number against a text is never
    consulted (Python raises TypeError there). *)
Fixpoint key_leb (a b : list key_item) : bool :=
  match a, b with
  | [], _ => true
  | _ :: _, [] => false
  | KInt x :: a', KInt y :: b' => (x <? y)%Z || ((x =? y)%Z && key_leb a' b')
  | KStr x :: a', KStr y :: b' =>
      (negb (str_leb y x)) || (str_eqb x y && key_leb a' b')
  | KInt _ :: _, KStr _ :: _ => true
  | KStr _ :: _, KInt _ :: _ => false
  end.

(** [list.sort(key=..., reverse=...)] on items paired with their
    keys: stable in both directions. *)
Fixpoint insert_by {K} (leb : K -> K -> bool) (x : K * FileInfo)
    (l : list (K * FileInfo)) : list (K * FileInfo) :=
  match l with
  | [] => [x]
  | y :: l' => if leb (fst x) (fst y) then x :: l else y :: insert_by leb x l'
  end.

Definition sort_by {K} (leb : K -> K -> bool) (reverse : bool)
    (keyed : list (K * FileInfo)) : list FileInfo :=
  let before := if reverse then (fun a b => leb b a) else leb in
  List.map snd (foldr (insert_by before) [] keyed).

(** The keys of all items, computed before any comparison. *)
Fixpoint with_keys {K} (key : FileInfo -> res K) (files : list FileInfo)
    : res (list (K * FileInfo)) :=
  match files with
  | [] => Ok []
  | f :: files' =>
      let* k := key f in
      let* rest := with_keys key files' in
      Ok ((k, f) :: rest)
  end.

Definition sort_files (files : list FileInfo) : res (list FileInfo) :=
  let reverse := negb (cfg_sort_ascending config) in
  if str_eqb (cfg_sort_order config) (lit "alphabetical") then
    let* keyed :=
      with_keys (fun f => Ok (str_lower lib (path_str (fi_path f)))) files in
    Ok (sort_by str_leb reverse keyed)
  else if str_eqb (cfg_sort_order config) (lit "natural") then
    let* keyed :=
      with_keys (fun f => natural_sort_key (path_str (fi_path f))) files in
    Ok (sort_by key_leb reverse keyed)
  else if str_eqb (cfg_sort_order config) (lit "date") then
    let* keyed := with_keys (fun f => Ok (fi_modified f)) files in
    Ok (sort_by Z.leb reverse keyed)
  else if str_eqb (cfg_sort_order config) (lit "size") then
    let* keyed := with_keys (fun f => Ok (fi_size f)) files in
    Ok (sort_by Z.leb reverse keyed)
  else Ok files.

(** [discover_files(paths)]: each input path comes with what the file
    system holds there. *)
Definition discover_files (paths : list (path * entry)) : res (list FileInfo) :=
  match first_denied paths with
  | Some msg => Raise (Exn PermissionError msg)
  | None => sort_files (flat_map discover_one paths)
  end.

(** *** Duplicate detection *)

Variable fs : FileSystem.

(** The reads of [chunk_size] bytes until an empty one. *)
Fixpoint chunks (fuel : nat) (chunk_size : nat) (data : list N) : list (list N) :=
  match fuel, take chunk_size data with
  | O, _ | _, [] => []
  | S fuel', chunk => chunk :: chunks fuel' chunk_size (drop chunk_size data)
  end.

(** The digest of a file's bytes, fed to the hasher chunk by chunk. *)
Definition file_digest (data : list N) : str :=
  md5_hexdigest lib
    (foldl (md5_update lib) (md5_new lib)
       (chunks (length data) (Z.to_nat 8192) data)).

(** helpers.py [calculate_file_hash(filepath, chunk_size=8192)]. *)
Definition calculate_file_hash (filepath : path) : res str :=
  let* data := read_bytes fs filepath in
  Ok (file_digest data).

(** The loop of [detect_duplicates]: each file gets its hash and joins
    the bucket of that hash. *)
Fixpoint hash_files (files : list FileInfo) (hash_map : gmap str (list FileInfo))
    : res (gmap str (list FileInfo)) :=
  match files with
  | [] => Ok hash_map
  | file_info :: files' =>
      let* file_hash := calculate_file_hash (fi_path file_info) in
      let file_info := with_hash file_info file_hash in
      let bucket := default [] (hash_map !! file_hash) in
      hash_files files' (<[file_hash := bucket ++ [file_info]]> hash_map)
  end.

Definition detect_duplicates (files : list FileInfo)
    : res (gmap str (list FileInfo)) :=
  if negb (cfg_detect_duplicates config) then Ok ∅
  else
    let* hash_map := hash_files files ∅ in
    Ok (filter (fun hf : str * list FileInfo => 1 < length (snd hf)) hash_map).
End Analyzer.

(** ** processor.py *)

Record ProcessedDocument := mkProcessedDocument {
  source_path : path;
  original_content : str;
  processed_content : str;
  headers : list (Z * str);
  keywords : list str;
  front_matter : option str;
  file_size : Z;
  modified_time : datetime;
  index : Z;
  total_count : Z
}.

Section Processor.
Variable lib : Library.
Variable fs : FileSystem.
Variable config : MergeConfig.

(** *** ContentProcessor *)

Definition process_document (filepath : path) (content : str)
    (index total_count : Z) : res ProcessedDocument :=
  let original_content := content in
  let '(front_matter, content) :=
    if cfg_strip_front_matter config then extract_front_matter content
    else (None, content) in
  let content :=
    if negb (cfg_adjust_header_level config =? 0)%Z
    then adjust_header_levels content (cfg_adjust_header_level config)
    else content in
  let content :=
    if cfg_normalize_whitespace config
    then normalize_whitespace content (cfg_max_consecutive_blanks config)
    else content in
  let content := normalize_line_endings content (cfg_line_ending config) in
  let headers := extract_headers lib content (cfg_toc_depth config) in
  let keywords :=
    if cfg_extract_keywords config then extract_keywords lib content else [] in
  let* stat := stat_file fs filepath in
  Ok (mkProcessedDocument filepath original_content content headers keywords
        front_matter (fst stat) (snd stat) index total_count).

Definition generate_document_header (doc : ProcessedDocument) : res str :=
  let name := path_stem (source_path doc) in
  let* header := format_name lib (cfg_header_style config) name in
  let header :=
    if cfg_include_file_path config
    then header ++ [LF] ++ lit "*Source: `" ++ path_str (source_path doc) ++ lit "`*"
    else header in
  let header :=
    if cfg_include_doc_index config
    then header ++ [LF] ++ lit "*Document " ++ str_of_Z (index doc)
           ++ lit " of " ++ str_of_Z (total_count doc) ++ lit "*"
    else header in
  Ok header.

Definition QUOTE : char := 34%N.

(** [json.dumps] of the metadata dictionary, keys in insertion order. *)
Definition generate_metadata_comment (doc : ProcessedDocument) : str :=
  if negb (cfg_add_metadata config) then []
  else
    let key (k : string) := [QUOTE] ++ lit k ++ [QUOTE] ++ lit ": " in
    let fields :=
      [ key "source"%string ++ json_dumps_str lib (path_str (source_path doc));
        key "index"%string ++ str_of_Z (index doc);
        key "size"%string ++ str_of_Z (file_size doc);
        key "modified"%string ++ json_dumps_str lib (strftime_ymd lib (modified_time doc)) ]
      ++ match keywords doc with
         | [] => []
         | ks => [ key "keywords"%string ++ lit "["
                   ++ join_with (lit ", ") (List.map (json_dumps_str lib) ks)
                   ++ lit "]" ]
         end in
    lit "<!-- DOC_META: {" ++ join_with (lit ", ") fields ++ lit "} -->".

Inductive marker_position := MarkStart | MarkEnd.

Definition generate_semantic_markers (doc : ProcessedDocument)
    (position : marker_position) : str :=
  if negb (cfg_add_semantic_markers config) then []
  else
    let doc_id := lit "doc_" ++ str_of_Z_04d (index doc) in
    let source := path_name (source_path doc) in
    match position with
    | MarkStart =>
        lit "<document id=" ++ [QUOTE] ++ doc_id ++ [QUOTE]
          ++ lit " source=" ++ [QUOTE] ++ source ++ [QUOTE] ++ lit ">"
    | MarkEnd => lit "</document>"
    end.

Definition generate_chunk_hint (doc : ProcessedDocument) : str :=
  if negb (cfg_add_chunk_hints config) then []
  else lit "<!-- CHUNK_BOUNDARY: doc_" ++ str_of_Z_04d (index doc) ++ lit " -->".

Definition generate_separator : str :=
  let separator := cfg_separator_style config in
  let blank_lines := repeat LF (Z.to_nat (cfg_separator_blank_lines config)) in
  blank_lines ++ separator ++ blank_lines.

(** *** TOCGenerator *)

(** The two substitutions of helpers.py [generate_anchor]: keep word
    characters, space characters and [-] of the lower-cased text, then
    turn each run of space characters into one [-]. *)
Fixpoint dash_spaces (in_run : bool) (s : str) : str :=
  match s with
  | [] => []
  | c :: s' =>
      if is_space c
      then (if in_run then [] else [DASH]) ++ dash_spaces true s'
      else c :: dash_spaces false s'
  end.

Definition generate_anchor (text : str) : str :=
  let anchor :=
    List.filter (fun c => is_word lib c || is_space c || N.eqb c DASH)
      (str_lower lib text) in
  dash_spaces false anchor.

(** The lines of one document in the table of contents. *)
Definition toc_entry (doc : ProcessedDocument) : list str :=
  let doc_name := path_stem (source_path doc) in
  let anchor := generate_anchor doc_name in
  let first :=
    if str_eqb (cfg_toc_style config) (lit "links") then
      lit "- [" ++ doc_name ++ lit "](#" ++ anchor ++ lit ")"
    else if str_eqb (cfg_toc_style config) (lit "numbered") then
      str_of_Z (index doc) ++ lit ". [" ++ doc_name ++ lit "](#" ++ anchor ++ lit ")"
    else lit "- " ++ doc_name in
  let nested :=
    if (1 <? cfg_toc_depth config)%Z then
      flat_map (fun h : Z * str =>
        let '(level, header_text) := h in
        if (level <=? cfg_toc_depth config)%Z then
          let indent := concat (repeat (lit "  ") (Z.to_nat (level - 1))) in
          let header_anchor := anchor ++ lit "--" ++ generate_anchor header_text in
          if str_eqb (cfg_toc_style config) (lit "links")
          then [indent ++ lit "- [" ++ header_text ++ lit "](#" ++ header_anchor ++ lit ")"]
          else [indent ++ lit "- " ++ header_text]
        else []) (headers doc)
    else [] in
  first :: nested.

(** [TOCGenerator.generate(documents)]. *)
Definition toc_generate (documents : list ProcessedDocument) : str :=
  if negb (cfg_generate_toc config) then []
  else
    join_lines ([lit "# Table of Contents"; []]
                ++ flat_map toc_entry documents
                ++ [[]; lit "---"; []]).
End Processor.

(** ** merger.py: MergeEngine

    [duration_seconds] is wall-clock time and is left out of the result.
    The progress callback is not modelled; it does not feed back into
    the run except through the two flags. *)

Record MergeResult := mkMergeResult {
  success : bool;
  output_path : option path;
  files_merged : Z;
  total_size : Z;
  errors : list str;
  warnings : list str
}.

(** The local variables of [merge] that the loop updates. *)
Record loop_state := mkLoopState {
  processed_docs : list ProcessedDocument;
  loop_errors : list str;
  bytes_processed : Z
}.

(** What a run leaves behind: the result returned, and the text of the
    output file when the write phase ran to its end. *)
Record MergeOutcome := mkMergeOutcome {
  result : MergeResult;
  written : option str
}.

Section Merger.
Variable lib : Library.
Variable fs : FileSystem.
Variable config : MergeConfig.

(** [cancel()] is called from another thread or from the progress
    callback while [merge] runs: [cancelled_at index] is what the loop
    reads in [self._cancelled] at the checkpoint that opens the
    iteration of file number [index].  The pause loop only waits; a
    run that leaves it goes on with the file at hand, whatever the
    flags. *)
Variable cancelled_at : Z -> bool.

(** The first two statements of the inner [try]: the document, or the
    exception that sends the run to the handler. *)
Definition read_and_process (total : Z) (index : Z) (file_info : FileInfo)
    : res ProcessedDocument :=
  let* content := safe_read_file fs (fi_path file_info) in
  process_document lib fs config (fi_path file_info) content index total.

(** The message of the handler. *)
Definition error_msg (file_info : FileInfo) (e : exn) : str :=
  lit "Error processing " ++ path_name (fi_path file_info)
    ++ lit ": " ++ exn_msg e.

(** The inner [try] with its handler. *)
Definition process_file (total : Z) (index : Z) (file_info : FileInfo)
    (st : loop_state) : loop_state :=
  match read_and_process total index file_info with
  | Ok doc =>
      mkLoopState (processed_docs st ++ [doc]) (loop_errors st)
        (bytes_processed st + fi_size file_info)
  | Raise e =>
      mkLoopState (processed_docs st) (loop_errors st ++ [error_msg file_info e])
        (bytes_processed st)
  end.

(** [for index, file_info in enumerate(files, 1)]: either the state
    after the last file, or the result returned from inside the loop. *)
Fixpoint merge_loop (total : Z) (warnings : list str) (index : Z)
    (files : list FileInfo) (st : loop_state) : loop_state + MergeResult :=
  match files with
  | [] => inl st
  | file_info :: files' =>
      if cancelled_at index then
        inr (mkMergeResult false None (index - 1) (bytes_processed st)
               [lit "Merge cancelled by user"] warnings)
      else
        merge_loop total warnings (index + 1) files'
          (process_file total index file_info st)
  end.

(** [f.write(text)] on the output that holds [written]: what the output
    holds afterwards, or the exception. *)
Definition f_write (output_path : path) (written text : str) : res str :=
  match write_error fs output_path text with
  | Some e => Raise e
  | None => Ok (written ++ text)
  end.

(** [if text: f.write(text)]. *)
Definition f_write_if (output_path : path) (written text : str) (line : str)
    : res str :=
  match text with
  | [] => Ok written
  | _ => f_write output_path written line
  end.

(** The loop of [_write_output] over the documents, on an output that
    holds [written]: what the output holds after the last document, or
    the first exception raised, by a write or by the header template. *)
Fixpoint write_documents (output_path : path) (documents : list ProcessedDocument)
    (written : str) : res str :=
  match documents with
  | [] => Ok written
  | doc :: rest =>
      let metadata := generate_metadata_comment lib config doc in
      let* written := f_write_if output_path written metadata (metadata ++ [LF]) in
      let start_marker := generate_semantic_markers config doc MarkStart in
      let* written :=
        f_write_if output_path written start_marker (start_marker ++ [LF]) in
      let chunk_hint := generate_chunk_hint config doc in
      let* written := f_write_if output_path written chunk_hint (chunk_hint ++ [LF]) in
      let* header := generate_document_header lib config doc in
      let* written := f_write output_path written (header ++ [LF; LF]) in
      let* written := f_write output_path written (processed_content doc) in
      let end_marker := generate_semantic_markers config doc MarkEnd in
      let* written := f_write_if output_path written end_marker (LF :: end_marker) in
      let* written :=
        match rest with
        | [] => Ok written
        | _ => f_write output_path written (generate_separator config)
        end in
      write_documents output_path rest written
  end.

(** [_write_output(output_path, documents)]: the text written, or the
    exception raised. *)
Definition write_output (output_path : path)
    (documents : list ProcessedDocument) : res str :=
  match open_error fs output_path with
  | Some e => Raise e
  | None =>
      let* written :=
        (if cfg_generate_toc config && str_eqb (cfg_toc_position config) (lit "top")
         then f_write output_path [] (toc_generate lib config documents)
         else Ok []) in
      let* written := write_documents output_path documents written in
      if cfg_generate_toc config && str_eqb (cfg_toc_position config) (lit "bottom")
      then
        let* written := f_write output_path written [LF; LF] in
        f_write output_path written (toc_generate lib config documents)
      else Ok written
  end.

(** The backup of an existing output, and the warning when the copy
    fails. *)
Definition backup_warnings (output_path : path) (dry_run : bool) : list str :=
  if negb dry_run && cfg_create_backup config && path_exists fs output_path then
    match copy2_error fs output_path with
    | Some e => [lit "Could not create backup: " ++ e]
    | None => []
    end
  else [].

Definition merge (files : list FileInfo) (output_path : path) (dry_run : bool)
    : MergeOutcome :=
  let total := Z.of_nat (length files) in
  let warnings := backup_warnings output_path dry_run in
  match merge_loop total warnings 1 files (mkLoopState [] [] 0) with
  | inr cancelled => mkMergeOutcome cancelled None
  | inl st =>
      match (if dry_run then Ok None
             else let* text := write_output output_path (processed_docs st) in
                  Ok (Some text)) with
      | Ok text =>
          mkMergeOutcome
            (mkMergeResult (Nat.eqb (length (loop_errors st)) 0)
               (if dry_run then None else Some output_path)
               (Z.of_nat (length (processed_docs st)))
               (bytes_processed st) (loop_errors st) warnings)
            text
      | Raise e =>
          mkMergeOutcome
            (mkMergeResult false None 0 (bytes_processed st)
               [lit "Merge failed: " ++ exn_msg e] warnings)
            None
      end
  end.
End Merger.

(** ** Vocabulary of the properties *)

(** A line that closes a front-matter block. *)
Definition is_closing (l : str) : Prop := strip l = lit "---".

(** Every run of line feeds of [repeat LF r ++ s] that reaches into [s]
    is shorter than [k]. *)
Fixpoint short_runs (k r : nat) (s : str) : Prop :=
  match s with
  | [] => True
  | c :: s' =>
      if is_nl c then S r < k /\ short_runs k (S r) s'
      else short_runs k 0 s'
  end.

(** The length of the run of line feeds a text begins with. *)
Definition lead (s : str) : nat := length (take_while is_nl s).

(** The substitution of [normalize_whitespace] ([k] line feeds or more
    become [r]), from a position preceded by [prev]. *)
Definition collapse_from (k r : nat) (prev : option char) (s : str) : str :=
  concat (List.map (render (fun _ : unit => repeat LF r))
            (scan (newline_run_at k) prev s)).

(** The pattern matches at a position exactly when the position starts
    a line, a run of one to six [#] stands there, and a space character
    follows the run. *)
Definition header_start (prev : option char) (s : str) : bool :=
  at_line_start prev
  && (1 <=? length (take_while is_hash s)) && (length (take_while is_hash s) <=? 6)
  && match drop_while is_hash s with
     | c :: _ => is_space c
     | [] => false
     end.

(** The shape of a text at a match: the run of [#], the space
    characters, the rest of the line, and what follows, which is empty
    or begins with a line feed. *)
Record header_shape (n : nat) (ws ln rest : str) : Prop := {
  shape_depth : 1 <= n <= 6;
  shape_ws_nonempty : ws <> [];
  shape_ws : Forall (fun c => is_space c = true) ws;
  shape_ln : Forall (fun c => is_dot c = true) ln;
  shape_ln_head : match ln with [] => rest = [] | c :: _ => is_space c = false end;
  shape_rest : match rest with [] => True | c :: _ => c = LF end
}.

(** The substitution of [adjust_header_levels], from a position preceded
    by [prev]. *)
Definition adjust_from (offset : Z) (prev : option char) (s : str) : str :=
  concat (List.map (render (adjust_header offset)) (scan header_at prev s)).

(** What the substitution does to one token of the scan. *)
Definition shift_token (offset : Z) (t : token (M:=nat * str)) : token :=
  match t with
  | Lit c => Lit c
  | Match m => Match (Z.to_nat (new_level (fst m) offset), snd m)
  end.

(** A line that does not begin with [#] is the same in both texts. *)
Definition line_kept (line_out line_in : str) : Prop :=
  head line_in <> Some HASH -> line_out = line_in.

(** The lines of two texts correspond: the first lines are equal
    ([strict]) or kept, every later line is kept. *)
Definition lines_rel (strict : bool) (out s : str) : Prop :=
  exists lo ro li ri,
    split_lines out = lo :: ro /\ split_lines s = li :: ri /\
    (if strict then lo = li else line_kept lo li) /\
    Forall2 line_kept ro ri.

(** [needle in hay]. *)
Fixpoint contains (needle hay : str) : bool :=
  startswith needle hay
  || match hay with
     | [] => false
     | _ :: hay' => contains needle hay'
     end.

Section MergerVocabulary.
Variable lib : Library.
Variable fs : FileSystem.
Variable config : MergeConfig.

(** What reading and processing gives for each file of a list, the
    first file having number [index]. *)
Fixpoint outcomes (total : Z) (index : Z) (files : list FileInfo)
    : list (FileInfo * res ProcessedDocument) :=
  match files with
  | [] => []
  | f :: files' =>
      (f, read_and_process lib fs config total index f)
        :: outcomes total (index + 1) files'
  end.

(** The documents of the files that were processed, in order. *)
Fixpoint merged_docs (os : list (FileInfo * res ProcessedDocument))
    : list ProcessedDocument :=
  match os with
  | [] => []
  | (_, Ok doc) :: os' => doc :: merged_docs os'
  | (_, Raise _) :: os' => merged_docs os'
  end.

(** The messages of the files that failed, in order. *)
Fixpoint recorded_errors (os : list (FileInfo * res ProcessedDocument))
    : list str :=
  match os with
  | [] => []
  | (_, Ok _) :: os' => recorded_errors os'
  | (f, Raise e) :: os' => error_msg f e :: recorded_errors os'
  end.
End MergerVocabulary.

(** ** A library and a file system to evaluate examples on

    ASCII tables for the character classes, wildcards [*] and [?] for
    [fnmatch], and a digest that is the data itself. *)

Fixpoint glob_match (pattern name : str) : bool :=
  match pattern with
  | [] => match name with [] => true | _ => false end
  | p :: pattern' =>
      if N.eqb p 42 then
        (fix star (name : str) : bool :=
           glob_match pattern' name
           || match name with
              | [] => false
              | _ :: name' => star name'
              end) name
      else
        match name with
        | [] => false
        | c :: name' => (N.eqb p 63 || N.eqb p c) && glob_match pattern' name'
        end
  end.

(** Every [{name}] of the template replaced. *)
Fixpoint fill_name (skip : nat) (name template : str) : str :=
  match template with
  | [] => []
  | c :: template' =>
      match skip with
      | S skip' => fill_name skip' name template'
      | O =>
          if startswith (lit "{name}") template
          then name ++ fill_name 5 name template'
          else c :: fill_name 0 name template'
      end
  end.

Definition ascii_digit (c : char) : option Z :=
  if (48 <=? c)%N && (c <=? 57)%N then Some (Z.of_N c - 48)%Z else None.

Definition example_library : Library := {|
  fnmatch := fun name pattern => glob_match pattern name;
  str_lower := ascii_lower;
  is_word := fun c =>
    ((48 <=? c) && (c <=? 57) || (65 <=? c) && (c <=? 90)
     || (97 <=? c) && (c <=? 122) || (c =? 95))%N;
  decimal_digit := ascii_digit;
  is_digit := fun c => bool_decide (is_Some (ascii_digit c));
  md5_state := list N;
  md5_new := [];
  md5_update := fun st chunk => st ++ chunk;
  md5_hexdigest := fun st => st;
  read_text_replace := fun bytes => bytes;
  json_dumps_str := fun s => [34%N] ++ s ++ [34%N];
  strftime_ymd := fun _ => lit "2025-01-01";
  format_name := fun template name => Ok (fill_name 0 name template);
  extract_headers := fun _ _ => [];
  extract_keywords := fun _ => []
|}.

(** Every file can be read and holds the same short text, except those
    named [bad.md], which cannot be opened; the output can be written
    unless it is named [locked.md]. *)
Definition example_fs : FileSystem := {|
  read_bytes := fun p =>
    if str_eqb (path_name p) (lit "bad.md")
    then Raise (Exn PermissionError (lit "Permission denied"))
    else Ok (lit "# Title");
  safe_read_file := fun p =>
    if str_eqb (path_name p) (lit "bad.md")
    then Raise (Exn PermissionError (lit "Permission denied"))
    else Ok (lit "# Title");
  stat_file := fun _ => Ok (7%Z, 0%Z);
  path_exists := fun _ => false;
  copy2_error := fun _ => None;
  open_error := fun p =>
    if str_eqb (path_name p) (lit "locked.md")
    then Some (Exn PermissionError (lit "Permission denied"))
    else None;
  write_error := fun _ _ => None
|}.

Definition example_file (name : string) : FileInfo :=
  mkFileInfo [lit "docs"; lit name] 7%Z 0%Z None (lit "# Title").

(** No checkpoint from [index] on, over [n] files, sees the cancellation
    flag set. *)
Definition never_cancelled (cancelled_at : Z -> bool) (index : Z) (n : nat) : Prop :=
  forall i, (index <= i < index + Z.of_nat n)%Z -> cancelled_at i = false.

(** The output of the example run that merges [a.md], [bad.md] and
    [b.md]. *)
Definition example_run_files : list FileInfo :=
  [example_file "a.md"; example_file "bad.md"; example_file "b.md"].

Definition example_output : str :=
  Eval vm_compute in
    match written (merge example_library example_fs default_config (fun _ => false)
                     example_run_files [lit "out"; lit "merged.md"] false) with
    | Some text => text
    | None => []
    end.

(** The names of a directory's listing are distinct, at every level. *)
#[local] Unset Elimination Schemes.
Inductive wf_entry : entry -> Prop :=
  | wf_file size mtime data : wf_entry (EFile size mtime data)
  | wf_other : wf_entry EOther
  | wf_unreadable : wf_entry (EDir None)
  | wf_denied msg : wf_entry (EDenied msg)
  | wf_dir children :
      NoDup (List.map fst children) ->
      Forall (fun ne => wf_entry (snd ne)) children ->
      wf_entry (EDir (Some children)).
#[local] Set Elimination Schemes.

(** No input path equals another or lies under it. *)
Fixpoint roots_apart (ps : list path) : Prop :=
  match ps with
  | [] => True
  | p :: ps' =>
      Forall (fun q => ~ p `prefix_of` q /\ ~ q `prefix_of` p) ps' /\ roots_apart ps'
  end.

(** What one entry of a listing contributes to the scan of its
    directory. *)
Definition scan_child (lib : Library) (config : MergeConfig) (directory : path)
    (current_depth : Z) (ne : str * entry) : list FileInfo :=
  let entry_path := directory ++ [fst ne] in
  match snd ne with
  | EFile size mtime data =>
      if matches_filters lib config entry_path
      then [analyze_file lib entry_path size mtime data]
      else []
  | EDir _ =>
      if cfg_recursive config && negb (startswith [DOT] (fst ne))
      then scan_directory lib config entry_path (snd ne) (current_depth + 1)
      else []
  | EOther | EDenied _ => []
  end.

(** The entries of a listing that a scan gets to: those before the first
    one on which [is_file()] raises. *)
Fixpoint reached (children : list (str * entry)) : list (str * entry) :=
  match children with
  | [] => []
  | (_, EDenied _) :: _ => []
  | ne :: children' => ne :: reached children'
  end.

(** A small tree: [docs/a.md], [docs/sub/b.md], [docs/sub/c.txt], and a
    file [notes.md] beside it. *)
Definition example_tree : list (path * entry) :=
  [ ([lit "docs"],
     EDir (Some [ (lit "a.md", EFile 7%Z 0%Z (Some (lit "# Title")));
                  (lit "sub",
                   EDir (Some [ (lit "b.md", EFile 7%Z 0%Z (Some (lit "# Title")));
                                (lit "c.txt", EFile 3%Z 0%Z (Some (lit "txt"))) ])) ]));
    ([lit "notes.md"], EFile 7%Z 0%Z (Some (lit "# Title"))) ].

Definition example_discovered : list FileInfo :=
  Eval vm_compute in
    match discover_files example_library default_config example_tree with
    | Ok files => files
    | Raise _ => []
    end.

(** ** Vocabulary of further properties *)

(** Every line feed of the text comes right after a carriage return,
    and every carriage return right before a line feed. *)
Fixpoint crlf_paired (s : str) : Prop :=
  match s with
  | [] => True
  | c :: s' =>
      if N.eqb c CR then
        match s' with
        | d :: s'' => d = LF /\ crlf_paired s''
        | [] => False
        end
      else c <> LF /\ crlf_paired s'
  end.

(** A sort key that begins with a text ([text_next]) and takes turns
    between texts and numbers up to a last text. *)
Fixpoint key_shape (text_next : bool) (key : list key_item) : Prop :=
  match key with
  | [] => text_next = false
  | KStr _ :: key' => text_next = true /\ key_shape false key'
  | KInt _ :: key' => text_next = false /\ key_shape true key'
  end.

(** The pieces of [split_digits]: texts without a decimal digit take
    turns with non-empty runs of decimal digits. *)
Fixpoint pieces_shape (lib : Library) (text_next : bool) (pieces : list str) : Prop :=
  match pieces with
  | [] => text_next = false
  | p :: pieces' =>
      if text_next
      then Forall (fun c => decimal_digit lib c = None) p
           /\ pieces_shape lib false pieces'
      else p <> [] /\ Forall (fun c => is_Some (decimal_digit lib c)) p
           /\ pieces_shape lib true pieces'
  end.

(** Where a file found from the input path [root] lies: it is the root
    itself, or it lies below the root through directories none of which
    is hidden, none at all when recursion is off, and no more than the
    depth limit when there is one. *)
Definition found_under (config : MergeConfig) (root : path) (f : FileInfo) : Prop :=
  fi_path f = root \/
  exists dirs name,
    fi_path f = root ++ dirs ++ [name] /\
    Forall (fun d => startswith [DOT] d = false) dirs /\
    (cfg_recursive config = false -> dirs = []) /\
    ((0 <= cfg_max_depth config)%Z -> (Z.of_nat (length dirs) <= cfg_max_depth config)%Z).

(** The order that [_sort_files] asks of two keys. *)
Definition in_order {K} (leb : K -> K -> bool) (ascending : bool) (a b : K) : Prop :=
  if ascending then leb a b = true else leb b a = true.

(** What holds of every file that a scan or an input path gives. *)
Definition accepted (lib : Library) (config : MergeConfig) (f : FileInfo) : Prop :=
  matches_filters lib config (fi_path f) = true /\ fi_hash f = None.

(** config.py [PRESETS["ai_knowledge_base"]]: the defaults with the file
    path, the chunk hints and the keywords turned on. *)
Definition preset_ai_knowledge_base : MergeConfig := {|
  cfg_header_style := lit "## {name}";
  cfg_include_file_path := true;
  cfg_include_doc_index := true;
  cfg_separator_style := lit "---";
  cfg_separator_blank_lines := 2;
  cfg_generate_toc := true;
  cfg_toc_depth := 2;
  cfg_toc_style := lit "links";
  cfg_toc_position := lit "top";
  cfg_adjust_header_level := 0;
  cfg_fix_relative_links := false;
  cfg_strip_front_matter := true;
  cfg_normalize_whitespace := true;
  cfg_max_consecutive_blanks := 2;
  cfg_detect_duplicates := true;
  cfg_add_metadata := true;
  cfg_add_semantic_markers := true;
  cfg_add_chunk_hints := true;
  cfg_extract_keywords := true;
  cfg_include_patterns := [lit "*.md"; lit "*.markdown"];
  cfg_exclude_patterns := [];
  cfg_recursive := true;
  cfg_max_depth := -1;
  cfg_sort_order := lit "alphabetical";
  cfg_sort_ascending := true;
  cfg_output_encoding := lit "utf-8";
  cfg_line_ending := lit "lf";
  cfg_create_backup := true
|}.

(** [MergeConfig(sort_order=order, sort_ascending=ascending)]: the
    defaults with another sort order. *)
Definition sorting_config (order : string) (ascending : bool) : MergeConfig :=
  mkMergeConfig
    (cfg_header_style default_config) (cfg_include_file_path default_config)
    (cfg_include_doc_index default_config) (cfg_separator_style default_config)
    (cfg_separator_blank_lines default_config) (cfg_generate_toc default_config)
    (cfg_toc_depth default_config) (cfg_toc_style default_config)
    (cfg_toc_position default_config) (cfg_adjust_header_level default_config)
    (cfg_fix_relative_links default_config) (cfg_strip_front_matter default_config)
    (cfg_normalize_whitespace default_config) (cfg_max_consecutive_blanks default_config)
    (cfg_detect_duplicates default_config) (cfg_add_metadata default_config)
    (cfg_add_semantic_markers default_config) (cfg_add_chunk_hints default_config)
    (cfg_extract_keywords default_config) (cfg_include_patterns default_config)
    (cfg_exclude_patterns default_config) (cfg_recursive default_config)
    (cfg_max_depth default_config) (lit order) ascending
    (cfg_output_encoding default_config) (cfg_line_ending default_config)
    (cfg_create_backup default_config).

(** A file of the example directory with a size and a modification time of
    its own. *)
Definition example_sized (name : string) (size modified : Z) : FileInfo :=
  mkFileInfo [lit "docs"; lit name] size modified None (lit "# Title").

(** The sizes, as discovery recorded them, of the files that were
    processed. *)
Fixpoint processed_size (os : list (FileInfo * res ProcessedDocument)) : Z :=
  match os with
  | [] => 0
  | (f, Ok _) :: os' => fi_size f + processed_size os'
  | (_, Raise _) :: os' => processed_size os'
  end.

(** The same file system with another outcome of [shutil.copy2]. *)
Definition with_copy2_error (fs : FileSystem) (err : path -> option str) : FileSystem :=
  mkFileSystem (read_bytes fs) (safe_read_file fs) (stat_file fs) (path_exists fs)
    err (open_error fs) (write_error fs).

(** ** helpers.py: extract_headers

    The pattern, under MULTILINE, is [^], group 1 [#{1,6}], [\s+], group 2
    [.+], and [$].  As for [adjust_header_levels] the run of [#] must
    have 1 to 6 characters and be followed by a space character.  The
    greedy [\s+] first takes the whole run of space characters, line
    feeds included.  When a character follows the run, it is not a line
    feed, and [.+] takes the rest of its line.  When the text ends with
    the run, [\s+] gives back characters, one at a time but never its
    first, until the one given back last is not a line feed; every
    character after that one being a line feed, group 2 is that single
    space character.  The data of a match: the length of group 1, and
    group 2. *)

(** The last position, counted from [i], of a character that [.] can
    take. *)
Fixpoint last_dot (ws : str) (i : nat) : option nat :=
  match ws with
  | [] => None
  | c :: ws' =>
      match last_dot ws' (S i) with
      | Some j => Some j
      | None => if is_dot c then Some i else None
      end
  end.

Definition header_text_at (prev : option char) (s : str)
  : option ((nat * str) * nat) :=
  if at_line_start prev then
    let n := length (take_while is_hash s) in
    if (1 <=? n) && (n <=? 6) then
      let ws := take_while is_space (drop n s) in
      match ws, drop (n + length ws) s with
      | [], _ => None
      | _ :: _, _ :: _ =>
          let text := take_while is_dot (drop (n + length ws) s) in
          Some ((n, text), n + length ws + length text)
      | _ :: ws', [] =>
          match last_dot ws' 1 with
          | Some j => Some ((n, take 1 (drop j ws)), n + j + 1)
          | None => None
          end
      end
    else None
  else None.

Module Helpers.
Definition extract_headers (content : str) (max_depth : Z) : list (Z * str) :=
  omap (fun m : nat * str =>
          let level := Z.of_nat (fst m) in
          if (level <=? max_depth)%Z then Some (level, strip (snd m)) else None)
       (re_finditer header_text_at content).
End Helpers.

(** ** config.py: AppConfig.add_recent_project *)

(** [l.remove(x)] where [x] occurs: the first occurrence goes. *)
Fixpoint list_remove (x : str) (l : list str) : list str :=
  match l with
  | [] => []
  | y :: l' => if str_eqb y x then l' else y :: list_remove x l'
  end.

(** [l[:stop]]: a negative [stop] counts from the end. *)
Definition slice_to {A} (l : list A) (stop : Z) : list A :=
  if (0 <=? stop)%Z then take (Z.to_nat stop) l
  else take (length l - Z.to_nat (- stop)) l.

(** The list [recent_projects] after [add_recent_project(project_path)]. *)
Definition add_recent_project (recent_projects : list str) (max_recent : Z)
    (project_path : str) : list str :=
  let recent_projects :=
    if existsb (str_eqb project_path) recent_projects
    then list_remove project_path recent_projects
    else recent_projects in
  let recent_projects := project_path :: recent_projects in
  slice_to recent_projects max_recent.

(** ** gui/main_window.py: MainWindow.add_paths

    The list [self.files] after [add_paths(paths)], each input path coming
    with what the file system holds there. *)
Definition add_paths (lib : Library) (config : MergeConfig)
    (files : list FileInfo) (paths : list (path * entry)) : res (list FileInfo) :=
  let* new_files := discover_files lib config paths in
  let existing_paths := List.map fi_path files in
  Ok (files
      ++ List.filter (fun f => negb (bool_decide (fi_path f ∈ existing_paths)))
           new_files).

(** ** merger.py: MergeEngine.generate_preview *)

Section Preview.
Variable lib : Library.
Variable fs : FileSystem.
Variable config : MergeConfig.

(** One turn of the loop over [preview_files]: the lines it appends. *)
Definition preview_document (n_files n_preview : nat) (i : Z) (file_info : FileInfo)
    : list str :=
  match (let* doc := read_and_process lib fs config (Z.of_nat n_files) i file_info in
         let* header := generate_document_header lib config doc in
         Ok (doc, header)) with
  | Ok (doc, header) =>
      [header; []]
      ++ take 20 (split_lines (processed_content doc))
      ++ (if (n_preview <? n_files) || (i <? Z.of_nat n_preview)%Z
          then [generate_separator config] else [])
  | Raise e =>
      [lit "[Error previewing " ++ path_name (fi_path file_info) ++ lit ": "
         ++ exn_msg e ++ lit "]"]
  end.

Fixpoint preview_documents (n_files n_preview : nat) (i : Z)
    (preview_files : list FileInfo) : list str :=
  match preview_files with
  | [] => []
  | file_info :: rest =>
      preview_document n_files n_preview i file_info
        ++ preview_documents n_files n_preview (i + 1) rest
  end.

(** The list [lines] at the end of [generate_preview]. *)
Definition preview_lines (files : list FileInfo) (max_lines : Z) : list str :=
  let preview_files := take 3 files in
  let toc :=
    if cfg_generate_toc config then
      [lit "# Table of Contents"; []]
      ++ List.map (fun f => lit "- " ++ path_stem (fi_path f)) (take 10 files)
      ++ (if 10 <? length files
          then [lit "... and " ++ str_of_Z (Z.of_nat (length files) - 10) ++ lit " more"]
          else [])
      ++ [[]; lit "---"; []]
    else [] in
  let lines :=
    toc
    ++ preview_documents (length files) (length preview_files) 1 preview_files
    ++ (if length preview_files <? length files
        then [lit "... "
                ++ str_of_Z (Z.of_nat (length files) - Z.of_nat (length preview_files))
                ++ lit " more files ..."]
        else []) in
  if (max_lines <? Z.of_nat (length lines))%Z
  then slice_to lines max_lines ++ [[]; lit "... (preview truncated) ..."]
  else lines.

Definition generate_preview (files : list FileInfo) (max_lines : Z) : str :=
  match files with
  | [] => lit "No files to preview."
  | _ => join_lines (preview_lines files max_lines)
  end.
End Preview.

(** The files of a list whose content hashes to [h], each with the hash
    recorded, in the order of the list. *)
Definition files_with_hash (lib : Library) (fs : FileSystem) (h : str)
    (files : list FileInfo) : list FileInfo :=
  omap (fun f =>
          match calculate_file_hash lib fs (fi_path f) with
          | Ok h' => if str_eqb h' h then Some (with_hash f h) else None
          | Raise _ => None
          end) files.

(** The number that a text of decimal digits writes. *)
Definition decimal_value (s : str) : Z :=
  foldl (fun acc c => (10 * acc + (Z.of_N c - 48))%Z) 0%Z s.

(** * Properties *)

(** ** get_statistics *)

Lemma py_sum_foldr (xs : list Z) : py_sum xs = foldr Z.add 0%Z xs.
Proof.
  unfold py_sum.
  assert (H : forall a, foldl Z.add a xs = (a + foldr Z.add 0 xs)%Z).
  { induction xs as [|x xs IH]; intros a; simpl; [lia|]. rewrite IH. lia. }
  rewrite H. lia.
Qed.

Lemma foldl_min_spec (xs : list Z) (x : Z) :
  let m := foldl (fun m y => if (y <? m)%Z then y else m) x xs in
  m ∈ x :: xs ∧ Forall (fun y => (m <= y)%Z) (x :: xs).
Proof.
  revert x. induction xs as [|y xs IH]; intros x; simpl.
  - split; [left | repeat constructor; lia].
  - destruct (Z.ltb_spec y x) as [Hlt|Hge].
    + destruct (IH y) as [Hin Hall]. simpl in Hin, Hall. split.
      * right. exact Hin.
      * inversion Hall as [|? ? Hy Hrest]; subst.
        constructor; [lia|]. constructor; assumption.
    + destruct (IH x) as [Hin Hall]. simpl in Hin, Hall. split.
      * apply elem_of_cons in Hin as [->|Hin]; [left | right; right; exact Hin].
      * inversion Hall as [|? ? Hx Hrest]; subst.
        constructor; [lia|]. constructor; [lia | assumption].
Qed.

Lemma foldl_max_spec (xs : list Z) (x : Z) :
  let m := foldl (fun m y => if (y >? m)%Z then y else m) x xs in
  m ∈ x :: xs ∧ Forall (fun y => (y <= m)%Z) (x :: xs).
Proof.
  revert x. induction xs as [|y xs IH]; intros x; simpl.
  - split; [left | repeat constructor; lia].
  - rewrite Z.gtb_ltb. destruct (Z.ltb_spec x y) as [Hlt|Hge].
    + destruct (IH y) as [Hin Hall]. simpl in Hin, Hall. split.
      * right. exact Hin.
      * inversion Hall as [|? ? Hy Hrest]; subst.
        constructor; [lia|]. constructor; assumption.
    + destruct (IH x) as [Hin Hall]. simpl in Hin, Hall. split.
      * apply elem_of_cons in Hin as [->|Hin]; [left | right; right; exact Hin].
      * inversion Hall as [|? ? Hx Hrest]; subst.
        constructor; [lia|]. constructor; [lia | assumption].
Qed.

(** C10: [get_statistics] returns on every file list and never raises
    the ValueError of [min]/[max] on an empty sequence.  On the empty
    list: count 0, total size 0, average size 0, no oldest and no newest
    time.  On a non-empty list: count = length, total size = sum of the
    sizes, average = total size floor-divided by the count, oldest = the
    least and newest = the greatest modification time of the list, and
    oldest <= newest. *)
Theorem get_statistics_total (files : list FileInfo) :
  exists st, get_statistics files = Ok st /\
    match files with
    | [] => st = mkStatistics 0 0 0 None None
    | _ :: _ =>
        st_count st = Z.of_nat (length files) /\
        st_total_size st = foldr Z.add 0%Z (List.map fi_size files) /\
        st_avg_size st = (st_total_size st `div` st_count st)%Z /\
        exists oldest newest,
          st_oldest st = Some oldest /\ st_newest st = Some newest /\
          oldest ∈ List.map fi_modified files /\
          Forall (fun t => (oldest <= t)%Z) (List.map fi_modified files) /\
          newest ∈ List.map fi_modified files /\
          Forall (fun t => (t <= newest)%Z) (List.map fi_modified files) /\
          (oldest <= newest)%Z
    end.
Proof.
  destruct files as [|f files].
  - eexists. split; reflexivity.
  - unfold get_statistics.
    set (fs := f :: files).
    simpl (List.map fi_modified fs). unfold py_min, py_max. simpl res_bind.
    eexists. split; [reflexivity|]. simpl.
    destruct (foldl_min_spec (List.map fi_modified files) (fi_modified f)) as [Hmin_in Hmin].
    destruct (foldl_max_spec (List.map fi_modified files) (fi_modified f)) as [Hmax_in Hmax].
    simpl in Hmin_in, Hmin, Hmax_in, Hmax.
    repeat split.
    + rewrite py_sum_foldr. reflexivity.
    + do 2 eexists. repeat split; try eassumption.
      rewrite Forall_forall in Hmin. apply Hmin. exact Hmax_in.
Qed.

(** ** detect_duplicates *)

Lemma calculate_file_hash_readable lib fs p data :
  read_bytes fs p = Ok data ->
  calculate_file_hash lib fs p = Ok (file_digest lib data).
Proof. intros H. unfold calculate_file_hash. rewrite H. reflexivity. Qed.

Lemma hash_files_readable lib fs files :
  Forall (fun f => exists data, read_bytes fs (fi_path f) = Ok data) files ->
  forall hash_map, exists m, hash_files lib fs files hash_map = Ok m.
Proof.
  induction 1 as [|f files [data Hf] _ IH]; intros hash_map; simpl.
  - eauto.
  - rewrite (calculate_file_hash_readable _ _ _ _ Hf). simpl. apply IH.
Qed.

(** C7: with detection disabled [detect_duplicates] returns no group;
    with detection enabled every group it returns has at least two
    members, it does return when every file can be read, and on two
    files with the same bytes it returns exactly one group, made of
    these two files. *)
Theorem detect_duplicates_groups (lib : Library) (fs : FileSystem)
    (config : MergeConfig) :
  (cfg_detect_duplicates config = false ->
     forall files, detect_duplicates lib config fs files = Ok ∅) /\
  (cfg_detect_duplicates config = true ->
     (forall files m,
        detect_duplicates lib config fs files = Ok m ->
        map_Forall (fun _ group => 2 <= length group) m) /\
     (forall files,
        Forall (fun f => exists data, read_bytes fs (fi_path f) = Ok data) files ->
        exists m, detect_duplicates lib config fs files = Ok m) /\
     (forall f1 f2 data,
        read_bytes fs (fi_path f1) = Ok data ->
        read_bytes fs (fi_path f2) = Ok data ->
        let h := file_digest lib data in
        detect_duplicates lib config fs [f1; f2]
          = Ok {[ h := [with_hash f1 h; with_hash f2 h] ]})).
Proof.
  split.
  - intros Hoff files. unfold detect_duplicates. rewrite Hoff. reflexivity.
  - intros Hon. repeat split.
    + intros files m. unfold detect_duplicates. rewrite Hon. simpl.
      destruct (hash_files lib fs files ∅) as [hash_map|e]; simpl; [|discriminate].
      intros [= <-] h group Hlook.
      apply map_lookup_filter_Some in Hlook as [_ Hlen]. simpl in Hlen. lia.
    + intros files Hread. unfold detect_duplicates. rewrite Hon. simpl.
      destruct (hash_files_readable lib fs files Hread ∅) as [m ->]. simpl. eauto.
    + intros f1 f2 data H1 H2 h. unfold detect_duplicates. rewrite Hon. simpl.
      rewrite (calculate_file_hash_readable _ _ _ _ H1). simpl.
      rewrite (calculate_file_hash_readable _ _ _ _ H2). simpl.
      fold h. rewrite lookup_empty. simpl.
      rewrite lookup_insert_eq. simpl.
      rewrite insert_insert_eq. rewrite insert_empty.
      f_equal. apply map_filter_singleton_True. simpl. lia.
Qed.

(** ** Strings: comparison, lines *)

Lemma str_eqb_eq (a b : str) : str_eqb a b = true <-> a = b.
Proof.
  revert b. induction a as [|x a IH]; intros [|y b]; simpl; split;
    try discriminate; try reflexivity.
  - intros H. apply andb_true_iff in H as [Hx Hab].
    apply N.eqb_eq in Hx. apply IH in Hab. congruence.
  - intros [= -> ->]. rewrite N.eqb_refl. simpl. apply IH. reflexivity.
Qed.

Lemma str_eqb_neq (a b : str) : str_eqb a b = false <-> a <> b.
Proof.
  rewrite <- str_eqb_eq. destruct (str_eqb a b); split; congruence.
Qed.

Lemma startswith_app (p a b : str) :
  startswith p a = true -> startswith p (a ++ b) = true.
Proof.
  revert a. induction p as [|x p IH]; intros [|y a]; simpl; try done.
  intros H. apply andb_true_iff in H as [-> H]. simpl. auto.
Qed.

Lemma split_lines_nonempty (s : str) : split_lines s <> [].
Proof.
  destruct s as [|c s]; simpl; [done|].
  destruct (is_nl c); [done|]. destruct (split_lines s); done.
Qed.

Lemma split_lines_line (l : str) : LF ∉ l -> split_lines l = [l].
Proof.
  induction l as [|c l IH]; intros Hl; simpl; [reflexivity|].
  apply not_elem_of_cons in Hl as [Hc Hl].
  unfold is_nl. destruct (N.eqb_spec c LF) as [->|_]; [done|].
  rewrite (IH Hl). reflexivity.
Qed.

Lemma split_lines_app (l rest : str) :
  LF ∉ l -> split_lines (l ++ LF :: rest) = l :: split_lines rest.
Proof.
  induction l as [|c l IH]; intros Hl; simpl; [reflexivity|].
  apply not_elem_of_cons in Hl as [Hc Hl].
  unfold is_nl at 1. destruct (N.eqb_spec c LF) as [->|_]; [done|].
  rewrite (IH Hl). reflexivity.
Qed.

Lemma join_lines_cons (l : str) (ls : list str) :
  ls <> [] -> join_lines (l :: ls) = l ++ LF :: join_lines ls.
Proof. destruct ls; [done | reflexivity]. Qed.

(** [split('\n')] undoes ['\n'.join] on lines free of line feeds. *)
Lemma split_join_lines (l : str) (ls : list str) :
  Forall (fun l => LF ∉ l) (l :: ls) ->
  split_lines (join_lines (l :: ls)) = l :: ls.
Proof.
  revert l. induction ls as [|l' ls IH]; intros l Hall.
  - simpl. apply split_lines_line. by inversion Hall.
  - rewrite join_lines_cons by done.
    inversion Hall as [|? ? Hl Hrest]; subst.
    rewrite split_lines_app by done. f_equal. apply IH. exact Hrest.
Qed.

Lemma find_closing_none (ls : list str) (i : nat) :
  Forall (fun l => ~ is_closing l) ls -> find_closing ls i = None.
Proof.
  revert i. induction ls as [|l ls IH]; intros i Hall; simpl; [reflexivity|].
  inversion Hall as [|? ? Hl Hrest]; subst.
  apply str_eqb_neq in Hl. unfold is_closing in *. rewrite Hl. apply IH. exact Hrest.
Qed.

Lemma find_closing_first (between : list str) (closing : str) (after : list str) (i : nat) :
  Forall (fun l => ~ is_closing l) between -> is_closing closing ->
  find_closing (between ++ closing :: after) i = Some (i + length between).
Proof.
  revert i. induction between as [|l ls IH]; intros i Hall Hc; simpl.
  - apply str_eqb_eq in Hc. rewrite Hc. f_equal. lia.
  - inversion Hall as [|? ? Hl Hrest]; subst.
    apply str_eqb_neq in Hl. rewrite Hl. rewrite IH by assumption. f_equal. lia.
Qed.

(** ** extract_front_matter *)

(** C5, as amended.  (1) A content that starts with the opening
    delimiter and whose first later line that strips to the delimiter
    closes the block gives back the lines between the two as the front
    matter and, as the remaining content, the text after the closing
    line without its leading line feeds.  (2) A content that does not
    start with the delimiter comes back unchanged with no front matter.
    (3) So does a content that starts with it but has no closing line. *)
Theorem extract_front_matter_cases :
  (forall (first : str) (between : list str) (closing : str) (after : list str),
     startswith (lit "---") first = true ->
     Forall (fun l => LF ∉ l) (first :: between ++ closing :: after) ->
     Forall (fun l => ~ is_closing l) between ->
     is_closing closing ->
     extract_front_matter (join_lines (first :: between ++ closing :: after))
       = (Some (join_lines between), lstrip_nl (join_lines after))) /\
  (forall content,
     startswith (lit "---") content = false ->
     extract_front_matter content = (None, content)) /\
  (forall content,
     startswith (lit "---") content = true ->
     Forall (fun l => ~ is_closing l) (drop 1 (split_lines content)) ->
     extract_front_matter content = (None, content)).
Proof.
  repeat split.
  - intros first between closing after Hopen Hnl Hbetween Hclosing.
    unfold extract_front_matter.
    assert (Hstart : startswith (lit "---")
                       (join_lines (first :: between ++ closing :: after)) = true).
    { rewrite join_lines_cons by (destruct between; done).
      apply startswith_app. exact Hopen. }
    rewrite Hstart. simpl negb. cbv iota.
    rewrite split_join_lines by exact Hnl.
    change (drop 1 (first :: between ++ closing :: after))
      with (between ++ closing :: after).
    rewrite (find_closing_first between closing after 1 Hbetween Hclosing).
    f_equal.
    + f_equal. f_equal.
      replace (1 + length between - 1) with (length between) by lia.
      rewrite take_app_length. reflexivity.
    + f_equal. f_equal.
      replace (1 + length between + 1) with (S (length between + 1)) by lia.
      change (drop (S (length between + 1)) (first :: between ++ closing :: after))
        with (drop (length between + 1) (between ++ closing :: after)).
      rewrite drop_app_add'; [|reflexivity]. reflexivity.
  - intros content Hno. unfold extract_front_matter. rewrite Hno. reflexivity.
  - intros content Hopen Hnone. unfold extract_front_matter. rewrite Hopen. simpl.
    rewrite find_closing_none; [reflexivity|].
    destruct (split_lines content); [constructor | exact Hnone].
Qed.

(** The remaining content is not the text after the closing delimiter
    as it stands: a blank line that follows the block is dropped. *)
Lemma extract_front_matter_drops_blank_lines :
  extract_front_matter (join_lines [lit "---"; lit "a"; lit "---"; []; lit "b"])
    = (Some (lit "a"), lit "b")
  /\ lit "b" <> join_lines [[]; lit "b"].
Proof. split; [reflexivity | discriminate]. Qed.

(** The content of the repository's own test, and an opening delimiter
    that is never closed. *)
Example extract_front_matter_test :
  extract_front_matter
    (join_lines [lit "---"; lit "title: Test"; lit "date: 2025-01-01"; lit "---";
                 []; lit "# Heading"; []; lit "Content here."; []])
  = (Some (join_lines [lit "title: Test"; lit "date: 2025-01-01"]),
     join_lines [lit "# Heading"; []; lit "Content here."; []]).
Proof. reflexivity. Qed.

Example extract_front_matter_unclosed :
  extract_front_matter (join_lines [lit "---"; lit "title: Test"; lit "# Heading"])
  = (None, join_lines [lit "---"; lit "title: Test"; lit "# Heading"]).
Proof. reflexivity. Qed.

(** ** The scanner *)

Section RegexFacts.
Context {M : Type}.
Variable match_at : option char -> str -> option (M * nat).

(** Fuel beyond the length of the text changes nothing. *)
Lemma re_scan_fuel (fuel1 fuel2 : nat) (prev : option char) (s : str) :
  length s <= fuel1 -> length s <= fuel2 ->
  re_scan match_at fuel1 prev s = re_scan match_at fuel2 prev s.
Proof.
  revert fuel2 prev s.
  induction fuel1 as [|fuel1 IH]; intros fuel2 prev s H1 H2.
  - destruct s; simpl in H1; [|lia]. destruct fuel2; reflexivity.
  - destruct s as [|c s']; [destruct fuel2; reflexivity|].
    destruct fuel2 as [|fuel2]; simpl in H1, H2; [lia|].
    simpl. destruct (match_at prev (c :: s')) as [[m [|n]]|].
    + f_equal. apply IH; lia.
    + f_equal. apply IH; rewrite length_drop; lia.
    + f_equal. apply IH; lia.
Qed.

Abbreviation scan := (scan match_at).
Abbreviation no_match := (no_match match_at).

Lemma scan_nil prev : scan prev [] = [].
Proof. reflexivity. Qed.

Lemma scan_match prev c s' m n :
  match_at prev (c :: s') = Some (m, S n) ->
  scan prev (c :: s')
    = Match m :: scan (last (take (S n) (c :: s'))) (drop (S n) (c :: s')).
Proof.
  intros H. unfold scan. simpl length. cbn [re_scan]. rewrite H.
  f_equal. apply re_scan_fuel; [|reflexivity]. simpl. rewrite length_drop. lia.
Qed.

Lemma scan_lit prev c s' :
  no_match prev (c :: s') ->
  scan prev (c :: s') = Lit c :: scan (Some c) s'.
Proof.
  intros H. unfold scan. simpl length. cbn [re_scan].
  destruct (match_at prev (c :: s')) as [[m [|n]]|] eqn:E; try reflexivity.
  exfalso. exact (H m n E).
Qed.

Lemma match_or_not prev s :
  (exists m n, match_at prev s = Some (m, S n)) \/ no_match prev s.
Proof.
  unfold no_match. destruct (match_at prev s) as [[m [|n]]|]; eauto; right; congruence.
Qed.

(** Induction along the scan: at the end of the text, over a match,
    over a character passed by. *)
Lemma scan_ind (P : option char -> str -> list (token (M:=M)) -> Prop) :
  (forall prev, P prev [] []) ->
  (forall prev c s' m n,
     match_at prev (c :: s') = Some (m, S n) ->
     P (last (take (S n) (c :: s'))) (drop (S n) (c :: s'))
       (scan (last (take (S n) (c :: s'))) (drop (S n) (c :: s'))) ->
     P prev (c :: s')
       (Match m :: scan (last (take (S n) (c :: s'))) (drop (S n) (c :: s')))) ->
  (forall prev c s',
     no_match prev (c :: s') ->
     P (Some c) s' (scan (Some c) s') ->
     P prev (c :: s') (Lit c :: scan (Some c) s')) ->
  forall prev s, P prev s (scan prev s).
Proof.
  intros Hnil Hmatch Hlit prev s.
  remember (length s) as len eqn:Hlen. revert prev s Hlen.
  induction len as [len IH] using lt_wf_ind. intros prev s ->.
  destruct s as [|c s']; [apply Hnil|].
  destruct (match_or_not prev (c :: s')) as [(m & n & E)|E].
  - rewrite (scan_match _ _ _ _ _ E). apply Hmatch; [exact E|].
    eapply IH; [|reflexivity]. simpl. rewrite length_drop. lia.
  - rewrite (scan_lit _ _ _ E). apply Hlit; [exact E|].
    eapply IH; [|reflexivity]. simpl. lia.
Qed.

Lemma re_sub_scan (repl : M -> str) (s : str) :
  re_sub match_at repl s = concat (List.map (render repl) (scan None s)).
Proof. reflexivity. Qed.

Lemma re_finditer_scan (s : str) :
  re_finditer match_at s = matches_of (scan None s).
Proof. reflexivity. Qed.
End RegexFacts.

(** ** Stripping *)

Lemma is_space_LF : is_space LF = true.
Proof. reflexivity. Qed.

Lemma is_nl_space c : is_nl c = true -> is_space c = true.
Proof. unfold is_nl. intros H. apply N.eqb_eq in H. subst. reflexivity. Qed.

Lemma is_nl_LF c : is_nl c = true <-> c = LF.
Proof. unfold is_nl. apply N.eqb_eq. Qed.

(** Nothing that [rstrip] returns ends with a space character. *)
Lemma rstrip_last (s b : str) (c : char) :
  rstrip s = b ++ [c] -> is_space c = false.
Proof.
  revert b. induction s as [|x s IH]; intros b; simpl.
  - destruct b; discriminate.
  - destruct (rstrip s) as [|y r] eqn:E.
    + destruct (is_space x) eqn:Hx; [destruct b; discriminate|].
      destruct b as [|? [|? ?]]; intros [= <-]; try discriminate. exact Hx.
    + destruct b as [|z b]; [discriminate|]. intros [= -> Hb]. eapply IH. exact Hb.
Qed.

Lemma rstrip_app_space (s : str) (c : char) :
  is_space c = true -> rstrip (s ++ [c]) = rstrip s.
Proof.
  intros Hc. induction s as [|x s IH]; simpl; [rewrite Hc; reflexivity|].
  rewrite IH. reflexivity.
Qed.

Lemma rstrip_idem (s : str) : rstrip (rstrip s) = rstrip s.
Proof.
  induction s as [|x s IH]; simpl; [reflexivity|].
  destruct (rstrip s) as [|y r] eqn:E.
  - destruct (is_space x) eqn:Hx; simpl; [reflexivity | rewrite Hx; reflexivity].
  - simpl. simpl in IH. rewrite IH. reflexivity.
Qed.

Lemma lstrip_head (s : str) :
  match lstrip s with
  | [] => True
  | c :: _ => is_space c = false
  end.
Proof.
  unfold lstrip. induction s as [|x s IH]; simpl; [exact I|].
  destruct (is_space x) eqn:Hx; [exact IH | exact Hx].
Qed.

Lemma rstrip_head (s : str) (c : char) :
  is_space c = false -> rstrip (c :: s) = c :: rstrip s.
Proof. intros Hc. simpl. destruct (rstrip s); [rewrite Hc|]; reflexivity. Qed.

(** A stripped text begins with no space character. *)
Lemma strip_head (s : str) :
  match strip s with
  | [] => True
  | c :: _ => is_space c = false
  end.
Proof.
  unfold strip. pose proof (lstrip_head s) as H.
  destruct (lstrip s) as [|c l]; [exact I|].
  rewrite (rstrip_head _ _ H). exact H.
Qed.

Lemma strip_last (s b : str) (c : char) :
  strip s = b ++ [c] -> is_space c = false.
Proof. apply rstrip_last. Qed.

(** Stripping a stripped text followed by one line feed gives the
    stripped text back. *)
Lemma strip_strip_LF (s : str) : strip (strip s ++ [LF]) = strip s.
Proof.
  pose proof (strip_head s) as Hhead.
  destruct (strip s) as [|c t] eqn:E; [reflexivity|].
  unfold strip at 1. unfold lstrip. simpl. rewrite Hhead.
  change (c :: t ++ [LF]) with ((c :: t) ++ [LF]).
  rewrite rstrip_app_space by reflexivity.
  rewrite <- E. unfold strip. apply rstrip_idem.
Qed.

(** ** Runs of line feeds *)

Lemma short_runs_mono (k r r' : nat) (s : str) :
  r' <= r -> short_runs k r s -> short_runs k r' s.
Proof.
  revert r r'. induction s as [|c s IH]; intros r r' Hle; simpl; [done|].
  destruct (is_nl c); [|done].
  intros [Hlt Hs]. split; [lia|]. eapply IH; [|exact Hs]. lia.
Qed.

Lemma short_runs_tail (k r : nat) (c : char) (s : str) :
  short_runs k r (c :: s) -> short_runs k 0 s.
Proof.
  simpl. destruct (is_nl c); [|done].
  intros [_ Hs]. eapply short_runs_mono; [|exact Hs]. lia.
Qed.

Lemma short_runs_lead (k r : nat) (s : str) :
  short_runs k r s -> lead s = 0 \/ r + lead s < k.
Proof.
  unfold lead. revert r. induction s as [|c s IH]; intros r; simpl; [auto|].
  destruct (is_nl c); [|auto].
  intros [Hlt Hs]. right. simpl. destruct (IH _ Hs) as [->|H]; lia.
Qed.

Lemma short_runs_repeat (k r j : nat) (s : str) :
  r + j < k -> short_runs k (r + j) s -> short_runs k r (repeat LF j ++ s).
Proof.
  revert r. induction j as [|j IH]; intros r Hlt Hs; simpl.
  - replace (r + 0) with r in Hs by lia. exact Hs.
  - split; [lia|]. apply IH; [lia|].
    replace (S r + j) with (r + S j) by lia. exact Hs.
Qed.

Lemma short_runs_lstrip (k r : nat) (s : str) :
  short_runs k r s -> short_runs k 0 (lstrip s).
Proof.
  unfold lstrip. revert r. induction s as [|c s IH]; intros r Hs; simpl; [done|].
  destruct (is_space c).
  - eapply IH. eapply short_runs_tail. exact Hs.
  - eapply short_runs_mono; [|exact Hs]. lia.
Qed.

Lemma short_runs_rstrip (k r : nat) (s : str) :
  short_runs k r s -> short_runs k r (rstrip s).
Proof.
  revert r. induction s as [|c s IH]; intros r; simpl; [done|].
  destruct (rstrip s) as [|y t] eqn:E.
  - destruct (is_space c) eqn:Hc; [done|]. simpl.
    destruct (is_nl c) eqn:Hn; [|done].
    apply is_nl_space in Hn. congruence.
  - simpl in IH. simpl. destruct (is_nl c).
    + intros [Hlt Hs]. split; [exact Hlt|]. apply IH. exact Hs.
    + apply IH.
Qed.

(** One line feed after a text that ends with none starts a run of
    length one. *)
Lemma short_runs_snoc_LF (k r : nat) (s : str) :
  2 <= k -> (s = [] -> r = 0) ->
  (forall b c, s = b ++ [c] -> is_space c = false) ->
  short_runs k r s -> short_runs k r (s ++ [LF]).
Proof.
  intros Hk. revert r. induction s as [|c s IH]; intros r Hnil Hlast Hs.
  - simpl. rewrite (Hnil eq_refl). split; [lia | exact I].
  - simpl in *. destruct (is_nl c) eqn:Hn.
    + destruct Hs as [Hlt Hs]. split; [exact Hlt|].
      apply IH; [|intros b d ->; apply (Hlast (c :: b) d); reflexivity | exact Hs].
      intros ->. specialize (Hlast [] c eq_refl).
      apply is_nl_space in Hn. congruence.
    + apply IH; [reflexivity| intros b d ->; apply (Hlast (c :: b) d); reflexivity | exact Hs].
Qed.

(** ** normalize_whitespace *)

Section NewlineRuns.
Variable k r : nat.
Hypothesis Hrk : r < k.

Lemma newline_run_at_match prev s m n :
  newline_run_at k prev s = Some (m, n) -> n = lead s /\ k <= lead s.
Proof.
  unfold newline_run_at, lead.
  destruct (Nat.leb_spec k (length (take_while is_nl s))); [|discriminate].
  intros [= _ <-]. split; [reflexivity | assumption].
Qed.

Lemma newline_run_no_match prev s :
  no_match (newline_run_at k) prev s -> lead s = 0 \/ lead s < k.
Proof.
  unfold no_match, newline_run_at, lead. intros H.
  destruct (length (take_while is_nl s)) as [|n] eqn:E; [auto|].
  right. destruct (Nat.leb_spec k (S n)) as [Hle|Hlt]; [|lia].
  exfalso. exact (H tt n eq_refl).
Qed.

Lemma lead_drop (s : str) : lead (drop (lead s) s) = 0.
Proof.
  unfold lead. induction s as [|c s IH]; simpl; [reflexivity|].
  destruct (is_nl c) eqn:Hc; simpl; [exact IH | rewrite Hc; reflexivity].
Qed.

Lemma lead_cons_nl c s : is_nl c = true -> lead (c :: s) = S (lead s).
Proof. unfold lead. simpl. intros ->. reflexivity. Qed.

Lemma lead_cons_other c s : is_nl c = false -> lead (c :: s) = 0.
Proof. unfold lead. simpl. intros ->. reflexivity. Qed.

(** After the substitution no run of line feeds has [k] members. *)
Lemma collapse_short_runs prev s j :
  j = 0 \/ j + lead s < k -> short_runs k j (collapse_from k r prev s).
Proof.
  unfold collapse_from. revert j.
  pattern prev, s, (scan (newline_run_at k) prev s). apply scan_ind; clear prev s.
  - intros prev j _. exact I.
  - intros prev c s' [] n Hm IH j Hj.
    apply newline_run_at_match in Hm as [Hn Hk].
    assert (j = 0) as -> by lia.
    simpl List.map. simpl concat. apply short_runs_repeat; [lia|].
    apply IH. right. rewrite Hn. rewrite lead_drop. simpl. lia.
  - intros prev c s' Hno IH j Hj.
    simpl List.map. simpl concat. simpl short_runs.
    apply newline_run_no_match in Hno.
    destruct (is_nl c) eqn:Hc.
    + rewrite (lead_cons_nl _ _ Hc) in Hno, Hj.
      split; [lia|]. apply IH. right. lia.
    + apply IH. left. reflexivity.
Qed.

(** A text without a run of [k] line feeds is left as it is. *)
Lemma collapse_fixed prev s j :
  short_runs k j s -> collapse_from k r prev s = s.
Proof.
  unfold collapse_from. revert j.
  pattern prev, s, (scan (newline_run_at k) prev s). apply scan_ind; clear prev s.
  - reflexivity.
  - intros prev c s' [] n Hm _ j Hs. exfalso.
    apply newline_run_at_match in Hm as [Hn Hk].
    apply short_runs_lead in Hs. lia.
  - intros prev c s' _ IH j Hs. simpl. f_equal.
    simpl in Hs. destruct (is_nl c); [destruct Hs as [_ Hs]|]; eapply IH; exact Hs.
Qed.
End NewlineRuns.

(** [normalize_whitespace] twice is [normalize_whitespace] once, for
    every limit from 0. *)
Lemma normalize_whitespace_idempotent_from_0 (content : str) (max_consecutive : Z) :
  (0 <= max_consecutive)%Z ->
  normalize_whitespace (normalize_whitespace content max_consecutive) max_consecutive
    = normalize_whitespace content max_consecutive.
Proof.
  intros Hm. unfold normalize_whitespace.
  set (k := Z.to_nat (max_consecutive + 2)).
  set (r := Z.to_nat (max_consecutive + 1)).
  assert (Hrk : r < k) by lia. assert (Hk : 2 <= k) by lia.
  rewrite !re_sub_scan. fold (collapse_from k r None content).
  set (t := strip (collapse_from k r None content)).
  fold (collapse_from k r None (t ++ [LF])).
  assert (Ht : short_runs k 0 t).
  { apply short_runs_rstrip. eapply short_runs_lstrip.
    apply (collapse_short_runs k r Hrk None content 0). left. reflexivity. }
  rewrite (collapse_fixed k r Hrk None (t ++ [LF]) 0).
  - unfold t. rewrite strip_strip_LF. reflexivity.
  - apply short_runs_snoc_LF; [exact Hk | reflexivity | | exact Ht].
    intros b c Hb. eapply strip_last. exact Hb.
Qed.

(** C6: for every content and every limit of at least 1,
    [normalize_whitespace] applied twice gives what it gives applied
    once, and what it gives ends with exactly one line feed: a line feed
    comes last and the character before it, if any, is no line feed. *)
Theorem normalize_whitespace_idempotent (content : str) (max_consecutive : Z) :
  (1 <= max_consecutive)%Z ->
  normalize_whitespace (normalize_whitespace content max_consecutive) max_consecutive
    = normalize_whitespace content max_consecutive
  /\ exists body,
       normalize_whitespace content max_consecutive = body ++ [LF]
       /\ forall b, body <> b ++ [LF].
Proof.
  intros Hm. split.
  - apply normalize_whitespace_idempotent_from_0. lia.
  - unfold normalize_whitespace. eexists. split; [reflexivity|].
    intros b Hb. apply strip_last in Hb. discriminate.
Qed.

Lemma normalize_whitespace_idempotent_witness :
  let content := lit "Line 1" ++ [LF; LF; LF; LF; LF] ++ lit "Line 2" ++ [LF] in
  normalize_whitespace (normalize_whitespace content 1) 1
    = normalize_whitespace content 1
  /\ exists body,
       normalize_whitespace content 1 = body ++ [LF]
       /\ forall b, body <> b ++ [LF].
Proof. apply normalize_whitespace_idempotent. lia. Defined.

(** The input of the repository's test: five line feeds between two
    lines, limit 1. *)
Example normalize_whitespace_test :
  normalize_whitespace (lit "Line 1" ++ [LF; LF; LF; LF; LF] ++ lit "Line 2" ++ [LF]) 1
  = lit "Line 1" ++ [LF; LF] ++ lit "Line 2" ++ [LF].
Proof. reflexivity. Qed.

(** ** take_while and drop_while *)

Lemma take_drop_while (p : char -> bool) (s : str) :
  take_while p s ++ drop_while p s = s.
Proof.
  induction s as [|c s IH]; simpl; [reflexivity|].
  destruct (p c); simpl; [f_equal; exact IH | reflexivity].
Qed.

Lemma drop_take_while (p : char -> bool) (s : str) :
  drop (length (take_while p s)) s = drop_while p s.
Proof.
  induction s as [|c s IH]; simpl; [reflexivity|].
  destruct (p c); simpl; [exact IH | reflexivity].
Qed.

Lemma take_while_all (p : char -> bool) (s : str) :
  Forall (fun c => p c = true) (take_while p s).
Proof.
  induction s as [|c s IH]; simpl; [constructor|].
  destruct (p c) eqn:E; constructor; assumption.
Qed.

Lemma drop_while_head (p : char -> bool) (s : str) :
  match drop_while p s with
  | [] => True
  | c :: _ => p c = false
  end.
Proof.
  induction s as [|c s IH]; simpl; [exact I|].
  destruct (p c) eqn:E; [exact IH | exact E].
Qed.

Lemma take_while_app (p : char -> bool) (a b : str) :
  Forall (fun c => p c = true) a ->
  take_while p (a ++ b) = a ++ take_while p b.
Proof.
  induction 1 as [|c a Hc _ IH]; simpl; [reflexivity|].
  rewrite Hc. f_equal. exact IH.
Qed.

Lemma drop_while_app (p : char -> bool) (a b : str) :
  Forall (fun c => p c = true) a ->
  drop_while p (a ++ b) = drop_while p b.
Proof.
  induction 1 as [|c a Hc _ IH]; simpl; [reflexivity|].
  rewrite Hc. exact IH.
Qed.

Lemma take_while_stop (p : char -> bool) (s : str) :
  match s with [] => True | c :: _ => p c = false end ->
  take_while p s = [].
Proof. destruct s as [|c s]; simpl; [reflexivity|]. intros ->. reflexivity. Qed.

Lemma Forall_repeat_hash (n : nat) :
  Forall (fun c => is_hash c = true) (repeat HASH n).
Proof. induction n; simpl; constructor; [reflexivity | assumption]. Qed.

Lemma is_space_not_hash (c : char) : is_space c = true -> is_hash c = false.
Proof.
  unfold is_hash. destruct (N.eqb_spec c HASH) as [->|]; [discriminate | reflexivity].
Qed.

Lemma is_dot_not_nl (c : char) : is_dot c = negb (is_nl c).
Proof. reflexivity. Qed.

(** ** The header pattern *)

Lemma header_at_start (prev : option char) (s : str) :
  header_start prev s = true <->
  exists m n, header_at prev s = Some (m, S n).
Proof.
  unfold header_start, header_at. rewrite drop_take_while.
  set (n := length (take_while is_hash s)).
  set (b := (1 <=? n) && (n <=? 6)).
  replace (at_line_start prev && (1 <=? n) && (n <=? 6)) with (at_line_start prev && b)
    by (unfold b; apply andb_assoc).
  destruct (at_line_start prev); cbn [andb];
    [|split; [discriminate | intros (? & ? & ?); discriminate]].
  destruct b eqn:Hn; cbn [andb];
    [|split; [discriminate | intros (? & ? & ?); discriminate]].
  destruct (drop_while is_hash s) as [|c s1];
    [split; [discriminate | intros (? & ? & ?); discriminate]|].
  destruct (is_space c); [|split; [discriminate | intros (? & ? & ?); discriminate]].
  split; [intros _|reflexivity].
  apply andb_true_iff in Hn as [H1 _]. apply Nat.leb_le in H1.
  destruct n as [|n']; [lia|].
  do 2 eexists. reflexivity.
Qed.

Lemma header_no_match (prev : option char) (s : str) :
  header_start prev s = false <-> no_match header_at prev s.
Proof.
  unfold no_match. split.
  - intros H m n E. assert (header_start prev s = true) by (apply header_at_start; eauto).
    congruence.
  - intros H. destruct (header_start prev s) eqn:E; [|reflexivity].
    apply header_at_start in E as (m & n & E). exfalso. exact (H m n E).
Qed.

Lemma header_at_inv (prev : option char) (s : str) (n : nat) (tail : str) (len : nat) :
  header_at prev s = Some ((n, tail), len) ->
  at_line_start prev = true /\
  exists ws ln rest,
    s = repeat HASH n ++ ws ++ ln ++ rest /\ tail = ws ++ ln /\
    len = n + length ws + length ln /\ header_shape n ws ln rest.
Proof.
  unfold header_at. rewrite drop_take_while.
  destruct (at_line_start prev); [|discriminate].
  pose proof (take_drop_while is_hash s) as Hsplit.
  assert (Hhs : take_while is_hash s = repeat HASH (length (take_while is_hash s))).
  { clear. induction s as [|x s IH]; simpl; [reflexivity|].
    unfold is_hash at 1 3. destruct (N.eqb_spec x HASH) as [->|]; simpl; [|reflexivity].
    f_equal. exact IH. }
  remember (take_while is_hash s) as hs eqn:Ehs.
  remember (drop_while is_hash s) as s1 eqn:Es1.
  remember (take_while is_space s1) as ws eqn:Ews.
  assert (Hdrop : drop (length hs + length ws) s = drop_while is_space s1).
  { rewrite <- Hsplit at 1. rewrite drop_app_add'; [|reflexivity].
    subst ws. apply drop_take_while. }
  rewrite Hdrop.
  pose proof (take_drop_while is_space s1) as Hsplit1. rewrite <- Ews in Hsplit1.
  pose proof (drop_while_head is_space s1) as Hhead.
  remember (drop_while is_space s1) as s2 eqn:Es2.
  pose proof (take_drop_while is_dot s2) as Hsplit2.
  pose proof (drop_while_head is_dot s2) as Hhead2.
  remember (take_while is_dot s2) as ln eqn:Eln.
  remember (drop_while is_dot s2) as rest eqn:Erest.
  destruct ((1 <=? length hs) && (length hs <=? 6)) eqn:Hn; [|discriminate].
  apply andb_true_iff in Hn as [H1 H6]. apply Nat.leb_le in H1, H6.
  destruct s1 as [|c s1']; [discriminate|].
  destruct (is_space c) eqn:Hc; [|discriminate].
  intros H. injection H as <- <- <-. split; [reflexivity|].
  exists ws, ln, rest. split; [|split; [reflexivity|split; [reflexivity|]]].
  - rewrite <- Hhs, Hsplit2, Hsplit1. exact (eq_sym Hsplit).
  - split.
    + lia.
    + subst ws. simpl. rewrite Hc. discriminate.
    + subst ws. apply take_while_all.
    + subst ln. apply take_while_all.
    + subst ln. destruct s2 as [|d s2']; simpl.
      * subst rest. reflexivity.
      * destruct (is_dot d) eqn:Hd; [exact Hhead|].
        exfalso. unfold is_dot in Hd. apply negb_false_iff in Hd. apply N.eqb_eq in Hd.
        subst d. discriminate.
    + destruct rest as [|d r]; [exact I|].
      unfold is_dot in Hhead2. apply negb_false_iff in Hhead2.
      apply N.eqb_eq in Hhead2. exact Hhead2.
Qed.

Lemma header_at_build (prev : option char) (n : nat) (ws ln rest : str) :
  at_line_start prev = true -> header_shape n ws ln rest ->
  header_at prev (repeat HASH n ++ ws ++ ln ++ rest)
    = Some ((n, ws ++ ln), n + length ws + length ln).
Proof.
  intros Hprev [Hn Hne Hws Hln Hhead Hrest].
  destruct ws as [|w ws']; [done|].
  assert (Hw : is_space w = true) by (inversion Hws; assumption).
  assert (Hstop : take_while is_space (ln ++ rest) = []).
  { apply take_while_stop. destruct ln as [|d ln']; simpl; [|exact Hhead].
    subst rest. exact I. }
  assert (Hstop2 : take_while is_dot rest = []).
  { apply take_while_stop. destruct rest as [|d r]; [exact I|]. subst d. reflexivity. }
  unfold header_at. rewrite Hprev.
  rewrite take_while_app by apply Forall_repeat_hash.
  rewrite (take_while_stop is_hash ((w :: ws') ++ ln ++ rest))
    by (simpl; apply is_space_not_hash; exact Hw).
  rewrite app_nil_r, repeat_length.
  destruct ((1 <=? n) && (n <=? 6)) eqn:E;
    [|apply andb_false_iff in E as [E|E]; apply Nat.leb_gt in E; lia].
  rewrite drop_app_length'; [|symmetry; apply repeat_length].
  simpl app at 1. cbv iota. rewrite Hw.
  change (w :: ws' ++ ln ++ rest) with ((w :: ws') ++ ln ++ rest).
  rewrite take_while_app by exact Hws.
  rewrite Hstop, app_nil_r.
  rewrite drop_app_add'; [|symmetry; apply repeat_length].
  rewrite drop_app_length.
  rewrite take_while_app by exact Hln.
  rewrite Hstop2, app_nil_r. reflexivity.
Qed.

Lemma scan_match_pos {M : Type} (match_at : option char -> str -> option (M * nat))
    (prev : option char) (s : str) (m : M) (len : nat) :
  match_at prev s = Some (m, len) -> 0 < len -> len <= length s ->
  scan match_at prev s = Match m :: scan match_at (last (take len s)) (drop len s).
Proof.
  intros Hm Hpos Hlen. destruct len as [|n]; [lia|].
  destruct s as [|c s']; [simpl in Hlen; lia|].
  apply scan_match. exact Hm.
Qed.

(** ** adjust_header_levels: the headers of the result *)

Lemma new_level_bounds (current_level : nat) (offset : Z) :
  (1 <= new_level current_level offset <= 6)%Z.
Proof. unfold new_level. lia. Qed.

Lemma new_level_nat_bounds (current_level : nat) (offset : Z) :
  1 <= Z.to_nat (new_level current_level offset) <= 6.
Proof. pose proof (new_level_bounds current_level offset). lia. Qed.

Lemma adjust_from_nil offset prev : adjust_from offset prev [] = [].
Proof. reflexivity. Qed.

Lemma adjust_from_lit offset prev c s' :
  header_start prev (c :: s') = false ->
  adjust_from offset prev (c :: s') = c :: adjust_from offset (Some c) s'.
Proof.
  intros H. apply header_no_match in H. unfold adjust_from.
  rewrite (scan_lit _ _ _ _ H). reflexivity.
Qed.

Lemma header_start_not_hash prev c s :
  is_hash c = false -> header_start prev (c :: s) = false.
Proof.
  intros Hc. unfold header_start. simpl. rewrite Hc. simpl.
  rewrite andb_false_r. reflexivity.
Qed.

Lemma header_start_inside prev s :
  at_line_start prev = false -> header_start prev s = false.
Proof. intros H. unfold header_start. rewrite H. reflexivity. Qed.

(** Inside a line the substitution copies the text up to the end of the
    run of [#] it stands in, and the character after the run. *)
Lemma adjust_from_inside offset prev s :
  at_line_start prev = false ->
  take_while is_hash (adjust_from offset prev s) = take_while is_hash s /\
  head (drop_while is_hash (adjust_from offset prev s)) = head (drop_while is_hash s).
Proof.
  unfold adjust_from.
  pattern prev, s, (scan header_at prev s). apply scan_ind; clear prev s.
  - intros prev _. split; reflexivity.
  - intros prev c s' [n tail] len Hm _ Hprev.
    apply header_at_inv in Hm as [Hstart _]. congruence.
  - intros prev c s' _ IH _. simpl.
    destruct (is_hash c) eqn:Hc; [|split; reflexivity].
    destruct IH as [IH1 IH2].
    { unfold is_hash in Hc. apply N.eqb_eq in Hc. subst c. reflexivity. }
    split; [f_equal; exact IH1 | exact IH2].
Qed.

Lemma header_start_head prev a b :
  take_while is_hash a = take_while is_hash b ->
  head (drop_while is_hash a) = head (drop_while is_hash b) ->
  header_start prev a = header_start prev b.
Proof.
  intros Ht Hd. unfold header_start. rewrite Ht. f_equal.
  destruct (drop_while is_hash a), (drop_while is_hash b); simpl in Hd; congruence.
Qed.

(** A position without a match stays without one in the result. *)
Lemma header_start_adjust offset prev c s' :
  header_start prev (c :: s') = false ->
  header_start prev (c :: adjust_from offset (Some c) s') = false.
Proof.
  intros H. rewrite <- H.
  destruct (is_hash c) eqn:Hc.
  - destruct (adjust_from_inside offset (Some c) s') as [H1 H2].
    { unfold is_hash in Hc. apply N.eqb_eq in Hc. subst c. reflexivity. }
    apply header_start_head; simpl; rewrite Hc; [f_equal; exact H1 | exact H2].
  - rewrite !header_start_not_hash by exact Hc. reflexivity.
Qed.

Lemma last_take_tail (n : nat) (tail rest : str) (c : char) :
  tail <> [] ->
  last (take (n + length tail) (repeat c n ++ tail ++ rest)) = last tail.
Proof.
  intros Hne.
  rewrite take_app_add'; [|symmetry; apply repeat_length].
  rewrite take_app_length. rewrite last_app.
  destruct (last tail) eqn:E; [reflexivity|].
  apply last_None in E. contradiction.
Qed.

Lemma drop_tail (n : nat) (tail rest : str) (c : char) :
  drop (n + length tail) (repeat c n ++ tail ++ rest) = rest.
Proof.
  rewrite drop_app_add'; [|symmetry; apply repeat_length].
  apply drop_app_length.
Qed.

(** After a match the substitution goes on at the end of the text or at
    a line feed, which it copies. *)
Lemma adjust_from_rest offset prev rest :
  match rest with [] => True | c :: _ => c = LF end ->
  match adjust_from offset prev rest with [] => rest = [] | c :: _ => c = LF end.
Proof.
  destruct rest as [|c r]; [reflexivity|]. intros ->.
  rewrite adjust_from_lit by (apply header_start_not_hash; reflexivity).
  reflexivity.
Qed.

(** Scanning the result finds the matches of the content again, each
    with its depth shifted and clamped and its second group unchanged. *)
Lemma scan_adjust_from offset prev s :
  scan header_at prev (adjust_from offset prev s)
    = List.map (shift_token offset) (scan header_at prev s).
Proof.
  unfold adjust_from.
  pattern prev, s, (scan header_at prev s). apply scan_ind; clear prev s.
  - reflexivity.
  - intros prev c s' [n tail] len Hm IH.
    apply header_at_inv in Hm as (Hstart & ws & ln & rest & Hs & -> & Hlen & Hshape).
    rewrite Hlen, Hs in IH |- *. clear Hlen len Hs c s'.
    assert (Hne : ws ++ ln <> []).
    { destruct Hshape as [_ Hw _ _ _ _]. destruct ws; [done | discriminate]. }
    rewrite <- !Nat.add_assoc, <- !length_app, (app_assoc ws ln rest) in IH |- *.
    rewrite last_take_tail in IH |- * by exact Hne.
    rewrite drop_tail in IH |- *.
    cbn [List.map concat render shift_token fst snd].
    change (concat (List.map (render (adjust_header offset))
                      (scan header_at (last (ws ++ ln)) rest)))
      with (adjust_from offset (last (ws ++ ln)) rest) in IH |- *.
    set (rest' := adjust_from offset (last (ws ++ ln)) rest) in *.
    unfold adjust_header. cbn [fst snd].
    set (n' := Z.to_nat (new_level n offset)).
    assert (Hshape' : header_shape n' ws ln rest').
    { destruct Hshape as [Hn Hw Hws Hln Hhead Hrest].
      pose proof (adjust_from_rest offset (last (ws ++ ln)) rest Hrest) as Hrest'.
      fold rest' in Hrest'.
      split; try assumption.
      - apply new_level_nat_bounds.
      - destruct ln; [|exact Hhead]. subst rest. reflexivity.
      - destruct rest'; [exact I | exact Hrest']. }
    pose proof (header_at_build prev n' ws ln rest' Hstart Hshape') as Hm'.
    rewrite <- !app_assoc.
    rewrite (scan_match_pos header_at prev _ _ _ Hm');
      [|destruct Hshape' as [[? ?] _ _ _ _ _]; lia
       |rewrite !length_app, repeat_length; lia].
    f_equal.
    rewrite <- !Nat.add_assoc, <- !length_app, (app_assoc ws ln rest').
    rewrite last_take_tail by exact Hne.
    rewrite drop_tail. exact IH.
  - intros prev c s' Hno IH. apply header_no_match in Hno.
    cbn [List.map concat render shift_token]. simpl app.
    fold (adjust_from offset (Some c) s') in IH |- *.
    rewrite (scan_lit header_at prev c (adjust_from offset (Some c) s')).
    + f_equal. exact IH.
    + apply header_no_match. apply header_start_adjust. exact Hno.
Qed.

(** ** adjust_header_levels: the lines of the result *)

Lemma split_lines_cons_nl (s : str) : split_lines (LF :: s) = [] :: split_lines s.
Proof. reflexivity. Qed.

Lemma split_lines_cons_other (c : char) (s : str) (l : str) (ls : list str) :
  is_nl c = false -> split_lines s = l :: ls ->
  split_lines (c :: s) = (c :: l) :: ls.
Proof. intros Hc Hs. simpl. rewrite Hc, Hs. reflexivity. Qed.

Lemma line_kept_refl (l : str) : line_kept l l.
Proof. intros _. reflexivity. Qed.

Lemma lines_rel_refl (strict : bool) (s : str) : lines_rel strict s s.
Proof.
  destruct (split_lines s) as [|l ls] eqn:E; [destruct (split_lines_nonempty s E)|].
  exists l, ls, l, ls. repeat split; try assumption.
  - destruct strict; [reflexivity | apply line_kept_refl].
  - apply Forall2_same_length_lookup_2; [reflexivity|].
    intros i x y Hx Hy. rewrite Hx in Hy. injection Hy as <-. apply line_kept_refl.
Qed.

Lemma lines_rel_weaken (strict : bool) (out s : str) :
  lines_rel true out s -> lines_rel strict out s.
Proof.
  intros (lo & ro & li & ri & Ho & Hs & Hfirst & Hrest).
  exists lo, ro, li, ri. repeat split; try assumption.
  destruct strict; [exact Hfirst|]. intros _. exact Hfirst.
Qed.

Lemma lines_rel_cons_other (c : char) (out s : str) :
  is_nl c = false -> lines_rel true out s -> lines_rel true (c :: out) (c :: s).
Proof.
  intros Hc (lo & ro & li & ri & Ho & Hs & Hfirst & Hrest).
  exists (c :: lo), ro, (c :: li), ri.
  rewrite (split_lines_cons_other _ _ _ _ Hc Ho), (split_lines_cons_other _ _ _ _ Hc Hs).
  repeat split; [|exact Hrest]. simpl in Hfirst. rewrite Hfirst. reflexivity.
Qed.

Lemma lines_rel_cons_nl (strict : bool) (out s : str) :
  lines_rel strict out s -> lines_rel true (LF :: out) (LF :: s).
Proof.
  intros (lo & ro & li & ri & Ho & Hs & Hfirst & Hrest).
  exists [], (lo :: ro), [], (li :: ri). rewrite !split_lines_cons_nl, Ho, Hs.
  repeat split. constructor; [|exact Hrest].
  destruct strict; [rewrite Hfirst; apply line_kept_refl | exact Hfirst].
Qed.

Lemma lines_rel_app (g out s : str) :
  lines_rel true out s -> lines_rel true (g ++ out) (g ++ s).
Proof.
  intros H. induction g as [|c g IH]; [exact H|]. simpl.
  destruct (is_nl c) eqn:Hc.
  - apply is_nl_LF in Hc. subst c. eapply lines_rel_cons_nl. exact IH.
  - apply lines_rel_cons_other; assumption.
Qed.

Lemma split_lines_repeat_hash (n : nat) (s : str) (l : str) (ls : list str) :
  split_lines s = l :: ls ->
  split_lines (repeat HASH n ++ s) = (repeat HASH n ++ l) :: ls.
Proof.
  intros Hs. induction n as [|n IH]; [exact Hs|]. simpl repeat. simpl app.
  apply split_lines_cons_other; [reflexivity | exact IH].
Qed.

Lemma lines_rel_hashes (n n' : nat) (out s : str) :
  1 <= n -> lines_rel true out s ->
  lines_rel false (repeat HASH n' ++ out) (repeat HASH n ++ s).
Proof.
  intros Hn (lo & ro & li & ri & Ho & Hs & Hfirst & Hrest).
  exists (repeat HASH n' ++ lo), ro, (repeat HASH n ++ li), ri.
  rewrite (split_lines_repeat_hash _ _ _ _ Ho), (split_lines_repeat_hash _ _ _ _ Hs).
  repeat split; [|exact Hrest].
  intros Hhead. destruct n as [|n]; [lia|]. simpl in Hhead. congruence.
Qed.

(** Two texts that both begin with a line feed have equal first lines. *)
Lemma lines_rel_at_nl (strict : bool) (out s : str) :
  match s with [] => out = [] | c :: _ => c = LF end ->
  match out with [] => s = [] | c :: _ => c = LF end ->
  lines_rel strict out s -> lines_rel true out s.
Proof.
  intros Hs Ho H. destruct s as [|c s]; [subst out; apply lines_rel_refl|].
  subst c. destruct out as [|d out]; [discriminate|]. subst d.
  destruct H as (lo & ro & li & ri & Eo & Es & Hfirst & Hrest).
  rewrite split_lines_cons_nl in Eo, Es. injection Eo as <- <-. injection Es as <- <-.
  exists [], (split_lines out), [], (split_lines s).
  rewrite !split_lines_cons_nl. repeat split. exact Hrest.
Qed.

Lemma adjust_from_lines offset prev s :
  lines_rel (negb (at_line_start prev)) (adjust_from offset prev s) s.
Proof.
  unfold adjust_from.
  pattern prev, s, (scan header_at prev s). apply scan_ind; clear prev s.
  - intros prev. apply lines_rel_refl.
  - intros prev c s' [n tail] len Hm IH.
    apply header_at_inv in Hm as (Hstart & ws & ln & rest & Hs & -> & Hlen & Hshape).
    rewrite Hstart. simpl negb.
    rewrite Hlen, Hs in IH |- *. clear Hlen len Hs c s'.
    assert (Hne : ws ++ ln <> []).
    { destruct Hshape as [_ Hw _ _ _ _]. destruct ws; [done | discriminate]. }
    rewrite <- !Nat.add_assoc, <- !length_app, (app_assoc ws ln rest) in IH |- *.
    rewrite last_take_tail in IH |- * by exact Hne.
    rewrite drop_tail in IH |- *.
    cbn [List.map concat render].
    change (concat (List.map (render (adjust_header offset))
                      (scan header_at (last (ws ++ ln)) rest)))
      with (adjust_from offset (last (ws ++ ln)) rest) in IH |- *.
    unfold adjust_header. cbn [fst snd]. rewrite <- app_assoc.
    destruct Hshape as [Hn _ _ _ _ Hrest].
    apply lines_rel_hashes; [lia|]. apply lines_rel_app.
    pose proof (adjust_from_rest offset (last (ws ++ ln)) rest Hrest) as Hrest'.
    eapply lines_rel_at_nl; [| |exact IH].
    + destruct rest as [|d r]; [reflexivity | exact Hrest].
    + exact Hrest'.
  - intros prev c s' _ IH. cbn [List.map concat render]. simpl app.
    apply lines_rel_weaken.
    destruct (is_nl c) eqn:Hc.
    + assert (c = LF) as -> by (apply is_nl_LF; exact Hc).
      eapply lines_rel_cons_nl. exact IH.
    + apply lines_rel_cons_other; [exact Hc|].
      simpl in IH. rewrite Hc in IH. exact IH.
Qed.

(** ** adjust_header_levels: depths and lines *)

Lemma matches_of_shift offset (ts : list (token (M:=nat * str))) :
  List.map fst (matches_of (List.map (shift_token offset) ts))
    = List.map (fun d => Z.to_nat (new_level d offset)) (List.map fst (matches_of ts)).
Proof.
  unfold matches_of. induction ts as [|[c|m] ts IH]; simpl; [reflexivity | exact IH|].
  f_equal. exact IH.
Qed.

Lemma scan_header_depths prev s :
  Forall (fun d => 1 <= d <= 6) (List.map fst (matches_of (scan header_at prev s))).
Proof.
  pattern prev, s, (scan header_at prev s). apply scan_ind; clear prev s.
  - intros prev. constructor.
  - intros prev c s' [n tail] len Hm IH.
    apply header_at_inv in Hm as (_ & ws & ln & rest & _ & _ & _ & [Hn _ _ _ _ _]).
    unfold matches_of in *. simpl. constructor; [exact Hn | exact IH].
  - intros prev c s' _ IH. exact IH.
Qed.

Lemma header_depths_bounds content :
  Forall (fun d => 1 <= d <= 6) (header_depths content).
Proof. apply scan_header_depths. Qed.

Lemma new_level_zero (d : nat) : 1 <= d <= 6 -> Z.to_nat (new_level d 0) = d.
Proof. unfold new_level. lia. Qed.

(** C1: for every content and every offset, (1) every header line of
    the result of [adjust_header_levels] has a depth from 1 to 6;
    (2) these depths are the depths of the header lines of the content,
    each one shifted by the offset and clamped to 1..6, the clamp
    holding for every depth and offset; (3) depth 1 with offset -3 stays
    1 and depth 6 with offset +5 stays 6; (4) the result has the lines
    of the content, and every line that does not begin with the header
    marker is the same in both. *)
Theorem adjust_header_levels_clamped (content : str) (offset : Z) :
  Forall (fun d => 1 <= d <= 6) (header_depths (adjust_header_levels content offset))
  /\ header_depths (adjust_header_levels content offset)
       = List.map (fun d => Z.to_nat (new_level d offset)) (header_depths content)
  /\ (forall d, 1 <= new_level d offset <= 6)%Z
  /\ new_level 1 (-3) = 1%Z /\ new_level 6 5 = 6%Z
  /\ Forall2 line_kept (split_lines (adjust_header_levels content offset))
       (split_lines content).
Proof.
  split; [apply header_depths_bounds|].
  split; [|split; [intros d; apply new_level_bounds|split; [reflexivity|split; [reflexivity|]]]].
  - unfold adjust_header_levels. destruct (Z.eqb_spec offset 0) as [->|Hoff].
    + pose proof (header_depths_bounds content) as H.
      induction H as [|d ds Hd _ IH]; simpl; [reflexivity|].
      rewrite (new_level_zero d Hd). f_equal. exact IH.
    + unfold header_depths. rewrite !re_finditer_scan, re_sub_scan.
      fold (adjust_from offset None content).
      rewrite scan_adjust_from. apply matches_of_shift.
  - unfold adjust_header_levels. destruct (Z.eqb_spec offset 0) as [->|Hoff].
    + destruct (lines_rel_refl false content) as (lo & ro & li & ri & Ho & Hs & H1 & H2).
      rewrite Ho in Hs. injection Hs as <- <-. rewrite Ho. constructor; assumption.
    + rewrite re_sub_scan. fold (adjust_from offset None content).
      destruct (adjust_from_lines offset None content)
        as (lo & ro & li & ri & Ho & Hs & H1 & H2).
      rewrite Ho, Hs. constructor; assumption.
Qed.

(** The bounds test of the repository: [# H1] and [###### H6], shifted
    by -1 and by +5; and the two boundary cases on a text. *)
Example adjust_header_levels_bounds_down :
  adjust_header_levels (join_lines [lit "# H1"; lit "###### H6"]) (-1)
  = join_lines [lit "# H1"; lit "##### H6"].
Proof. reflexivity. Qed.

Example adjust_header_levels_bounds_up :
  adjust_header_levels (join_lines [lit "# H1"; lit "###### H6"]) 5
  = join_lines [lit "###### H1"; lit "###### H6"].
Proof. reflexivity. Qed.

Example adjust_header_levels_depth1_minus3 :
  adjust_header_levels (join_lines [lit "# Title"; lit "text"]) (-3)
  = join_lines [lit "# Title"; lit "text"].
Proof. reflexivity. Qed.

Example adjust_header_levels_depth6_plus5 :
  adjust_header_levels (join_lines [lit "###### Deep"; lit "#tag"; lit "text"]) 5
  = join_lines [lit "###### Deep"; lit "#tag"; lit "text"].
Proof. reflexivity. Qed.

(** A [#] alone on its line is a header to the pattern, whose space
    characters reach over the line feed: the header on the next line is
    part of the same match and keeps its depth. *)
Example adjust_header_levels_bare_marker :
  adjust_header_levels (join_lines [lit "#"; lit "# Next"]) 1
  = join_lines [lit "##"; lit "# Next"].
Proof. reflexivity. Qed.

(** ** merge *)

Section MergeFacts.
Variable lib : Library.
Variable fs : FileSystem.
Variable config : MergeConfig.
Variable cancelled_at : Z -> bool.

Abbreviation outs := (outcomes lib fs config).
Abbreviation step := (process_file lib fs config).
Abbreviation loop := (merge_loop lib fs config cancelled_at).
Abbreviation run := (merge lib fs config cancelled_at).

Abbreviation never_cancelled := (never_cancelled cancelled_at).

Lemma process_file_ok total index f st doc :
  read_and_process lib fs config total index f = Ok doc ->
  step total index f st
    = mkLoopState (processed_docs st ++ [doc]) (loop_errors st)
        (bytes_processed st + fi_size f).
Proof. intros H. unfold process_file. rewrite H. reflexivity. Qed.

(** A failure is recorded and nothing else changes. *)
Lemma process_file_raise total index f st e :
  read_and_process lib fs config total index f = Raise e ->
  step total index f st
    = mkLoopState (processed_docs st) (loop_errors st ++ [error_msg f e])
        (bytes_processed st).
Proof. intros H. unfold process_file. rewrite H. reflexivity. Qed.

(** Without cancellation the loop goes through every file: the
    documents of the files that were processed are appended in order,
    and so are the messages of those that failed. *)
Lemma merge_loop_completes total warnings files index st :
  never_cancelled index (length files) ->
  exists st',
    loop total warnings index files st = inl st' /\
    processed_docs st' = processed_docs st ++ merged_docs (outs total index files) /\
    loop_errors st' = loop_errors st ++ recorded_errors (outs total index files).
Proof.
  revert index st. induction files as [|f files IH]; intros index st Hnc.
  - exists st. simpl. rewrite !app_nil_r. auto.
  - simpl merge_loop. rewrite (Hnc index) by (simpl length; lia).
    destruct (IH (index + 1)%Z (step total index f st)) as (st' & Hrun & Hdocs & Herrs).
    { intros i Hi. apply Hnc. simpl length. lia. }
    exists st'. split; [exact Hrun|].
    rewrite Hdocs, Herrs. unfold process_file.
    simpl. destruct (read_and_process lib fs config total index f) as [doc|e]; simpl;
      rewrite <- ?app_assoc; auto.
Qed.

(** The first checkpoint that sees the flag ends the run: the result
    counts the files before it, processed or failed. *)
Lemma merge_loop_cancelled total warnings before f after index st :
  never_cancelled index (length before) ->
  cancelled_at (index + Z.of_nat (length before)) = true ->
  exists r,
    loop total warnings index (before ++ f :: after) st = inr r /\
    success r = false /\
    errors r = [lit "Merge cancelled by user"] /\
    files_merged r
      = (index - 1
         + Z.of_nat (length (merged_docs (outs total index before)))
         + Z.of_nat (length (recorded_errors (outs total index before))))%Z.
Proof.
  revert index st. induction before as [|b before IH]; intros index st Hnc Hc.
  - simpl in *. rewrite Z.add_0_r in Hc. rewrite Hc.
    eexists. repeat split. simpl. lia.
  - simpl app. simpl merge_loop.
    rewrite (Hnc index) by (simpl length; lia).
    destruct (IH (index + 1)%Z (step total index b st)) as (r & Hrun & Hs & He & Hm).
    { intros i Hi. apply Hnc. simpl length. lia. }
    { rewrite <- Hc. f_equal. simpl length. lia. }
    exists r. repeat split; try assumption.
    rewrite Hm. simpl.
    destruct (read_and_process lib fs config total index b); simpl; lia.
Qed.

Lemma outcomes_split total index files :
  length (merged_docs (outs total index files))
    + length (recorded_errors (outs total index files)) = length files.
Proof.
  revert index. induction files as [|f files IH]; intros index; [reflexivity|].
  simpl.
  destruct (read_and_process lib fs config total index f); simpl;
    specialize (IH (index + 1)%Z); lia.
Qed.

Lemma merge_loop_returned total warnings files index st r :
  loop total warnings index files st = inr r ->
  success r = false /\ errors r = [lit "Merge cancelled by user"]
  /\ output_path r = None.
Proof.
  revert index st. induction files as [|f files IH]; intros index st; simpl;
    [discriminate|].
  destruct (cancelled_at index).
  - intros [= <-]. simpl. auto.
  - apply IH.
Qed.

(** In every result, the success flag is off exactly when the error
    list is not empty. *)
Lemma merge_success_iff files output_path dry_run :
  success (result (run files output_path dry_run)) = false
  <-> errors (result (run files output_path dry_run)) <> [].
Proof.
  unfold merge.
  destruct (merge_loop _ _ _ _ _ _ _ _ _) as [st|r] eqn:Hloop.
  - destruct (if dry_run then _ else _) as [text|e]; simpl.
    + destruct (loop_errors st); simpl; split; congruence.
    + split; congruence.
  - simpl. apply merge_loop_returned in Hloop as (-> & -> & _). split; congruence.
Qed.
End MergeFacts.

(** C8, as amended: in a run that no cancellation cuts short and whose
    write phase does not fail, a failure while processing a file is
    recorded and the run goes on: every file is either processed or recorded as failed,
    the error list holds the messages of the failed files in order, the
    output is written from the documents of the processed files only,
    [files_merged] is the number of these documents, and the success
    flag is off exactly when the error list is not empty. *)
Theorem merge_best_effort (lib : Library) (fs : FileSystem) (config : MergeConfig)
    (cancelled_at : Z -> bool) (files : list FileInfo) (output_path : path)
    (dry_run : bool) (text : str) :
  let os := outcomes lib fs config (Z.of_nat (length files)) 1 files in
  let o := merge lib fs config cancelled_at files output_path dry_run in
  never_cancelled cancelled_at 1 (length files) ->
  dry_run = true \/
    write_output lib fs config output_path (merged_docs os) = Ok text ->
  errors (result o) = recorded_errors os /\
  files_merged (result o) = Z.of_nat (length (merged_docs os)) /\
  length (merged_docs os) + length (recorded_errors os) = length files /\
  (success (result o) = false <-> errors (result o) <> []) /\
  written o = (if dry_run then None else Some text).
Proof.
  intros os o Hnc Hwrite.
  split; [|split; [|split; [apply outcomes_split|split; [apply merge_success_iff|]]]];
    subst o; unfold merge;
    destruct (merge_loop_completes lib fs config cancelled_at (Z.of_nat (length files))
                (backup_warnings fs config output_path dry_run) files 1
                (mkLoopState [] [] 0) Hnc) as (st & -> & Hdocs & Herrs);
    simpl in Hdocs, Herrs; fold os in Hdocs, Herrs; rewrite Hdocs;
    (destruct Hwrite as [->|Hw]; [|rewrite Hw; destruct dry_run]); simpl;
    congruence.
Qed.

(** One file of three cannot be read: the two others are merged and
    written, one error is recorded. *)
Lemma merge_best_effort_witness :
  let os := outcomes example_library example_fs default_config 3 1 example_run_files in
  let o := merge example_library example_fs default_config (fun _ => false)
             example_run_files [lit "out"; lit "merged.md"] false in
  errors (result o) = recorded_errors os /\
  files_merged (result o) = Z.of_nat (length (merged_docs os)) /\
  length (merged_docs os) + length (recorded_errors os) = 3 /\
  (success (result o) = false <-> errors (result o) <> []) /\
  written o = Some example_output.
Proof.
  apply (merge_best_effort example_library example_fs default_config (fun _ => false)
           example_run_files [lit "out"; lit "merged.md"] false example_output).
  - intros i _. reflexivity.
  - right. vm_compute. reflexivity.
Defined.

Example merge_best_effort_run :
  let o := merge example_library example_fs default_config (fun _ => false)
             example_run_files [lit "out"; lit "merged.md"] false in
  errors (result o) = [lit "Error processing bad.md: Permission denied"] /\
  files_merged (result o) = 2%Z /\ success (result o) = false /\
  contains (lit "## a") example_output = true /\
  contains (lit "## b") example_output = true /\
  contains (lit "## bad") example_output = false.
Proof. vm_compute. repeat split. Qed.

(** C8, outside the runs of the amended claim: one file of three cannot
    be read.  When the write phase then fails, the result holds the one
    error of the write phase, not the message of the file that failed,
    and [files_merged = 0] although two documents were processed.  When
    the cancellation flag is seen at the checkpoint of the third file,
    the result holds the one error of the cancellation, the third file
    is not processed, and [files_merged = 2] although one document was
    processed. *)
Lemma merge_best_effort_not_every_run :
  let os := outcomes example_library example_fs default_config 3 1 example_run_files in
  let failed := merge example_library example_fs default_config (fun _ => false)
                  example_run_files [lit "out"; lit "locked.md"] false in
  let cancelled := merge example_library example_fs default_config
                     (fun i => Z.eqb i 3) example_run_files
                     [lit "out"; lit "merged.md"] false in
  recorded_errors os = [lit "Error processing bad.md: Permission denied"] /\
  length (merged_docs os) = 2%nat /\
  errors (result failed) = [lit "Merge failed: Permission denied"] /\
  files_merged (result failed) = 0%Z /\
  written failed = None /\
  errors (result cancelled) = [lit "Merge cancelled by user"] /\
  files_merged (result cancelled) = 2%Z /\
  length (merged_docs (outcomes example_library example_fs default_config 3 1
                         (take 2 example_run_files))) = 1%nat /\
  written cancelled = None.
Proof. vm_compute. repeat split. Qed.

(** C9: when the write phase of a run raises, the result has the
    success flag off, one error, made from the exception, and
    [files_merged = 0]; no output path is reported. *)
Theorem merge_write_failure_fatal (lib : Library) (fs : FileSystem)
    (config : MergeConfig) (cancelled_at : Z -> bool) (files : list FileInfo)
    (out : path) (e : exn) :
  let os := outcomes lib fs config (Z.of_nat (length files)) 1 files in
  let o := merge lib fs config cancelled_at files out false in
  never_cancelled cancelled_at 1 (length files) ->
  write_output lib fs config out (merged_docs os) = Raise e ->
  success (result o) = false /\
  errors (result o) = [lit "Merge failed: " ++ exn_msg e] /\
  files_merged (result o) = 0%Z /\
  output_path (result o) = None /\
  written o = None.
Proof.
  intros os o Hnc Hw. subst o. unfold merge.
  destruct (merge_loop_completes lib fs config cancelled_at (Z.of_nat (length files))
              (backup_warnings fs config out false) files 1
              (mkLoopState [] [] 0) Hnc) as (st & -> & Hdocs & _).
  simpl in Hdocs. fold os in Hdocs. rewrite Hdocs, Hw. simpl. auto.
Qed.

(** The output cannot be opened. *)
Lemma merge_write_failure_fatal_witness :
  let files := [example_file "a.md"; example_file "b.md"] in
  let o := merge example_library example_fs default_config (fun _ => false) files
             [lit "out"; lit "locked.md"] false in
  success (result o) = false /\
  errors (result o) = [lit "Merge failed: Permission denied"] /\
  files_merged (result o) = 0%Z /\
  output_path (result o) = None /\
  written o = None.
Proof.
  apply (merge_write_failure_fatal example_library example_fs default_config
           (fun _ => false) [example_file "a.md"; example_file "b.md"]
           [lit "out"; lit "locked.md"]
           (Exn PermissionError (lit "Permission denied"))).
  - intros i _. reflexivity.
  - reflexivity.
Defined.

(** ** merge on an empty file list *)

Lemma toc_generate_empty lib config :
  toc_generate lib config []
    = if cfg_generate_toc config
      then join_lines [lit "# Table of Contents"; []; []; lit "---"; []]
      else [].
Proof. unfold toc_generate. destruct (cfg_generate_toc config); reflexivity. Qed.

(** C4, as amended: merging an empty file list, when the write phase
    does not fail, succeeds with [files_merged = 0] and no error; the
    text written is the table-of-contents block alone when the table of
    contents is enabled with position [top], two line feeds followed by
    that block when it is enabled with position [bottom], and empty
    otherwise; so it holds the table-of-contents heading exactly when
    the table of contents is enabled with position [top] or [bottom]; a
    dry run writes nothing. *)
Theorem merge_empty_list (lib : Library) (fs : FileSystem) (config : MergeConfig)
    (cancelled_at : Z -> bool) (out : path) (dry_run : bool) :
  let o := merge lib fs config cancelled_at [] out dry_run in
  dry_run = true \/
    (open_error fs out = None /\ forall text, write_error fs out text = None) ->
  success (result o) = true /\
  files_merged (result o) = 0%Z /\
  errors (result o) = [] /\
  if dry_run then written o = None
  else
    let toc_block := join_lines [lit "# Table of Contents"; []; []; lit "---"; []] in
    let text :=
      if cfg_generate_toc config && str_eqb (cfg_toc_position config) (lit "top")
      then toc_block
      else if cfg_generate_toc config && str_eqb (cfg_toc_position config) (lit "bottom")
      then [LF; LF] ++ toc_block
      else [] in
    written o = Some text /\
    contains (lit "# Table of Contents") text
      = cfg_generate_toc config
        && (str_eqb (cfg_toc_position config) (lit "top")
            || str_eqb (cfg_toc_position config) (lit "bottom")).
Proof.
  intros o Hw. subst o. unfold merge. simpl merge_loop. cbv iota.
  destruct dry_run; [simpl; auto|].
  destruct Hw as [Hw|[Hopen Hwrite]]; [discriminate|].
  unfold write_output, f_write. rewrite Hopen, toc_generate_empty.
  cbn [write_documents]. rewrite !Hwrite.
  destruct (cfg_generate_toc config); cbn [andb orb res_bind];
    [|rewrite ?Hwrite; cbn; auto].
  destruct (str_eqb (cfg_toc_position config) (lit "top")) eqn:Etop.
  - apply str_eqb_eq in Etop. rewrite Etop.
    change (str_eqb (lit "top") (lit "bottom")) with false.
    rewrite ?Hwrite. cbn. auto.
  - destruct (str_eqb (cfg_toc_position config) (lit "bottom"));
      rewrite ?Hwrite; cbn; rewrite ?Hwrite; cbn; auto.
Qed.

Lemma merge_empty_list_witness :
  let o := merge example_library example_fs default_config (fun _ => false) []
             [lit "out"; lit "merged.md"] false in
  success (result o) = true /\
  files_merged (result o) = 0%Z /\
  errors (result o) = [] /\
  written o = Some (join_lines [lit "# Table of Contents"; []; []; lit "---"; []]) /\
  contains (lit "# Table of Contents")
    (join_lines [lit "# Table of Contents"; []; []; lit "---"; []]) = true.
Proof.
  apply (merge_empty_list example_library example_fs default_config (fun _ => false)
           [lit "out"; lit "merged.md"] false).
  right. split; reflexivity.
Defined.

(** With the default configuration the output of an empty merge is the
    table of contents alone, heading included. *)
Lemma merge_empty_list_writes_toc_heading :
  let o := merge example_library example_fs default_config (fun _ => false) []
             [lit "out"; lit "merged.md"] false in
  success (result o) = true /\
  files_merged (result o) = 0%Z /\
  written o = Some (join_lines [lit "# Table of Contents"; []; []; lit "---"; []]) /\
  contains (lit "# Table of Contents")
    (join_lines [lit "# Table of Contents"; []; []; lit "---"; []]) = true.
Proof. vm_compute. repeat split. Qed.

(** ** merge under cancellation *)

(** What a cancelled run returns, whatever happened to the files before
    the checkpoint: the count is the number of these files, processed
    or failed. *)
Lemma merge_cancelled (lib : Library) (fs : FileSystem) (config : MergeConfig)
    (cancelled_at : Z -> bool) (before : list FileInfo) (f : FileInfo)
    (after : list FileInfo) (out : path) (dry_run : bool) :
  let files := before ++ f :: after in
  let os := outcomes lib fs config (Z.of_nat (length files)) 1 before in
  let o := merge lib fs config cancelled_at files out dry_run in
  never_cancelled cancelled_at 1 (length before) ->
  cancelled_at (1 + Z.of_nat (length before))%Z = true ->
  success (result o) = false /\
  errors (result o) = [lit "Merge cancelled by user"] /\
  output_path (result o) = None /\
  written o = None /\
  files_merged (result o)
    = (Z.of_nat (length (merged_docs os)) + Z.of_nat (length (recorded_errors os)))%Z.
Proof.
  intros files os o Hnc Hc. subst o. unfold merge.
  destruct (merge_loop_cancelled lib fs config cancelled_at (Z.of_nat (length files))
              (backup_warnings fs config out dry_run) before f after 1
              (mkLoopState [] [] 0) Hnc Hc) as (r & Hrun & Hs & He & Hm).
  subst files. rewrite Hrun. simpl.
  apply merge_loop_returned in Hrun as (_ & _ & Hp).
  rewrite Hm. subst os. repeat split; try assumption; lia.
Qed.

(** C2, on the code: the first file of two cannot be read and the flag
    is seen at the checkpoint of the second.  The result reports one
    merged file although no document was merged. *)
Theorem merge_cancel_counts_failed_file :
  let files := [example_file "bad.md"; example_file "b.md"] in
  let cancelled_at := fun i => (2 <=? i)%Z in
  let o := merge example_library example_fs default_config cancelled_at files
             [lit "out"; lit "merged.md"] false in
  success (result o) = false /\
  files_merged (result o) = 1%Z /\
  merged_docs (outcomes example_library example_fs default_config 2 1
                 [example_file "bad.md"]) = [] /\
  written o = None.
Proof. vm_compute. repeat split. Qed.

(** ** discover_files *)

(** Induction on an entry, with the property at hand for every entry of
    a listing. *)
Lemma entry_ind (P : entry -> Prop) :
  (forall size mtime data, P (EFile size mtime data)) ->
  P EOther ->
  P (EDir None) ->
  (forall children, Forall (fun ne => P (snd ne)) children -> P (EDir (Some children))) ->
  (forall msg, P (EDenied msg)) ->
  forall e, P e.
Proof.
  intros HF HO HN HD HP.
  fix F 1. intros [size mtime data|[children|]| |msg].
  - apply HF.
  - apply HD. induction children as [|[name c] children IH]; constructor.
    + apply F.
    + exact IH.
  - apply HN.
  - apply HO.
  - apply HP.
Qed.

Lemma reached_prefix (children : list (str * entry)) :
  reached children `prefix_of` children.
Proof.
  induction children as [|[name c] children IH]; [reflexivity|].
  destruct c; simpl; try (apply prefix_cons, IH). apply prefix_nil.
Qed.

Lemma reached_sublist (children : list (str * entry)) :
  reached children `sublist_of` children.
Proof.
  induction children as [|[name c] children IH]; [constructor|].
  destruct c; simpl; try (apply sublist_skip, IH). apply sublist_nil_l.
Qed.

Lemma reached_Forall (P : str * entry -> Prop) (children : list (str * entry)) :
  Forall P children -> Forall P (reached children).
Proof.
  induction 1 as [|[name c] children Hc _ IH]; [constructor|].
  destruct c; simpl; constructor; assumption.
Qed.

Lemma reached_names (children : list (str * entry)) :
  NoDup (List.map fst children) -> NoDup (List.map fst (reached children)).
Proof.
  intros H. eapply sublist_NoDup; [exact H|].
  apply fmap_sublist, reached_sublist.
Qed.

Section DiscoverFacts.
Variable lib : Library.
Variable config : MergeConfig.

Lemma scan_directory_listing directory children current_depth :
  scan_directory lib config directory (EDir (Some children)) current_depth
    = if (0 <=? cfg_max_depth config)%Z && (cfg_max_depth config <? current_depth)%Z
      then []
      else flat_map (scan_child lib config directory current_depth) (reached children).
Proof.
  simpl. destruct (_ && _); [reflexivity|].
  induction children as [|[name c] children IH]; [reflexivity|].
  destruct c; cbn [reached flat_map]; rewrite <- ?IH; reflexivity.
Qed.

(** Every file found in a directory lies under it. *)
Lemma scan_directory_under e :
  forall directory current_depth f,
    f ∈ scan_directory lib config directory e current_depth ->
    exists name rest, fi_path f = directory ++ name :: rest.
Proof.
  induction e as [size mtime data| | |children IH|msg] using entry_ind;
    intros directory current_depth f Hf; try (simpl in Hf; by apply elem_of_nil in Hf).
  - simpl in Hf. destruct (_ && _) in Hf; by apply elem_of_nil in Hf.
  - rewrite scan_directory_listing in Hf.
    destruct (_ && _) in Hf; [by apply elem_of_nil in Hf|].
    apply list_elem_of_In, in_flat_map in Hf as ([name c] & Hin & Hf).
    apply list_elem_of_In in Hin, Hf.
    pose proof (elem_of_sublist _ _ _ Hin (reached_sublist children)) as Hin'.
    rewrite Forall_forall in IH. specialize (IH _ Hin'). simpl in IH.
    unfold scan_child in Hf. simpl in Hf. destruct c as [size mtime data|listing| |msg].
    + destruct (matches_filters _ _ _) in Hf; [|by apply elem_of_nil in Hf].
      apply list_elem_of_singleton in Hf. subst f. exists name, []. reflexivity.
    + destruct (_ && _) in Hf; [|by apply elem_of_nil in Hf].
      apply IH in Hf as (name' & rest & ->).
      exists name, (name' :: rest). rewrite <- app_assoc. reflexivity.
    + by apply elem_of_nil in Hf.
    + by apply elem_of_nil in Hf.
Qed.

Lemma scan_child_under directory current_depth name c f :
  f ∈ scan_child lib config directory current_depth (name, c) ->
  exists rest, fi_path f = directory ++ name :: rest.
Proof.
  unfold scan_child. simpl. intros Hf. destruct c as [size mtime data|listing| |msg].
  - destruct (matches_filters _ _ _) in Hf; [|by apply elem_of_nil in Hf].
    apply list_elem_of_singleton in Hf. subst f. exists []. reflexivity.
  - destruct (_ && _) in Hf; [|by apply elem_of_nil in Hf].
    apply scan_directory_under in Hf as (name' & rest & ->).
    exists (name' :: rest). rewrite <- app_assoc. reflexivity.
  - by apply elem_of_nil in Hf.
  - by apply elem_of_nil in Hf.
Qed.

(** Over a tree with distinct sibling names a scan meets no path
    twice. *)
Lemma scan_directory_NoDup e :
  wf_entry e ->
  forall directory current_depth,
    NoDup (List.map fi_path (scan_directory lib config directory e current_depth)).
Proof.
  induction e as [size mtime data| | |children IH|msg] using entry_ind;
    intros Hwf directory current_depth; try (simpl; constructor).
  - simpl. destruct (_ && _); constructor.
  - rewrite scan_directory_listing. destruct (_ && _); [constructor|].
    inversion Hwf as [| | | |? Hnames Hwfs]; subst. clear Hwf.
    assert (Hnames' : NoDup (List.map fst (reached children)))
      by (apply reached_names, Hnames).
    assert (Hwfs' : Forall (fun ne => wf_entry (snd ne)) (reached children))
      by (apply reached_Forall, Hwfs).
    assert (IH' : Forall (fun ne => wf_entry (snd ne) ->
                            forall directory current_depth,
                              NoDup (List.map fi_path
                                       (scan_directory lib config directory (snd ne)
                                          current_depth)))
                    (reached children))
      by (apply reached_Forall, IH).
    clear IH Hnames Hwfs. revert IH' Hnames' Hwfs'.
    generalize (reached children). clear children. intros children IH Hnames Hwfs.
    induction children as [|[name c] children IHc]; [constructor|].
    simpl flat_map. rewrite map_app.
    inversion IH as [|? ? IHhead IHtail]; subst.
    inversion Hwfs as [|? ? Hwfc Hwftail]; subst.
    simpl in Hnames. apply NoDup_cons in Hnames as [Hname Hnames].
    apply NoDup_app. split; [|split].
    + unfold scan_child. simpl. destruct c as [size mtime data|listing| |msg].
      * destruct (matches_filters _ _ _); simpl; [apply NoDup_singleton | constructor].
      * destruct (_ && _); [apply IHhead; exact Hwfc | constructor].
      * constructor.
      * constructor.
    + intros p Hp Hp'.
      apply list_elem_of_fmap in Hp as (f & -> & Hf).
      apply list_elem_of_fmap in Hp' as (f' & Heq & Hf').
      apply scan_child_under in Hf as (rest & Hpath).
      apply list_elem_of_In, in_flat_map in Hf' as ([name' c'] & Hin' & Hf').
      apply list_elem_of_In in Hin', Hf'.
      apply scan_child_under in Hf' as (rest' & Hpath').
      rewrite Hpath, Hpath' in Heq. apply app_inv_head in Heq.
      injection Heq as -> _. apply Hname.
      apply list_elem_of_fmap. exists (name', c'). split; [reflexivity | exact Hin'].
    + apply IHc; assumption.
Qed.

Lemma discover_one_under p e f :
  f ∈ discover_one lib config (p, e) -> p `prefix_of` fi_path f.
Proof.
  unfold discover_one. simpl. intros Hf. destruct e as [size mtime data|listing| |msg].
  - destruct (matches_filters _ _ _) in Hf; [|by apply elem_of_nil in Hf].
    apply list_elem_of_singleton in Hf. subst f. simpl. reflexivity.
  - apply scan_directory_under in Hf as (name & rest & ->). apply prefix_app_r. reflexivity.
  - by apply elem_of_nil in Hf.
  - by apply elem_of_nil in Hf.
Qed.

Lemma discover_one_NoDup p e :
  wf_entry e -> NoDup (List.map fi_path (discover_one lib config (p, e))).
Proof.
  intros Hwf. unfold discover_one. simpl. destruct e as [size mtime data|listing| |msg].
  - destruct (matches_filters _ _ _); simpl; [apply NoDup_singleton | constructor].
  - apply scan_directory_NoDup. exact Hwf.
  - constructor.
  - constructor.
Qed.

(** Input paths that do not overlap contribute distinct paths. *)
Lemma discover_NoDup (paths : list (path * entry)) :
  Forall (fun pe => wf_entry (snd pe)) paths ->
  roots_apart (List.map fst paths) ->
  NoDup (List.map fi_path (flat_map (discover_one lib config) paths)).
Proof.
  induction paths as [|[p e] paths IH]; intros Hwf Hapart; [constructor|].
  simpl flat_map. rewrite map_app.
  inversion Hwf as [|? ? Hwfe Hwfs]; subst. simpl in Hwfe.
  simpl in Hapart. destruct Hapart as [Hp Hapart].
  apply NoDup_app. split; [|split].
  - apply discover_one_NoDup. exact Hwfe.
  - intros x Hx Hx'.
    apply list_elem_of_fmap in Hx as (f & -> & Hf).
    apply list_elem_of_fmap in Hx' as (f' & Heq & Hf').
    apply discover_one_under in Hf.
    apply list_elem_of_In, in_flat_map in Hf' as ([q e'] & Hin & Hf').
    apply list_elem_of_In in Hin, Hf'.
    apply discover_one_under in Hf'. rewrite <- Heq in Hf'.
    rewrite Forall_forall in Hp.
    destruct (Hp q) as [Hpq Hqp].
    { apply list_elem_of_fmap. exists (q, e'). split; [reflexivity | exact Hin]. }
    destruct (prefix_weak_total _ _ _ Hf Hf'); contradiction.
  - apply IH; assumption.
Qed.

(** A run of [discover_files] that returns met no input path on which
    [is_file()] raises, and returns what the sort makes of the files
    found. *)
Lemma discover_files_sorted (paths : list (path * entry)) (files : list FileInfo) :
  discover_files lib config paths = Ok files ->
  sort_files lib config (flat_map (discover_one lib config) paths) = Ok files.
Proof.
  unfold discover_files. destruct (first_denied paths); [discriminate | auto].
Qed.
End DiscoverFacts.

(** ** Sorting keeps the files *)

Section SortFacts.
Variable lib : Library.
Variable config : MergeConfig.

Lemma insert_by_perm {K} (leb : K -> K -> bool) (x : K * FileInfo) l :
  insert_by leb x l ≡ₚ x :: l.
Proof.
  induction l as [|y l IH]; simpl; [reflexivity|].
  destruct (leb (fst x) (fst y)); [reflexivity|].
  rewrite IH. apply Permutation_swap.
Qed.

Lemma sort_by_perm {K} (leb : K -> K -> bool) (reverse : bool) keyed :
  sort_by leb reverse keyed ≡ₚ List.map snd keyed.
Proof.
  unfold sort_by. apply Permutation_map.
  induction keyed as [|x keyed IH]; simpl; [reflexivity|].
  rewrite insert_by_perm. constructor. exact IH.
Qed.

Lemma with_keys_files {K} (key : FileInfo -> res K) files keyed :
  with_keys key files = Ok keyed -> List.map snd keyed = files.
Proof.
  revert keyed. induction files as [|f files IH]; intros keyed; simpl.
  - intros [= <-]. reflexivity.
  - destruct (key f) as [k|e]; simpl; [|discriminate].
    destruct (with_keys key files) as [rest|e]; simpl; [|discriminate].
    intros [= <-]. simpl. f_equal. apply IH. reflexivity.
Qed.

Lemma with_keys_total {K} (key : FileInfo -> K) files :
  exists keyed, with_keys (fun f => Ok (key f)) files = Ok keyed.
Proof.
  induction files as [|f files [keyed IH]]; simpl; [eauto|].
  rewrite IH. simpl. eauto.
Qed.

(** What [_sort_files] returns is a reordering of what it is given. *)
Lemma sort_files_perm files sorted :
  sort_files lib config files = Ok sorted -> sorted ≡ₚ files.
Proof.
  unfold sort_files.
  repeat (match goal with
          | |- context [if ?b then _ else _] => destruct b
          end);
    try (intros [= <-]; reflexivity);
    match goal with
    | |- context [with_keys ?k files] =>
        destruct (with_keys k files) as [keyed|e] eqn:E; simpl; [|discriminate];
        intros [= <-]; apply with_keys_files in E;
        rewrite sort_by_perm; unfold datetime in *; rewrite E; reflexivity
    end.
Qed.

(** Only the natural order can fail, on a key. *)
Lemma sort_files_returns files :
  cfg_sort_order config <> lit "natural" ->
  exists sorted, sort_files lib config files = Ok sorted.
Proof.
  intros Hnat. apply str_eqb_neq in Hnat. unfold sort_files. rewrite Hnat.
  repeat (match goal with
          | |- context [if ?b then _ else _] => destruct b
          end); eauto;
    match goal with
    | |- context [with_keys (fun f => Ok (@?k f)) files] =>
        destruct (with_keys_total k files) as [keyed ->]; simpl; eauto
    end.
Qed.
End SortFacts.

Lemma detect_duplicates_pair lib fs config f1 f2 data :
  cfg_detect_duplicates config = true ->
  read_bytes fs (fi_path f1) = Ok data ->
  read_bytes fs (fi_path f2) = Ok data ->
  detect_duplicates lib config fs [f1; f2]
    = Ok {[ file_digest lib data :=
              [with_hash f1 (file_digest lib data); with_hash f2 (file_digest lib data)] ]}.
Proof.
  intros Hon H1 H2. unfold detect_duplicates. rewrite Hon. simpl.
  rewrite (calculate_file_hash_readable _ _ _ _ H1). simpl.
  rewrite (calculate_file_hash_readable _ _ _ _ H2). simpl.
  rewrite lookup_empty. simpl.
  rewrite lookup_insert_eq. simpl.
  rewrite insert_insert_eq. rewrite insert_empty.
  f_equal. apply map_filter_singleton_True. simpl. lia.
Qed.

(** C3, as amended: [discover_files] removes nothing, its result is a
    reordering of what the input paths contribute; so over a tree with
    distinct sibling names and input paths that do not overlap, the
    list it returns holds each path at most once.  Nor does
    [detect_duplicates] remove a repeated path before it groups by
    content hash: a record given twice forms a group with itself. *)
Theorem discover_files_unique_paths (lib : Library) (config : MergeConfig)
    (paths : list (path * entry)) (files : list FileInfo) :
  discover_files lib config paths = Ok files ->
  Forall (fun pe => wf_entry (snd pe)) paths ->
  roots_apart (List.map fst paths) ->
  files ≡ₚ flat_map (discover_one lib config) paths /\
  NoDup (List.map fi_path files) /\
  forall fs f data,
    cfg_detect_duplicates config = true ->
    read_bytes fs (fi_path f) = Ok data ->
    detect_duplicates lib config fs [f; f]
      = Ok {[ file_digest lib data :=
                [with_hash f (file_digest lib data); with_hash f (file_digest lib data)] ]}.
Proof.
  intros Hrun Hwf Hapart. apply discover_files_sorted in Hrun.
  apply sort_files_perm in Hrun. split; [exact Hrun|]. split.
  - rewrite Hrun. apply discover_NoDup; assumption.
  - intros fs f data Hon Hread. apply detect_duplicates_pair; assumption.
Qed.

Lemma discover_files_unique_paths_witness :
  example_discovered ≡ₚ flat_map (discover_one example_library default_config) example_tree /\
  NoDup (List.map fi_path example_discovered) /\
  forall fs f data,
    cfg_detect_duplicates default_config = true ->
    read_bytes fs (fi_path f) = Ok data ->
    detect_duplicates example_library default_config fs [f; f]
      = Ok {[ file_digest example_library data :=
                [with_hash f (file_digest example_library data);
                 with_hash f (file_digest example_library data)] ]}.
Proof.
  apply (discover_files_unique_paths example_library default_config example_tree
           example_discovered).
  - vm_compute. reflexivity.
  - repeat first
      [ apply wf_file
      | apply wf_dir; [simpl; apply (bool_decide_unpack _); vm_compute; exact I|]
      | apply Forall_nil
      | apply Forall_cons_2; simpl
      | exact I ].
  - simpl. repeat split; try constructor; try split;
      apply (bool_decide_unpack _); vm_compute; exact I.
Defined.

Example discover_files_example :
  List.map fi_path example_discovered
  = [[lit "docs"; lit "a.md"]; [lit "docs"; lit "sub"; lit "b.md"]; [lit "notes.md"]].
Proof. reflexivity. Qed.

(** The same file given twice is returned twice. *)
Lemma discover_files_repeats_path :
  let p := [lit "docs"; lit "a.md"] in
  let e := EFile 7%Z 0%Z (Some (lit "# Title")) in
  let f := mkFileInfo p 7%Z 0%Z None (lit "# Title") in
  discover_files example_library default_config [(p, e); (p, e)] = Ok [f; f]
  /\ ~ NoDup (List.map fi_path [f; f]).
Proof.
  split; [vm_compute; reflexivity|].
  intros H. apply NoDup_cons in H as [H _]. apply H. left.
Qed.

(** ** Evaluations on the example file system *)

Example get_statistics_example :
  get_statistics
    [mkFileInfo [lit "a.md"] 10 300 None []; mkFileInfo [lit "b.md"] 5 100 None [];
     mkFileInfo [lit "c.md"] 8 200 None []]%Z
  = Ok (mkStatistics 3 23 7 (Some 100) (Some 300))%Z.
Proof. reflexivity. Qed.

(** Two files with the same bytes: one group, of these two. *)
Lemma detect_duplicates_groups_witness :
  detect_duplicates example_library default_config example_fs
    [example_file "a.md"; example_file "b.md"]
  = Ok {[ lit "# Title" := [with_hash (example_file "a.md") (lit "# Title");
                            with_hash (example_file "b.md") (lit "# Title")] ]}.
Proof.
  destruct (detect_duplicates_groups example_library example_fs default_config)
    as [_ Hon].
  destruct (Hon eq_refl) as (_ & _ & Hpair).
  apply (Hpair (example_file "a.md") (example_file "b.md") (lit "# Title"));
    reflexivity.
Defined.

(** A block of one line, followed by a blank line and a heading. *)
Lemma extract_front_matter_cases_witness :
  extract_front_matter
    (join_lines (lit "---" :: [lit "title: Test"] ++ lit "---" :: [[]; lit "# Heading"]))
  = (Some (join_lines [lit "title: Test"]), lstrip_nl (join_lines [[]; lit "# Heading"])).
Proof.
  apply (proj1 extract_front_matter_cases).
  - reflexivity.
  - repeat apply Forall_cons_2; try apply Forall_nil_2;
      apply (bool_decide_unpack _); vm_compute; exact I.
  - apply Forall_cons_2; [|apply Forall_nil_2].
    unfold is_closing. vm_compute. discriminate.
  - reflexivity.
Defined.

(** * Further properties *)

(** ** normalize_line_endings *)

Lemma crlf_to_lf_no_CR (s : str) : CR ∉ crlf_to_lf s.
Proof.
  induction s as [|c s IH]; simpl; [apply not_elem_of_nil|].
  destruct (N.eqb_spec c CR) as [->|Hc].
  - destruct s as [|d s']; [intros H; apply list_elem_of_singleton in H; discriminate|].
    destruct (N.eqb d LF); [exact IH|].
    apply not_elem_of_cons. split; [discriminate | exact IH].
  - apply not_elem_of_cons. split; [congruence | exact IH].
Qed.

Lemma crlf_to_lf_fixed (s : str) : CR ∉ s -> crlf_to_lf s = s.
Proof.
  induction s as [|c s IH]; intros H; [reflexivity|].
  apply not_elem_of_cons in H as [Hc Hs]. simpl.
  destruct (N.eqb_spec c CR) as [->|_]; [done|]. f_equal. apply IH. exact Hs.
Qed.

Lemma crlf_to_lf_of_crlf (s : str) : CR ∉ s -> crlf_to_lf (lf_to_crlf s) = s.
Proof.
  unfold lf_to_crlf.
  induction s as [|c s IH]; intros H; [reflexivity|].
  apply not_elem_of_cons in H as [Hc Hs]. simpl flat_map.
  destruct (N.eqb_spec c LF) as [->|Hn].
  - change ([CR; LF] ++ flat_map (fun c => if N.eqb c LF then [CR; LF] else [c]) s)
      with (CR :: LF :: flat_map (fun c => if N.eqb c LF then [CR; LF] else [c]) s).
    change (crlf_to_lf (CR :: LF :: ?x)) with (crlf_to_lf (LF :: x)).
    simpl. f_equal. apply IH. exact Hs.
  - simpl. destruct (N.eqb_spec c CR) as [->|_]; [done|]. f_equal. apply IH. exact Hs.
Qed.

Lemma normalize_line_endings_canonical (content style : str) :
  crlf_to_lf (normalize_line_endings content style) = crlf_to_lf content.
Proof.
  unfold normalize_line_endings.
  destruct (str_eqb (ascii_lower style) (lit "crlf")).
  - apply crlf_to_lf_of_crlf, crlf_to_lf_no_CR.
  - apply crlf_to_lf_fixed, crlf_to_lf_no_CR.
Qed.

(** X1: normalising line endings after a normalisation gives what the
    second style alone gives on the original text; in particular each
    style is idempotent. *)
Theorem normalize_line_endings_last_wins (content style1 style2 : str) :
  normalize_line_endings (normalize_line_endings content style1) style2
    = normalize_line_endings content style2.
Proof.
  unfold normalize_line_endings at 1 3.
  rewrite normalize_line_endings_canonical. reflexivity.
Qed.

Lemma lf_to_crlf_paired (s : str) : CR ∉ s -> crlf_paired (lf_to_crlf s).
Proof.
  unfold lf_to_crlf.
  induction s as [|c s IH]; intros H; [exact I|].
  apply not_elem_of_cons in H as [Hc Hs]. simpl flat_map.
  destruct (N.eqb_spec c LF) as [->|Hn].
  - simpl. split; [reflexivity | apply IH; exact Hs].
  - simpl. destruct (N.eqb_spec c CR) as [->|_]; [done|].
    split; [exact Hn | apply IH; exact Hs].
Qed.

(** X2: with the style [lf] (any style other than [crlf], in any
    letter case) the result holds no carriage return; with the style
    [crlf] every line break of the result is the pair CR LF. *)
Theorem normalize_line_endings_breaks (content style : str) :
  if str_eqb (ascii_lower style) (lit "crlf")
  then crlf_paired (normalize_line_endings content style)
  else CR ∉ normalize_line_endings content style.
Proof.
  unfold normalize_line_endings.
  destruct (str_eqb (ascii_lower style) (lit "crlf")).
  - apply lf_to_crlf_paired, crlf_to_lf_no_CR.
  - apply crlf_to_lf_no_CR.
Qed.

(** ** normalize_whitespace: what the result looks like *)

Lemma short_runs_repeat_inv (k r j : nat) (s : str) :
  short_runs k r (repeat LF j ++ s) -> j = 0 \/ r + j < k.
Proof.
  revert r. induction j as [|j IH]; intros r; [auto|].
  simpl. intros [Hlt Hs]. right. destruct (IH _ Hs); lia.
Qed.

Lemma short_runs_no_infix (k r : nat) (a b : str) :
  1 <= k -> ~ short_runs k r (a ++ repeat LF k ++ b).
Proof.
  intros Hk. revert r. induction a as [|c a IH]; intros r H.
  - simpl in H. apply short_runs_repeat_inv in H. lia.
  - simpl in H. destruct (is_nl c); [destruct H as [_ H]|]; exact (IH _ H).
Qed.

(** X3: for a limit of at least 0 the result of [normalize_whitespace]
    holds no run of [max_consecutive + 2] line feeds, that is no more
    than [max_consecutive] blank lines in a row, and it is a single line
    feed or begins with a character that is no space. *)
Theorem normalize_whitespace_bounded (content : str) (max_consecutive : Z) :
  (0 <= max_consecutive)%Z ->
  (forall a b,
     normalize_whitespace content max_consecutive
       <> a ++ repeat LF (Z.to_nat (max_consecutive + 2)) ++ b) /\
  (normalize_whitespace content max_consecutive = [LF] \/
   exists c t, normalize_whitespace content max_consecutive = c :: t /\ is_space c = false).
Proof.
  intros Hm. unfold normalize_whitespace.
  set (k := Z.to_nat (max_consecutive + 2)).
  set (r := Z.to_nat (max_consecutive + 1)).
  assert (Hrk : r < k) by lia. assert (Hk : 2 <= k) by lia.
  rewrite re_sub_scan. fold (collapse_from k r None content).
  set (t := strip (collapse_from k r None content)).
  assert (Ht : short_runs k 0 t).
  { apply short_runs_rstrip. eapply short_runs_lstrip.
    apply (collapse_short_runs k r Hrk None content 0). left. reflexivity. }
  split.
  - intros a b Heq.
    apply (short_runs_no_infix k 0 a b); [lia|]. rewrite <- Heq.
    apply short_runs_snoc_LF; [exact Hk | reflexivity | | exact Ht].
    intros b' c Hb. eapply strip_last. exact Hb.
  - pose proof (strip_head (collapse_from k r None content)) as Hh. fold t in Hh.
    destruct t as [|c t']; [left; reflexivity|].
    right. exists c, (t' ++ [LF]). split; [reflexivity | exact Hh].
Qed.

Lemma normalize_whitespace_bounded_witness :
  let content := lit "  a" ++ [LF; LF; LF; LF; LF; LF] ++ lit "b" ++ [LF; LF] in
  (forall a b, normalize_whitespace content 2 <> a ++ repeat LF 4 ++ b) /\
  (normalize_whitespace content 2 = [LF] \/
   exists c t, normalize_whitespace content 2 = c :: t /\ is_space c = false).
Proof. apply (normalize_whitespace_bounded _ 2). lia. Defined.

(** ** adjust_header_levels: undoing a shift *)

Lemma render_original prev s :
  concat (List.map (render (fun m : nat * str => repeat HASH (fst m) ++ snd m))
            (scan header_at prev s)) = s.
Proof.
  pattern prev, s, (scan header_at prev s). apply scan_ind; clear prev s.
  - reflexivity.
  - intros prev c s' [n tail] len Hm IH.
    cbn [List.map concat render fst snd]. rewrite IH.
    apply header_at_inv in Hm as (_ & ws & ln & rest & Hs & -> & Hlen & _).
    rewrite Hlen, Hs. rewrite <- !Nat.add_assoc, <- length_app, (app_assoc ws ln rest).
    rewrite drop_tail. rewrite <- app_assoc. reflexivity.
  - intros prev c s' _ IH. cbn [List.map concat render]. rewrite IH. reflexivity.
Qed.

Lemma render_shift_back offset (ts : list (token (M:=nat * str))) :
  Forall (fun d => 1 <= d <= 6 /\ (1 <= Z.of_nat d + offset <= 6)%Z)
    (List.map fst (matches_of ts)) ->
  concat (List.map (render (adjust_header (- offset)))
            (List.map (shift_token offset) ts))
  = concat (List.map (render (fun m : nat * str => repeat HASH (fst m) ++ snd m)) ts).
Proof.
  induction ts as [|[c|[n tail]] ts IH]; intros H; [reflexivity| |].
  - cbn [List.map concat render shift_token]. f_equal. apply IH. exact H.
  - assert (Hn : 1 <= n <= 6 /\ (1 <= Z.of_nat n + offset <= 6)%Z)
      by (inversion H; assumption).
    assert (Hrest : Forall (fun d => 1 <= d <= 6 /\ (1 <= Z.of_nat d + offset <= 6)%Z)
                      (List.map fst (matches_of ts)))
      by (inversion H; assumption).
    cbn [List.map concat render shift_token]. unfold adjust_header at 1. cbn [fst snd].
    rewrite IH by exact Hrest.
    replace (Z.to_nat (new_level (Z.to_nat (new_level n offset)) (- offset))) with n
      by (unfold new_level; lia).
    reflexivity.
Qed.

(** X4: when every header of the content stays within 1..6 under the
    offset, shifting by the offset and then by its opposite gives the
    content back. *)
Theorem adjust_header_levels_undo (content : str) (offset : Z) :
  Forall (fun d => (1 <= Z.of_nat d + offset <= 6)%Z) (header_depths content) ->
  adjust_header_levels (adjust_header_levels content offset) (- offset) = content.
Proof.
  intros Hrange. unfold adjust_header_levels.
  destruct (Z.eqb_spec offset 0) as [->|Hoff]; [reflexivity|].
  destruct (Z.eqb_spec (- offset) 0) as [Hz|_]; [lia|].
  rewrite !re_sub_scan. fold (adjust_from offset None content).
  rewrite scan_adjust_from. rewrite render_shift_back.
  - apply render_original.
  - pose proof (scan_header_depths None content) as Hb.
    unfold header_depths in Hrange. rewrite re_finditer_scan in Hrange.
    rewrite Forall_forall in Hb, Hrange. apply Forall_forall. intros d Hd. auto.
Qed.

Lemma adjust_header_levels_undo_witness :
  let content := join_lines [lit "# Title"; lit "text"; lit "### Part"; lit "#tag"] in
  adjust_header_levels (adjust_header_levels content 2) (- 2) = content.
Proof.
  apply (adjust_header_levels_undo _ 2).
  vm_compute. repeat constructor; discriminate.
Defined.

(** Out of the range the clamp loses the depth: a second-level header
    pushed by 5 and pulled back by 5 comes out at the first level. *)
Example adjust_header_levels_clamp_loses :
  adjust_header_levels (adjust_header_levels (lit "## Part") 5) (-5) = lit "# Part".
Proof. reflexivity. Qed.

(** ** split and join *)

Lemma join_split_lines (s : str) : join_lines (split_lines s) = s.
Proof.
  induction s as [|c s IH]; [reflexivity|]. simpl.
  pose proof (split_lines_nonempty s) as Hne.
  destruct (is_nl c) eqn:Hc.
  - apply is_nl_LF in Hc. subst c.
    rewrite join_lines_cons by exact Hne. simpl. f_equal. exact IH.
  - destruct (split_lines s) as [|l ls]; [done|].
    destruct ls as [|l' ls]; simpl in *; f_equal; exact IH.
Qed.

Lemma split_lines_no_LF (s : str) : Forall (fun l => LF ∉ l) (split_lines s).
Proof.
  induction s as [|c s IH]; simpl; [repeat constructor; apply not_elem_of_nil|].
  destruct (is_nl c) eqn:Hc.
  - constructor; [apply not_elem_of_nil | exact IH].
  - destruct (split_lines s) as [|l ls]; [repeat constructor|].
    + intros H. apply list_elem_of_singleton in H. subst c. discriminate.
    + inversion IH as [|? ? Hl Hls]; subst. constructor; [|exact Hls].
      apply not_elem_of_cons. split; [|exact Hl].
      intros <-. discriminate.
Qed.

Lemma join_lines_drop_suffix (ls : list str) (k : nat) :
  exists head, join_lines ls = head ++ join_lines (drop k ls).
Proof.
  revert ls. induction k as [|k IH]; intros ls; [exists []; reflexivity|].
  destruct ls as [|l ls]; [exists []; reflexivity|].
  simpl drop. destruct (IH ls) as [head Hhead].
  destruct ls as [|l' ls].
  - exists l. rewrite drop_nil. simpl. rewrite app_nil_r. reflexivity.
  - exists (l ++ LF :: head). rewrite join_lines_cons by done.
    rewrite Hhead, <- app_assoc. reflexivity.
Qed.

Lemma drop_while_suffix (p : char -> bool) (s : str) :
  exists head, s = head ++ drop_while p s.
Proof. exists (take_while p s). symmetry. apply take_drop_while. Qed.

Lemma find_closing_spec (ls : list str) (i j : nat) :
  find_closing ls i = Some j ->
  i <= j /\ Forall (fun l => ~ is_closing l) (take (j - i) ls).
Proof.
  revert i. induction ls as [|l ls IH]; intros i; simpl; [discriminate|].
  destruct (str_eqb (strip l) (lit "---")) eqn:E.
  - intros [= <-]. split; [lia|]. rewrite Nat.sub_diag. constructor.
  - intros H. apply IH in H as [Hle Hall]. split; [lia|].
    replace (j - i) with (S (j - S i)) by lia. simpl. constructor; [|exact Hall].
    apply str_eqb_neq in E. exact E.
Qed.

(** X5: whenever [extract_front_matter] finds a front matter, the
    content starts with the delimiter, the remaining content is an end
    piece of the content that does not begin with a line feed, and no
    line of the front matter is itself a closing delimiter. *)
Theorem extract_front_matter_found (content front_matter remaining : str) :
  extract_front_matter content = (Some front_matter, remaining) ->
  startswith (lit "---") content = true /\
  (exists head, content = head ++ remaining) /\
  head remaining <> Some LF /\
  Forall (fun l => ~ is_closing l) (split_lines front_matter).
Proof.
  unfold extract_front_matter.
  destruct (startswith (lit "---") content) eqn:Hstart; simpl negb; cbv iota;
    [|discriminate].
  destruct (find_closing (drop 1 (split_lines content)) 1) as [end_index|] eqn:Hfind;
    [|discriminate].
  intros [= <- <-]. split; [reflexivity|].
  apply find_closing_spec in Hfind as [Hle Hall].
  split; [|split].
  - destruct (join_lines_drop_suffix (split_lines content) (end_index + 1)) as [h1 Hh1].
    rewrite join_split_lines in Hh1.
    destruct (drop_while_suffix is_nl
                (join_lines (drop (end_index + 1) (split_lines content)))) as [h2 Hh2].
    exists (h1 ++ h2). unfold lstrip_nl. rewrite <- app_assoc, <- Hh2. exact Hh1.
  - unfold lstrip_nl.
    pose proof (drop_while_head is_nl
                  (join_lines (drop (end_index + 1) (split_lines content)))) as Hh.
    destruct (drop_while is_nl _) as [|c r]; [discriminate|].
    simpl. intros [= ->]. discriminate.
  - set (between := take (end_index - 1) (drop 1 (split_lines content))) in *.
    assert (Hnl : Forall (fun l => LF ∉ l) between).
    { unfold between. apply Forall_take, Forall_drop, split_lines_no_LF. }
    destruct between as [|l ls] eqn:Eb.
    + simpl. constructor; [|constructor]. unfold is_closing. discriminate.
    + rewrite split_join_lines by exact Hnl. exact Hall.
Qed.

Lemma extract_front_matter_found_witness :
  let content := join_lines [lit "---"; lit "title: Test"; lit "---"; []; lit "# Heading"] in
  startswith (lit "---") content = true /\
  (exists head, content = head ++ lit "# Heading") /\
  head (lit "# Heading") <> Some LF /\
  Forall (fun l => ~ is_closing l) (split_lines (lit "title: Test")).
Proof.
  apply (extract_front_matter_found _ (lit "title: Test") (lit "# Heading")).
  reflexivity.
Defined.

(** ** generate_anchor *)

Lemma dash_spaces_chars (P : char -> Prop) (in_run : bool) (s : str) :
  P DASH -> Forall (fun c => is_space c = false -> P c) s ->
  Forall (fun c => is_space c = false /\ P c) (dash_spaces in_run s).
Proof.
  intros Hd H. revert in_run. induction H as [|c s Hc _ IH]; intros in_run; simpl;
    [constructor|].
  destruct (is_space c) eqn:E.
  - destruct in_run; simpl; [apply IH|]. constructor; [split; [reflexivity | exact Hd] | apply IH].
  - constructor; [split; [exact E | apply Hc; reflexivity] | apply IH].
Qed.

(** X6: an anchor holds no space character: each of its characters is
    a word character or a hyphen. *)
Theorem generate_anchor_chars (lib : Library) (text : str) :
  Forall (fun c => is_space c = false /\ (is_word lib c = true \/ c = DASH))
    (generate_anchor lib text).
Proof.
  unfold generate_anchor. apply dash_spaces_chars; [right; reflexivity|].
  apply Forall_forall. intros c Hc Hspace.
  apply list_elem_of_In, filter_In in Hc as [_ Hc].
  rewrite Hspace, orb_false_r in Hc. apply orb_true_iff in Hc as [Hw|Hd]; [left; exact Hw|].
  right. apply N.eqb_eq in Hd. exact Hd.
Qed.

(** ** calculate_file_hash: the reads *)

(** X7: the reads that feed the hasher are never empty nor longer than
    the chunk size, and put end to end they are the bytes of the file. *)
Theorem chunks_cover (chunk_size : nat) (data : list N) :
  0 < chunk_size ->
  concat (chunks (length data) chunk_size data) = data /\
  Forall (fun chunk => 0 < length chunk <= chunk_size)
    (chunks (length data) chunk_size data).
Proof.
  intros Hpos.
  assert (H : forall fuel d, length d <= fuel ->
            concat (chunks fuel chunk_size d) = d /\
            Forall (fun chunk => 0 < length chunk <= chunk_size) (chunks fuel chunk_size d)).
  { induction fuel as [|fuel IH]; intros d Hd.
    - destruct d; [|simpl in Hd; lia]. split; [reflexivity | constructor].
    - simpl. destruct (take chunk_size d) as [|x chunk] eqn:E.
      + destruct d as [|y d]; [split; [reflexivity | constructor]|].
        destruct chunk_size; [lia | discriminate].
      + destruct d as [|y d]; [rewrite take_nil in E; discriminate|].
        destruct (IH (drop chunk_size (y :: d))) as [Hc Hf].
        { rewrite length_drop. simpl in *. lia. }
        split.
        * rewrite concat_cons, Hc, <- E. apply take_drop.
        * constructor; [|exact Hf]. rewrite <- E, length_take.
          simpl. lia. }
  apply H. reflexivity.
Qed.

Lemma chunks_cover_witness :
  concat (chunks 7 3 (lit "# Title")) = lit "# Title" /\
  Forall (fun chunk => 0 < length chunk <= 3) (chunks 7 3 (lit "# Title")).
Proof. apply (chunks_cover 3 (lit "# Title")). lia. Defined.

(** ** natural_sort_key *)

Section NaturalKey.
Variable lib : Library.

Lemma take_while_sub (p : char -> bool) (P : char -> Prop) (s : str) :
  Forall P s -> Forall P (take_while p s).
Proof.
  induction 1 as [|c s Hc _ IH]; simpl; [constructor|].
  destruct (p c); constructor; assumption.
Qed.

Lemma drop_while_sub (p : char -> bool) (P : char -> Prop) (s : str) :
  Forall P s -> Forall P (drop_while p s).
Proof.
  induction 1 as [|c s Hc Hs IH]; simpl; [constructor|].
  destruct (p c); [exact IH | constructor; assumption].
Qed.

Lemma split_digits_shape (fuel : nat) (s : str) :
  pieces_shape lib true (split_digits lib fuel s).
Proof.
  revert s. induction fuel as [|fuel IH]; intros s.
  - simpl. set (q := fun c => negb (bool_decide (is_Some (decimal_digit lib c)))).
    assert (Ht : Forall (fun c => decimal_digit lib c = None) (take_while q s)).
    { eapply Forall_impl; [apply take_while_all|]. intros c Hc. unfold q in Hc.
      apply negb_true_iff, bool_decide_eq_false in Hc.
      destruct (decimal_digit lib c); [exfalso; apply Hc; eauto | reflexivity]. }
    destruct (drop_while q s); simpl; auto.
  - simpl. set (q := fun c => negb (bool_decide (is_Some (decimal_digit lib c)))).
    set (d := fun c => bool_decide (is_Some (decimal_digit lib c))).
    assert (Ht : Forall (fun c => decimal_digit lib c = None) (take_while q s)).
    { eapply Forall_impl; [apply take_while_all|]. intros c Hc. unfold q in Hc.
      apply negb_true_iff, bool_decide_eq_false in Hc.
      destruct (decimal_digit lib c); [exfalso; apply Hc; eauto | reflexivity]. }
    pose proof (drop_while_head q s) as Hh.
    destruct (drop_while q s) as [|c r]; [simpl; auto|].
    assert (Hdig : take_while d (c :: r) <> []
                   /\ Forall (fun c => is_Some (decimal_digit lib c)) (take_while d (c :: r))).
    { split.
      - unfold q in Hh. apply negb_false_iff in Hh.
        simpl. unfold d at 1. rewrite Hh. discriminate.
      - eapply Forall_impl; [apply take_while_all|]. intros x Hx.
        apply bool_decide_eq_true in Hx. exact Hx. }
    destruct Hdig as [Hne Hdec].
    split; [exact Ht|]. split; [exact Hne|]. split; [exact Hdec|]. apply IH.
Qed.

Lemma split_digits_chars (P : char -> Prop) (fuel : nat) (s : str) :
  Forall P s -> Forall (Forall P) (split_digits lib fuel s).
Proof.
  revert s. induction fuel as [|fuel IH]; intros s Hs; simpl.
  - destruct (drop_while _ s); repeat constructor; apply take_while_sub; exact Hs.
  - pose proof (drop_while_sub (fun c => negb (bool_decide (is_Some (decimal_digit lib c)))) P s Hs) as Hd.
    destruct (drop_while _ s) as [|c r] eqn:E.
    + repeat constructor; apply take_while_sub; exact Hs.
    + constructor; [apply take_while_sub; exact Hs|].
      constructor;
        [exact (take_while_sub (fun c => bool_decide (is_Some (decimal_digit lib c)))
                  P (c :: r) Hd)|].
      apply IH.
      exact (drop_while_sub (fun c => bool_decide (is_Some (decimal_digit lib c)))
               P (c :: r) Hd).
Qed.

Lemma take_while_length_le (p : char -> bool) (s : str) :
  length (take_while p s) <= length s.
Proof.
  induction s as [|c s IH]; simpl; [lia|]. destruct (p c); simpl; lia.
Qed.

Lemma drop_while_length_le (p : char -> bool) (s : str) :
  length (drop_while p s) <= length s.
Proof.
  induction s as [|c s IH]; simpl; [lia|]. destruct (p c); simpl; lia.
Qed.

Lemma int_of_text_raise (text : str) (e : exn) :
  foldl (fun acc c =>
           let* n := acc in
           match decimal_digit lib c with
           | Some d => Ok (10 * n + d)%Z
           | None => Raise (Exn ValueError (lit "invalid literal for int()"))
           end) (Raise e) text = Raise e.
Proof. induction text as [|c text IH]; simpl; [reflexivity | exact IH]. Qed.

Lemma int_of_text_ok_from (text : str) (n0 : Z) :
  (exists n, foldl (fun acc c =>
           let* n := acc in
           match decimal_digit lib c with
           | Some d => Ok (10 * n + d)%Z
           | None => Raise (Exn ValueError (lit "invalid literal for int()"))
           end) (Ok n0) text = Ok n)
  <-> Forall (fun c => is_Some (decimal_digit lib c)) text.
Proof.
  revert n0. induction text as [|c text IH]; intros n0; simpl.
  - split; [constructor | eauto].
  - destruct (decimal_digit lib c) as [d|] eqn:E.
    + rewrite IH. split.
      * intros H. constructor; [rewrite E; eauto | exact H].
      * intros H. inversion H; assumption.
    + rewrite int_of_text_raise. split.
      * intros [n Hn]. discriminate.
      * intros H. inversion H as [|? ? [d Hd] _]; subst. congruence.
Qed.

Lemma int_of_text_digits (text : str) (n : Z) :
  int_of_text lib text = Ok n ->
  Forall (fun c => is_Some (decimal_digit lib c)) text.
Proof.
  unfold int_of_text. destruct (_ <? _); [discriminate|].
  intros H. apply (int_of_text_ok_from text 0). eauto.
Qed.

Lemma int_of_text_ok (text : str) :
  Forall (fun c => is_Some (decimal_digit lib c)) text ->
  length text <= int_max_str_digits ->
  exists n, int_of_text lib text = Ok n.
Proof.
  intros Hdec Hlen. unfold int_of_text.
  pose proof (take_while_length_le
                (fun c => bool_decide (is_Some (decimal_digit lib c))) text) as Hrun.
  destruct (Nat.ltb_spec int_max_str_digits
              (length (take_while (fun c => bool_decide (is_Some (decimal_digit lib c)))
                         text))) as [Hlt|_]; [lia|].
  apply int_of_text_ok_from. exact Hdec.
Qed.

(** The loop of [natural_sort_key] over the pieces. *)
Lemma key_of_pieces_shape (text_next : bool) (pieces : list str) (key : list key_item) :
  (forall c, is_Some (decimal_digit lib c) -> is_digit lib c = true) ->
  pieces_shape lib text_next pieces ->
  foldr (fun text acc =>
           let* item :=
             (if negb (Nat.eqb (length text) 0) && forallb (is_digit lib) text
              then let* n := int_of_text lib text in Ok (KInt n)
              else Ok (KStr (str_lower lib text))) in
           let* rest := acc in
           Ok (item :: rest))
        (Ok []) pieces = Ok key ->
  key_shape text_next key.
Proof.
  intros Hlib. revert text_next key.
  induction pieces as [|p pieces IH]; intros text_next key Hshape; simpl.
  - intros [= <-]. exact Hshape.
  - simpl in Hshape.
    destruct (negb (Nat.eqb (length p) 0) && forallb (is_digit lib) p) eqn:Hcond.
    + destruct (int_of_text lib p) as [n|e] eqn:Hint; simpl; [|discriminate].
      destruct (foldr _ _ pieces) as [rest|e] eqn:Hrest; simpl; [|discriminate].
      intros [= <-]. simpl.
      destruct text_next.
      * exfalso. destruct Hshape as [Hnone _].
        apply andb_true_iff in Hcond as [Hne _].
        assert (Hdec : Forall (fun c => is_Some (decimal_digit lib c)) p)
          by (eapply int_of_text_digits; eauto).
        destruct p as [|c p]; [discriminate|].
        inversion Hnone as [|? ? Hc _]; subst. inversion Hdec as [|? ? [d Hd] _]; subst.
        congruence.
      * destruct Hshape as (_ & _ & Hshape). split; [reflexivity|].
        eapply IH; [exact Hshape | reflexivity].
    + simpl. destruct (foldr _ _ pieces) as [rest|e] eqn:Hrest; simpl; [|discriminate].
      intros [= <-]. simpl.
      destruct text_next.
      * destruct Hshape as [_ Hshape]. split; [reflexivity|].
        eapply IH; [exact Hshape | reflexivity].
      * exfalso. destruct Hshape as (Hne & Hdec & _).
        apply andb_false_iff in Hcond as [Hc|Hc].
        -- destruct p; [done | discriminate].
        -- assert (forallb (is_digit lib) p = true); [|congruence].
           apply forallb_forall. intros c Hc'. apply Hlib.
           rewrite Forall_forall in Hdec. apply Hdec. apply list_elem_of_In. exact Hc'.
Qed.

Lemma key_of_pieces_total (pieces : list str) :
  Forall (Forall (fun c => is_digit lib c = true -> is_Some (decimal_digit lib c))) pieces ->
  Forall (fun p => length p <= int_max_str_digits) pieces ->
  exists key,
    foldr (fun text acc =>
             let* item :=
               (if negb (Nat.eqb (length text) 0) && forallb (is_digit lib) text
                then let* n := int_of_text lib text in Ok (KInt n)
                else Ok (KStr (str_lower lib text))) in
             let* rest := acc in
             Ok (item :: rest))
          (Ok []) pieces = Ok key.
Proof.
  induction 1 as [|p pieces Hp _ IH]; intros Hlen; simpl; [eauto|].
  inversion Hlen as [|? ? Hlp Hlps]; subst.
  destruct (IH Hlps) as [rest ->].
  destruct (negb (Nat.eqb (length p) 0) && forallb (is_digit lib) p) eqn:Hcond;
    simpl; [|eauto].
  apply andb_true_iff in Hcond as [_ Hall].
  assert (Hdec : Forall (fun c => is_Some (decimal_digit lib c)) p).
  { rewrite Forall_forall in Hp. apply Forall_forall. intros c Hc. apply Hp; [exact Hc|].
    rewrite forallb_forall in Hall. apply Hall. apply list_elem_of_In. exact Hc. }
  destruct (int_of_text_ok p Hdec Hlp) as [n ->]. simpl. eauto.
Qed.

Lemma split_digits_length (fuel : nat) (s : str) :
  Forall (fun p => length p <= length s) (split_digits lib fuel s).
Proof.
  revert s. induction fuel as [|fuel IH]; intros s; simpl.
  - destruct (drop_while _ s); repeat constructor; apply take_while_length_le.
  - pose proof (drop_while_length_le
                  (fun c => negb (bool_decide (is_Some (decimal_digit lib c)))) s) as Hd.
    destruct (drop_while _ s) as [|c r] eqn:E.
    + repeat constructor; apply take_while_length_le.
    + constructor; [apply take_while_length_le|].
      pose proof (take_while_length_le
                    (fun c => bool_decide (is_Some (decimal_digit lib c))) (c :: r)) as Ht.
      pose proof (drop_while_length_le
                    (fun c => bool_decide (is_Some (decimal_digit lib c))) (c :: r)) as Hr.
      constructor; [exact (Nat.le_trans _ _ _ Ht Hd)|].
      eapply Forall_impl;
        [exact (IH (drop_while (fun c => bool_decide (is_Some (decimal_digit lib c)))
                      (c :: r)))|].
      intros p Hp. cbv beta in Hp. exact (Nat.le_trans _ _ _ Hp (Nat.le_trans _ _ _ Hr Hd)).
Qed.

(** X8: when every decimal digit counts as a digit for [isdigit], as in
    Python, a key that [natural_sort_key] returns takes turns between
    lower-cased texts and numbers, from a first text to a last one: two
    such keys hold values of the same type at every index.  The key is
    returned for a text of at most [int_max_str_digits] characters in
    which each character that [isdigit] accepts is a decimal digit. *)
Theorem natural_sort_key_shape (s : str) :
  (forall c, is_Some (decimal_digit lib c) -> is_digit lib c = true) ->
  (forall key, natural_sort_key lib s = Ok key -> key_shape true key) /\
  (Forall (fun c => is_digit lib c = true -> is_Some (decimal_digit lib c)) s ->
   length s <= int_max_str_digits ->
   exists key, natural_sort_key lib s = Ok key).
Proof.
  intros Hlib. split.
  - intros key Hkey. unfold natural_sort_key in Hkey.
    eapply key_of_pieces_shape; [exact Hlib | apply split_digits_shape | exact Hkey].
  - intros Hs Hlen. unfold natural_sort_key. apply key_of_pieces_total.
    + apply split_digits_chars. exact Hs.
    + eapply Forall_impl; [apply split_digits_length|]. intros p Hp. simpl in Hp. lia.
Qed.
End NaturalKey.

Lemma natural_sort_key_shape_witness :
  (forall key, natural_sort_key example_library (lit "file10.md") = Ok key ->
               key_shape true key) /\
  (Forall (fun c => is_digit example_library c = true ->
                    is_Some (decimal_digit example_library c)) (lit "file10.md") ->
   length (lit "file10.md") <= int_max_str_digits ->
   exists key, natural_sort_key example_library (lit "file10.md") = Ok key).
Proof.
  apply (natural_sort_key_shape example_library (lit "file10.md")).
  intros c Hc. simpl. apply bool_decide_eq_true. exact Hc.
Defined.

Example natural_sort_key_example :
  natural_sort_key example_library (lit "File10.md")
  = Ok [KStr (lit "file"); KInt 10; KStr (lit ".md")].
Proof. vm_compute. reflexivity. Qed.

(** A run of 4301 digits is more than [int()] converts. *)
Example natural_sort_key_long_run :
  natural_sort_key example_library (lit "v" ++ repeat 49%N 4301)
  = Raise (Exn ValueError
             (lit "Exceeds the limit (4300 digits) for integer string conversion")).
Proof. vm_compute. reflexivity. Qed.

(** ** discover_files: what is found *)

Section DiscoverMore.
Variable lib : Library.
Variable config : MergeConfig.

Lemma matches_filters_spec (filepath : path) :
  matches_filters lib config filepath
  = matches_patterns lib (path_name filepath) (cfg_include_patterns config)
    && negb (matches_patterns lib (path_name filepath) (cfg_exclude_patterns config)).
Proof.
  unfold matches_filters.
  destruct (matches_patterns lib (path_name filepath) (cfg_include_patterns config));
    simpl; [|reflexivity].
  destruct (cfg_exclude_patterns config) as [|x xs]; [reflexivity|].
  destruct (matches_patterns lib (path_name filepath) (x :: xs)); reflexivity.
Qed.

Lemma analyze_file_accepted p size mtime data :
  matches_filters lib config p = true -> accepted lib config (analyze_file lib p size mtime data).
Proof. intros H. split; [exact H | reflexivity]. Qed.

Lemma scan_directory_accepted e :
  forall directory current_depth,
    Forall (accepted lib config) (scan_directory lib config directory e current_depth).
Proof.
  induction e as [size mtime data| | |children IH|msg] using entry_ind;
    intros directory current_depth; try (simpl; constructor).
  - simpl. destruct (_ && _); constructor.
  - rewrite scan_directory_listing. destruct (_ && _); [constructor|].
    apply reached_Forall in IH. revert IH. generalize (reached children).
    clear children. intros children IH.
    induction children as [|[name c] children IHc]; [constructor|].
    inversion IH as [|? ? IHhead IHtail]; subst.
    simpl flat_map. apply Forall_app. split; [|apply IHc; exact IHtail].
    unfold scan_child. simpl. destruct c as [size mtime data|listing| |msg].
    + destruct (matches_filters _ _ _) eqn:E; [|constructor].
      constructor; [apply analyze_file_accepted; exact E | constructor].
    + destruct (_ && _); [apply IHhead | constructor].
    + constructor.
    + constructor.
Qed.

Lemma discover_one_accepted p e : Forall (accepted lib config) (discover_one lib config (p, e)).
Proof.
  unfold discover_one. simpl. destruct e as [size mtime data|listing| |msg].
  - destruct (matches_filters _ _ _) eqn:E; [|constructor].
    constructor; [apply analyze_file_accepted; exact E | constructor].
  - apply scan_directory_accepted.
  - constructor.
  - constructor.
Qed.

(** X9: every file that [discover_files] returns has a name that
    matches an include pattern and no exclude pattern, and carries no
    hash yet. *)
Theorem discover_files_filtered (paths : list (path * entry)) (files : list FileInfo) :
  discover_files lib config paths = Ok files ->
  Forall (fun f =>
            matches_patterns lib (path_name (fi_path f)) (cfg_include_patterns config) = true
            /\ matches_patterns lib (path_name (fi_path f)) (cfg_exclude_patterns config) = false
            /\ fi_hash f = None) files.
Proof.
  intros Hrun. apply discover_files_sorted in Hrun. apply sort_files_perm in Hrun.
  rewrite Hrun. apply Forall_forall. intros f Hf.
  apply list_elem_of_In, in_flat_map in Hf as ([p e] & _ & Hf).
  apply list_elem_of_In in Hf.
  pose proof (discover_one_accepted p e) as Hacc. rewrite Forall_forall in Hacc.
  destruct (Hacc f Hf) as [Hm Hh]. rewrite matches_filters_spec in Hm.
  apply andb_true_iff in Hm as [Hi He]. apply negb_true_iff in He. auto.
Qed.

(** The files of a scan that starts at depth [current_depth]. *)
Lemma scan_directory_located e :
  forall directory current_depth f,
    f ∈ scan_directory lib config directory e current_depth ->
    exists dirs name,
      fi_path f = directory ++ dirs ++ [name] /\
      Forall (fun d => startswith [DOT] d = false) dirs /\
      (cfg_recursive config = false -> dirs = []) /\
      ((0 <= cfg_max_depth config)%Z ->
       (current_depth + Z.of_nat (length dirs) <= cfg_max_depth config)%Z).
Proof.
  induction e as [size mtime data| | |children IH|msg] using entry_ind;
    intros directory current_depth f Hf; try (simpl in Hf; by apply elem_of_nil in Hf).
  - simpl in Hf. destruct (_ && _) in Hf; by apply elem_of_nil in Hf.
  - rewrite scan_directory_listing in Hf.
    destruct ((0 <=? cfg_max_depth config)%Z && (cfg_max_depth config <? current_depth)%Z)
      eqn:Hdepth; [by apply elem_of_nil in Hf|].
    apply list_elem_of_In, in_flat_map in Hf as ([name c] & Hin & Hf).
    apply list_elem_of_In in Hin, Hf.
    pose proof (elem_of_sublist _ _ _ Hin (reached_sublist children)) as Hin'.
    rewrite Forall_forall in IH. specialize (IH _ Hin'). simpl in IH.
    unfold scan_child in Hf. cbn [fst snd] in Hf.
    destruct c as [size mtime data|listing| |msg];
      [| | by apply elem_of_nil in Hf | by apply elem_of_nil in Hf].
    + destruct (matches_filters _ _ _) in Hf; [|by apply elem_of_nil in Hf].
      apply list_elem_of_singleton in Hf. subst f. exists [], name. simpl.
      repeat split; [constructor|]. intros Hmax.
      apply andb_false_iff in Hdepth as [H|H]; [apply Z.leb_gt in H | apply Z.ltb_ge in H]; lia.
    + destruct (cfg_recursive config && negb (startswith [DOT] name)) eqn:Hrec;
        [|by apply elem_of_nil in Hf].
      apply andb_true_iff in Hrec as [Hrec Hhid]. apply negb_true_iff in Hhid.
      apply IH in Hf as (dirs & name' & Hpath & Hdirs & _ & Hmax).
      exists (name :: dirs), name'. repeat split.
      * rewrite Hpath, <- app_assoc. reflexivity.
      * constructor; assumption.
      * intros Hoff. congruence.
      * intros H0. specialize (Hmax H0). simpl length. lia.
Qed.

Lemma discover_one_located p e f :
  f ∈ discover_one lib config (p, e) -> found_under config p f.
Proof.
  unfold discover_one. simpl. intros Hf. destruct e as [size mtime data|listing| |msg].
  - destruct (matches_filters _ _ _) in Hf; [|by apply elem_of_nil in Hf].
    apply list_elem_of_singleton in Hf. subst f. left. reflexivity.
  - apply scan_directory_located in Hf as (dirs & name & Hpath & Hdirs & Hrec & Hmax).
    right. exists dirs, name. repeat split; assumption.
  - by apply elem_of_nil in Hf.
  - by apply elem_of_nil in Hf.
Qed.

(** X10: every file that [discover_files] returns comes from one of the
    input paths: it is that path, or it lies below it through
    directories whose names do not begin with a dot, directly in it
    when recursion is off, and at most [max_depth] directories down
    when [max_depth] is not negative. *)
Theorem discover_files_located (paths : list (path * entry)) (files : list FileInfo) :
  discover_files lib config paths = Ok files ->
  Forall (fun f => exists root, root ∈ List.map fst paths /\ found_under config root f) files.
Proof.
  intros Hrun. apply discover_files_sorted in Hrun. apply sort_files_perm in Hrun.
  rewrite Hrun. apply Forall_forall. intros f Hf.
  apply list_elem_of_In, in_flat_map in Hf as ([p e] & Hin & Hf).
  apply list_elem_of_In in Hin, Hf.
  exists p. split.
  - apply list_elem_of_fmap. exists (p, e). split; [reflexivity | exact Hin].
  - apply discover_one_located with e. exact Hf.
Qed.

Lemma reached_before (before after : list (str * entry)) :
  Forall (fun ne => forall msg, snd ne <> EDenied msg) before ->
  reached (before ++ after) = before ++ reached after.
Proof.
  induction 1 as [|[name c] before Hc _ IH]; [reflexivity|].
  simpl in Hc. destruct c; simpl; rewrite ?IH; try reflexivity.
  exfalso. eapply Hc. reflexivity.
Qed.

(** X11: a file that stands directly in an input directory which can
    be listed, after no entry on which [is_file()] raises
    PermissionError, and whose name passes the filters, is returned. *)
Theorem discover_files_complete (paths : list (path * entry)) (files : list FileInfo)
    (root : path) (before after : list (str * entry)) (name : str)
    (size : Z) (mtime : datetime) (data : option (list N)) :
  discover_files lib config paths = Ok files ->
  (root, EDir (Some (before ++ (name, EFile size mtime data) :: after))) ∈ paths ->
  Forall (fun ne => forall msg, snd ne <> EDenied msg) before ->
  matches_filters lib config (root ++ [name]) = true ->
  analyze_file lib (root ++ [name]) size mtime data ∈ files.
Proof.
  intros Hrun Hroot Hbefore Hmatch.
  assert (Hchild : (name, EFile size mtime data)
                   ∈ reached (before ++ (name, EFile size mtime data) :: after)).
  { rewrite (reached_before _ _ Hbefore). apply elem_of_app. right. left. }
  revert Hroot Hchild.
  generalize (before ++ (name, EFile size mtime data) :: after).
  intros children Hroot Hchild.
  apply discover_files_sorted in Hrun.
  apply sort_files_perm in Hrun. rewrite Hrun.
  apply list_elem_of_In, in_flat_map. exists (root, EDir (Some children)).
  split; [apply list_elem_of_In; exact Hroot|].
  unfold discover_one. cbn [fst snd]. rewrite scan_directory_listing.
  replace ((0 <=? cfg_max_depth config)%Z && (cfg_max_depth config <? 0)%Z) with false
    by (symmetry; apply andb_false_iff;
        destruct (Z.leb_spec 0 (cfg_max_depth config)); [right; apply Z.ltb_ge; lia | left; reflexivity]).
  apply in_flat_map. exists (name, EFile size mtime data).
  split; [apply list_elem_of_In; exact Hchild|].
  unfold scan_child. cbn [fst snd]. rewrite Hmatch. left. reflexivity.
Qed.
End DiscoverMore.

Lemma discover_files_filtered_witness :
  Forall (fun f =>
            matches_patterns example_library (path_name (fi_path f))
              (cfg_include_patterns default_config) = true
            /\ matches_patterns example_library (path_name (fi_path f))
                 (cfg_exclude_patterns default_config) = false
            /\ fi_hash f = None) example_discovered.
Proof.
  apply (discover_files_filtered example_library default_config example_tree).
  vm_compute. reflexivity.
Defined.

Lemma discover_files_located_witness :
  Forall (fun f => exists root,
            root ∈ List.map fst example_tree /\ found_under default_config root f)
    example_discovered.
Proof.
  apply (discover_files_located example_library default_config example_tree).
  vm_compute. reflexivity.
Defined.

Lemma discover_files_complete_witness :
  analyze_file example_library ([lit "docs"] ++ [lit "a.md"]) 7%Z 0%Z (Some (lit "# Title"))
    ∈ example_discovered.
Proof.
  apply (discover_files_complete example_library default_config example_tree
           example_discovered [lit "docs"] []
           [ (lit "sub",
              EDir (Some [ (lit "b.md", EFile 7%Z 0%Z (Some (lit "# Title")));
                           (lit "c.txt", EFile 3%Z 0%Z (Some (lit "txt"))) ])) ]
           (lit "a.md") 7%Z 0%Z (Some (lit "# Title"))).
  - vm_compute. reflexivity.
  - left.
  - constructor.
  - vm_compute. reflexivity.
Defined.

(** An entry on which [is_file()] raises ends the scan of its directory:
    the file before it is returned, the file after it is not; as an
    input path it makes [discover_files] raise. *)
Example discover_files_denied_entry :
  let denied := EDenied (lit "Permission denied") in
  let file := EFile 7%Z 0%Z (Some (lit "# Title")) in
  discover_files example_library default_config
    [([lit "docs"], EDir (Some [(lit "a.md", file); (lit "b.md", denied);
                                (lit "c.md", file)]))]
  = Ok [analyze_file example_library [lit "docs"; lit "a.md"] 7%Z 0%Z
          (Some (lit "# Title"))] /\
  discover_files example_library default_config [([lit "b.md"], denied)]
  = Raise (Exn PermissionError (lit "Permission denied")).
Proof. vm_compute. split; reflexivity. Qed.

(** ** Sorting: order and stability *)

Section SortOrder.
Context {K : Type}.
Variable leb : K -> K -> bool.
Variable eqb : K -> K -> bool.
Hypothesis leb_total : forall a b, leb a b = true \/ leb b a = true.
Hypothesis leb_trans : forall a b c, leb a b = true -> leb b c = true -> leb a c = true.
Hypothesis eqb_leb : forall a b k, eqb a k = true -> eqb b k = true -> leb a b = true.

Abbreviation pair_order := (fun a b : K * FileInfo => leb (fst a) (fst b) = true).

Lemma insert_by_sorted (x : K * FileInfo) (l : list (K * FileInfo)) :
  StronglySorted pair_order l -> StronglySorted pair_order (insert_by leb x l).
Proof.
  induction 1 as [|y l Hsorted IH Hy]; simpl; [repeat constructor|].
  destruct (leb (fst x) (fst y)) eqn:E.
  - constructor; [constructor; assumption|].
    constructor; [exact E|].
    eapply Forall_impl; [exact Hy|]. intros z Hz. simpl in *. eapply leb_trans; eassumption.
  - constructor; [exact IH|].
    assert (Hyx : leb (fst y) (fst x) = true) by (destruct (leb_total (fst x) (fst y)); congruence).
    assert (Hperm : insert_by leb x l ≡ₚ x :: l) by apply insert_by_perm.
    rewrite Hperm. constructor; assumption.
Qed.

Lemma sort_sorted (keyed : list (K * FileInfo)) :
  StronglySorted pair_order (foldr (insert_by leb) [] keyed).
Proof.
  induction keyed as [|x keyed IH]; simpl; [constructor | apply insert_by_sorted; exact IH].
Qed.

Lemma insert_by_stable (k : K) (x : K * FileInfo) (l : list (K * FileInfo)) :
  List.filter (fun p => eqb (fst p) k) (insert_by leb x l)
  = List.filter (fun p => eqb (fst p) k) (x :: l).
Proof.
  induction l as [|y l IH]; [reflexivity|]. simpl insert_by.
  destruct (leb (fst x) (fst y)) eqn:E; [reflexivity|].
  cbn [List.filter] in *.
  destruct (eqb (fst y) k) eqn:Ey, (eqb (fst x) k) eqn:Ex; rewrite IH; try reflexivity.
  rewrite (eqb_leb _ _ _ Ex Ey) in E. discriminate.
Qed.

Lemma sort_stable (k : K) (keyed : list (K * FileInfo)) :
  List.filter (fun p => eqb (fst p) k) (foldr (insert_by leb) [] keyed)
  = List.filter (fun p => eqb (fst p) k) keyed.
Proof.
  induction keyed as [|x keyed IH]; [reflexivity|]. simpl foldr.
  rewrite insert_by_stable. cbn [List.filter]. rewrite IH. reflexivity.
Qed.
End SortOrder.

Lemma with_keys_pure {K} (key : FileInfo -> K) (files : list FileInfo) :
  with_keys (fun f => Ok (key f)) files = Ok (List.map (fun f => (key f, f)) files).
Proof.
  induction files as [|f files IH]; [reflexivity|]. simpl. rewrite IH. reflexivity.
Qed.

Lemma StronglySorted_map_snd {K} (key : FileInfo -> K) (R : K -> K -> Prop)
    (l : list (K * FileInfo)) :
  Forall (fun p => fst p = key (snd p)) l ->
  StronglySorted (fun a b => R (fst a) (fst b)) l ->
  StronglySorted (fun a b => R (key a) (key b)) (List.map snd l).
Proof.
  intros Hkey Hs. induction Hs as [|p l Hs IH Hp]; simpl; [constructor|].
  inversion Hkey as [|? ? Hk Hkl]; subst.
  constructor; [apply IH; exact Hkl|].
  apply Forall_map. rewrite Forall_forall in Hp, Hkl |- *.
  intros q Hq. simpl. rewrite <- Hk, <- (Hkl q Hq). apply Hp. exact Hq.
Qed.

Lemma filter_map_snd {K} (key : FileInfo -> K) (eqb : K -> K -> bool) (k : K)
    (l : list (K * FileInfo)) :
  Forall (fun p => fst p = key (snd p)) l ->
  List.filter (fun f => eqb (key f) k) (List.map snd l)
  = List.map snd (List.filter (fun p => eqb (fst p) k) l).
Proof.
  induction 1 as [|p l Hp _ IH]; [reflexivity|]. simpl. rewrite <- Hp.
  destruct (eqb (fst p) k); simpl; rewrite IH; reflexivity.
Qed.

(** What [sort_by] gives on files paired with their keys. *)
Lemma sort_by_spec {K} (leb eqb : K -> K -> bool) (key : FileInfo -> K)
    (reverse : bool) (files : list FileInfo) :
  (forall a b, leb a b = true \/ leb b a = true) ->
  (forall a b c, leb a b = true -> leb b c = true -> leb a c = true) ->
  (forall a b k, eqb a k = true -> eqb b k = true -> leb a b = true) ->
  let sorted := sort_by leb reverse (List.map (fun f => (key f, f)) files) in
  sorted ≡ₚ files /\
  StronglySorted (fun a b => in_order leb (negb reverse) (key a) (key b)) sorted /\
  forall k, List.filter (fun f => eqb (key f) k) sorted
            = List.filter (fun f => eqb (key f) k) files.
Proof.
  intros Htotal Htrans Heq sorted.
  assert (Hkeyed : Forall (fun p : K * FileInfo => fst p = key (snd p))
                     (List.map (fun f => (key f, f)) files)).
  { apply Forall_map. apply Forall_forall. reflexivity. }
  assert (Hsnd : List.map snd (List.map (fun f => (key f, f)) files) = files).
  { rewrite map_map. simpl. apply map_id. }
  subst sorted. unfold sort_by. set (keyed := List.map (fun f => (key f, f)) files) in *.
  set (before := if reverse then fun a b => leb b a else leb).
  assert (Hbt : forall a b, before a b = true \/ before b a = true)
    by (intros a b; unfold before; destruct reverse; auto).
  assert (Hbtr : forall a b c, before a b = true -> before b c = true -> before a c = true)
    by (intros a b c; unfold before; destruct reverse; eauto).
  assert (Hbe : forall a b k, eqb a k = true -> eqb b k = true -> before a b = true)
    by (intros a b k; unfold before; destruct reverse; eauto).
  assert (Hperm : foldr (insert_by before) [] keyed ≡ₚ keyed).
  { clear. induction keyed as [|x keyed IH]; simpl; [reflexivity|].
    rewrite insert_by_perm. constructor. exact IH. }
  assert (Hkeyed' : Forall (fun p : K * FileInfo => fst p = key (snd p))
                      (foldr (insert_by before) [] keyed)).
  { rewrite Hperm. exact Hkeyed. }
  split; [|split].
  - rewrite Hperm, Hsnd. reflexivity.
  - apply (StronglySorted_map_snd key (fun a b => in_order leb (negb reverse) a b));
      [exact Hkeyed'|].
    assert (Hs := sort_sorted before Hbt Hbtr keyed).
    clear -Hs. induction Hs as [|p l Hs IH Hp]; constructor; [exact IH|].
    eapply Forall_impl; [exact Hp|]. intros q Hq. simpl in Hq.
    unfold in_order, before in *. destruct reverse; exact Hq.
  - intros k. rewrite (filter_map_snd key eqb k _ Hkeyed').
    rewrite (sort_stable before eqb Hbe k keyed).
    rewrite <- (filter_map_snd key eqb k _ Hkeyed), Hsnd. reflexivity.
Qed.

Lemma str_leb_total (a b : str) : str_leb a b = true \/ str_leb b a = true.
Proof.
  revert b. induction a as [|x a IH]; intros [|y b]; simpl; auto.
  destruct (N.ltb_spec x y), (N.ltb_spec y x), (N.eqb_spec x y), (N.eqb_spec y x);
    simpl; auto; try lia.
Qed.

Lemma str_leb_trans (a b c : str) :
  str_leb a b = true -> str_leb b c = true -> str_leb a c = true.
Proof.
  revert b c. induction a as [|x a IH]; intros [|y b] [|z c]; simpl; auto; try discriminate.
  destruct (N.ltb_spec x y), (N.ltb_spec y z), (N.ltb_spec x z),
    (N.eqb_spec x y), (N.eqb_spec y z), (N.eqb_spec x z);
    simpl; auto; try discriminate; try lia.
  apply IH.
Qed.

Lemma str_leb_refl (a : str) : str_leb a a = true.
Proof.
  induction a as [|x a IH]; [reflexivity|]. simpl.
  rewrite N.eqb_refl, IH. apply orb_true_r.
Qed.

(** X12: with the order [date] or [size] the files come back as a
    rearrangement of the input, ordered by modification time or by size,
    ascending or descending as configured, and files with the same key
    keep the order they had. *)
Theorem sort_files_by_number (lib : Library) (config : MergeConfig)
    (key : FileInfo -> Z) (files : list FileInfo) :
  (cfg_sort_order config = lit "date" /\ key = fi_modified) \/
  (cfg_sort_order config = lit "size" /\ key = fi_size) ->
  exists sorted,
    sort_files lib config files = Ok sorted /\
    sorted ≡ₚ files /\
    StronglySorted
      (fun a b => in_order Z.leb (cfg_sort_ascending config) (key a) (key b)) sorted /\
    forall k, List.filter (fun f => Z.eqb (key f) k) sorted
              = List.filter (fun f => Z.eqb (key f) k) files.
Proof.
  intros Horder.
  assert (Hspec := sort_by_spec Z.leb Z.eqb key (negb (cfg_sort_ascending config)) files).
  rewrite negb_involutive in Hspec.
  assert (Hrun : sort_files lib config files
                 = Ok (sort_by Z.leb (negb (cfg_sort_ascending config))
                         (List.map (fun f => (key f, f)) files))).
  { unfold sort_files, datetime in *. destruct Horder as [[Ho ->]|[Ho ->]]; rewrite Ho.
    - change (str_eqb (lit "date") (lit "alphabetical")) with false.
      change (str_eqb (lit "date") (lit "natural")) with false.
      change (str_eqb (lit "date") (lit "date")) with true.
      cbv iota. rewrite (with_keys_pure fi_modified). reflexivity.
    - change (str_eqb (lit "size") (lit "alphabetical")) with false.
      change (str_eqb (lit "size") (lit "natural")) with false.
      change (str_eqb (lit "size") (lit "date")) with false.
      change (str_eqb (lit "size") (lit "size")) with true.
      cbv iota. rewrite (with_keys_pure fi_size). reflexivity. }
  eexists. split; [exact Hrun|]. apply Hspec.
  - intros a b. rewrite !Z.leb_le. lia.
  - intros a b c. rewrite !Z.leb_le. lia.
  - intros a b k. rewrite !Z.eqb_eq, Z.leb_le. lia.
Qed.

Lemma sort_files_by_number_witness :
  exists sorted,
    sort_files example_library (sorting_config "size" false)
      [example_sized "a.md" 2 0; example_sized "b.md" 9 0; example_sized "c.md" 2 1]
    = Ok sorted /\
    sorted = [example_sized "b.md" 9 0; example_sized "a.md" 2 0; example_sized "c.md" 2 1].
Proof.
  destruct (sort_files_by_number example_library (sorting_config "size" false) fi_size
              [example_sized "a.md" 2 0; example_sized "b.md" 9 0; example_sized "c.md" 2 1])
    as (sorted & H & _); [right; split; reflexivity|].
  exists sorted. split; [exact H|].
  vm_compute in H. injection H as <-. reflexivity.
Defined.

Lemma str_leb_antisym (a b : str) :
  str_leb a b = true -> str_leb b a = true -> a = b.
Proof.
  revert b. induction a as [|x a IH]; intros [|y b]; simpl; try discriminate; auto.
  destruct (N.ltb_spec x y), (N.ltb_spec y x), (N.eqb_spec x y), (N.eqb_spec y x);
    simpl; try discriminate; try lia.
  intros Hab Hba. subst. f_equal. apply IH; assumption.
Qed.

(** X13: with the order [alphabetical] the files come back as a
    rearrangement of the input, ordered by their lower-cased path text,
    ascending or descending as configured, and files whose lower-cased
    paths agree keep the order they had. *)
Theorem sort_files_alphabetical (lib : Library) (config : MergeConfig)
    (files : list FileInfo) :
  cfg_sort_order config = lit "alphabetical" ->
  let key := fun f => str_lower lib (path_str (fi_path f)) in
  exists sorted,
    sort_files lib config files = Ok sorted /\
    sorted ≡ₚ files /\
    StronglySorted
      (fun a b => in_order str_leb (cfg_sort_ascending config) (key a) (key b)) sorted /\
    forall k, List.filter (fun f => str_eqb (key f) k) sorted
              = List.filter (fun f => str_eqb (key f) k) files.
Proof.
  intros Horder key.
  assert (Hspec := sort_by_spec str_leb str_eqb key (negb (cfg_sort_ascending config)) files).
  rewrite negb_involutive in Hspec.
  eexists. split.
  - unfold sort_files. rewrite Horder.
    change (str_eqb (lit "alphabetical") (lit "alphabetical")) with true.
    cbv iota. rewrite (with_keys_pure key). reflexivity.
  - apply Hspec.
    + apply str_leb_total.
    + apply str_leb_trans.
    + intros a b k Ha Hb. apply str_eqb_eq in Ha, Hb. subst. apply str_leb_refl.
Qed.

Lemma sort_files_alphabetical_witness :
  exists sorted,
    sort_files example_library (sorting_config "alphabetical" true)
      [example_sized "b.md" 1 0; example_sized "A.md" 2 0; example_sized "a.md" 3 0]
    = Ok sorted /\
    sorted = [example_sized "A.md" 2 0; example_sized "a.md" 3 0; example_sized "b.md" 1 0].
Proof.
  destruct (sort_files_alphabetical example_library (sorting_config "alphabetical" true)
              [example_sized "b.md" 1 0; example_sized "A.md" 2 0; example_sized "a.md" 3 0])
    as (sorted & H & _); [reflexivity|].
  exists sorted. split; [exact H|].
  vm_compute in H. injection H as <-. reflexivity.
Defined.

Lemma key_leb_total (a b : list key_item) : key_leb a b = true \/ key_leb b a = true.
Proof.
  revert b. induction a as [|[x|x] a IH]; intros [|[y|y] b]; simpl; auto.
  - destruct (Z.ltb_spec x y), (Z.ltb_spec y x), (Z.eqb_spec x y), (Z.eqb_spec y x);
      simpl; auto; try lia.
  - destruct (str_leb y x) eqn:Eyx, (str_leb x y) eqn:Exy; simpl; auto.
    assert (x = y) by (apply str_leb_antisym; assumption). subst.
    assert (Hr : str_eqb y y = true) by (apply str_eqb_eq; reflexivity).
    rewrite Hr. simpl. apply IH.
Qed.

Lemma key_leb_trans (a b c : list key_item) :
  key_leb a b = true -> key_leb b c = true -> key_leb a c = true.
Proof.
  revert b c. induction a as [|[x|x] a IH]; intros [|[y|y] b] [|[z|z] c]; simpl;
    auto; try discriminate.
  - destruct (Z.ltb_spec x y), (Z.ltb_spec y z), (Z.ltb_spec x z),
      (Z.eqb_spec x y), (Z.eqb_spec y z), (Z.eqb_spec x z);
      simpl; auto; try discriminate; try lia.
    apply IH.
  - intros H1 H2.
    destruct (str_eqb x y) eqn:Exy; [apply str_eqb_eq in Exy; subst x|];
      (destruct (str_eqb y z) eqn:Eyz; [apply str_eqb_eq in Eyz; subst z|]).
    + rewrite str_leb_refl in *. simpl in *. eauto.
    + rewrite andb_false_l, orb_false_r in H2. rewrite H2. reflexivity.
    + rewrite andb_false_l, orb_false_r in H1. rewrite H1. reflexivity.
    + rewrite andb_false_l, orb_false_r in H1, H2.
      apply negb_true_iff in H1, H2.
      destruct (str_leb z x) eqn:Ezx; [|reflexivity].
      assert (Hxy : str_leb x y = true) by (destruct (str_leb_total x y); congruence).
      rewrite (str_leb_trans z x y Ezx Hxy) in H2. discriminate.
Qed.

Lemma with_keys_ok {K} (key : FileInfo -> res K) (d : K) (files : list FileInfo) keyed :
  with_keys key files = Ok keyed ->
  let key' := fun f => match key f with Ok k => k | Raise _ => d end in
  keyed = List.map (fun f => (key' f, f)) files /\
  Forall (fun f => key f = Ok (key' f)) files.
Proof.
  intros H key'. revert keyed H. induction files as [|f files IH]; intros keyed; simpl.
  - intros [= <-]. split; constructor.
  - unfold key' at 1 3. destruct (key f) as [k|e] eqn:Ek; simpl; [|discriminate].
    destruct (with_keys key files) as [rest|e]; simpl; [|discriminate].
    intros [= <-]. destruct (IH rest eq_refl) as [-> Hall].
    split; [reflexivity|]. constructor; [|exact Hall]. rewrite Ek. reflexivity.
Qed.

(** X14: with the order [natural], whenever the sort returns, every file
    has a natural key, and the files come back as a rearrangement of the
    input ordered by these keys, ascending or descending as configured;
    files whose keys compare equal keep the order they had. *)
Theorem sort_files_natural (lib : Library) (config : MergeConfig)
    (files sorted : list FileInfo) :
  cfg_sort_order config = lit "natural" ->
  sort_files lib config files = Ok sorted ->
  exists key : FileInfo -> list key_item,
    Forall (fun f => natural_sort_key lib (path_str (fi_path f)) = Ok (key f)) files /\
    sorted ≡ₚ files /\
    StronglySorted
      (fun a b => in_order key_leb (cfg_sort_ascending config) (key a) (key b)) sorted /\
    forall k, List.filter (fun f => key_leb (key f) k && key_leb k (key f)) sorted
              = List.filter (fun f => key_leb (key f) k && key_leb k (key f)) files.
Proof.
  intros Horder. unfold sort_files. rewrite Horder.
  change (str_eqb (lit "natural") (lit "alphabetical")) with false.
  change (str_eqb (lit "natural") (lit "natural")) with true. cbv iota.
  destruct (with_keys _ files) as [keyed|e] eqn:Ek; simpl; [|discriminate].
  intros [= <-].
  destruct (with_keys_ok _ [] files keyed Ek) as [-> Hall].
  eexists. split; [exact Hall|].
  assert (Hspec := sort_by_spec key_leb (fun a b => key_leb a b && key_leb b a)
                     (fun f => match natural_sort_key lib (path_str (fi_path f)) with
                               | Ok k => k | Raise _ => [] end)
                     (negb (cfg_sort_ascending config)) files).
  rewrite negb_involutive in Hspec. apply Hspec.
  - apply key_leb_total.
  - apply key_leb_trans.
  - intros a b k Ha Hb. apply andb_true_iff in Ha as [Ha _], Hb as [_ Hb].
    eapply key_leb_trans; eassumption.
Qed.

Lemma sort_files_natural_witness :
  exists sorted,
    sort_files example_library (sorting_config "natural" true)
      [example_sized "doc10.md" 1 0; example_sized "doc9.md" 2 0; example_sized "Doc1.md" 3 0]
    = Ok sorted /\
    sorted = [example_sized "Doc1.md" 3 0; example_sized "doc9.md" 2 0;
              example_sized "doc10.md" 1 0].
Proof.
  assert (H : sort_files example_library (sorting_config "natural" true)
      [example_sized "doc10.md" 1 0; example_sized "doc9.md" 2 0; example_sized "Doc1.md" 3 0]
    = Ok [example_sized "Doc1.md" 3 0; example_sized "doc9.md" 2 0;
          example_sized "doc10.md" 1 0]) by (vm_compute; reflexivity).
  destruct (sort_files_natural example_library (sorting_config "natural" true) _ _
              eq_refl H) as (key & _).
  eexists. split; [exact H | reflexivity].
Defined.

(** ** The preview of a discovered file *)

Lemma join_lines_snoc (ls : list str) (l : str) :
  ls <> [] -> join_lines (ls ++ [l]) = join_lines ls ++ LF :: l.
Proof.
  induction ls as [|a ls IH]; [done|]. intros _.
  destruct ls as [|b ls]; [reflexivity|].
  change ((a :: b :: ls) ++ [l]) with (a :: ((b :: ls) ++ [l])).
  rewrite join_lines_cons by (simpl; discriminate).
  rewrite IH by discriminate.
  rewrite (join_lines_cons a (b :: ls)) by discriminate.
  rewrite <- app_assoc. reflexivity.
Qed.

Lemma before_last_nl_spec (s : str) :
  ((LF ∉ s) /\ before_last_nl s = s) \/
  (exists tail, s = before_last_nl s ++ LF :: tail /\ LF ∉ tail).
Proof.
  unfold before_last_nl.
  pose proof (join_split_lines s) as Hjoin.
  pose proof (split_lines_no_LF s) as Hfree.
  destruct (split_lines s) as [|l [|l' ls]] eqn:E.
  - exfalso. exact (split_lines_nonempty s E).
  - left. split; [|reflexivity]. simpl in Hjoin. subst s. by inversion Hfree.
  - right. remember (l :: l' :: ls) as lines eqn:El.
    assert (Hne : lines <> []) by (subst; discriminate).
    destruct (exists_last Hne) as (init & final & Hsplit).
    exists final. rewrite Hsplit in *. rewrite removelast_last. split.
    + rewrite <- Hjoin at 1. apply join_lines_snoc.
      destruct init; [|discriminate]. subst. discriminate.
    + apply Forall_app in Hfree as [_ Hfinal]. by inversion Hfinal.
Qed.

(** X15: the preview of a readable file is its whole text when that is
    shorter than 500 characters; otherwise it is a beginning of the text,
    of at most 500 characters, followed by three dots, and when the first
    500 characters hold a line feed the kept part stops just before the
    last of them. *)
Theorem analyze_file_preview (lib : Library) (filepath : path) (size : Z)
    (mtime : datetime) (bytes : list N) :
  let text := read_text_replace lib bytes in
  let preview := fi_preview (analyze_file lib filepath size mtime (Some bytes)) in
  if (length text <? 500)%nat then preview = text
  else exists kept,
         preview = kept ++ lit "..." /\
         kept `prefix_of` text /\
         (length kept <= 500)%nat /\
         (LF ∈ take 500 text ->
          exists last_line, take 500 text = kept ++ LF :: last_line /\ LF ∉ last_line).
Proof.
  intros text preview. subst preview. unfold analyze_file. cbn [fi_preview]. fold text.
  destruct (Nat.ltb_spec (length text) 500) as [Hlt|Hge].
  - assert (Hall : take 500 text = text) by (apply take_ge; lia).
    rewrite Hall. destruct (Nat.eqb_spec (length text) 500); [lia | reflexivity].
  - assert (Hlen : length (take 500 text) = 500%nat) by (rewrite length_take; lia).
    rewrite Hlen. rewrite Nat.eqb_refl.
    exists (before_last_nl (take 500 text)). split; [reflexivity|].
    destruct (before_last_nl_spec (take 500 text)) as [[Hno Heq]|(tail & Hsplit & Htail)].
    + rewrite Heq. split; [|split].
      * exists (drop 500 text). symmetry. apply take_drop.
      * lia.
      * intros Hin. contradiction.
    + split; [|split].
      * exists (LF :: tail ++ drop 500 text).
        rewrite <- (take_drop 500 text) at 1. rewrite Hsplit at 1.
        rewrite <- app_assoc. reflexivity.
      * apply (f_equal length) in Hsplit. rewrite Hlen, length_app in Hsplit. lia.
      * intros _. exists tail. split; assumption.
Qed.

(** ** Processing and merging *)

Section MergeMore.
Variable lib : Library.
Variable fs : FileSystem.
Variable config : MergeConfig.

Lemma read_and_process_doc total position f doc :
  read_and_process lib fs config total position f = Ok doc ->
  source_path doc = fi_path f /\ index doc = position /\ total_count doc = total.
Proof.
  unfold read_and_process.
  destruct (safe_read_file fs (fi_path f)) as [content|e]; simpl; [|discriminate].
  unfold process_document.
  destruct (if cfg_strip_front_matter config then _ else _) as [fm rest].
  destruct (stat_file fs (fi_path f)) as [stat|e]; simpl; [|discriminate].
  intros [= <-]. simpl. auto.
Qed.

Lemma merged_docs_numbered total first files :
  Forall (fun doc =>
            (first <= index doc < first + Z.of_nat (length files))%Z /\
            total_count doc = total /\
            exists f, files !! Z.to_nat (index doc - first) = Some f /\
                      source_path doc = fi_path f)
    (merged_docs (outcomes lib fs config total first files)) /\
  StronglySorted (fun a b => (index a < index b)%Z)
    (merged_docs (outcomes lib fs config total first files)).
Proof.
  revert first. induction files as [|f files IH]; intros first; simpl.
  - split; constructor.
  - destruct (IH (first + 1)%Z) as [Hall Hsorted].
    assert (Hall' : Forall (fun doc =>
              (first <= index doc < first + Z.of_nat (S (length files)))%Z /\
              total_count doc = total /\
              exists f0, (f :: files) !! Z.to_nat (index doc - first) = Some f0 /\
                         source_path doc = fi_path f0)
             (merged_docs (outcomes lib fs config total (first + 1) files))).
    { eapply Forall_impl; [exact Hall|]. intros doc (Hrange & Htotal & f0 & Hf0 & Hpath).
      split; [lia|]. split; [exact Htotal|]. exists f0. split; [|exact Hpath].
      replace (Z.to_nat (index doc - first)) with (S (Z.to_nat (index doc - (first + 1))))
        by lia.
      exact Hf0. }
    destruct (read_and_process lib fs config total first f) as [doc|e] eqn:E;
      [|split; assumption].
    apply read_and_process_doc in E as (Hpath & Hindex & Htotal).
    split.
    + constructor; [|exact Hall'].
      split; [lia|]. split; [exact Htotal|]. exists f.
      rewrite Hindex, Z.sub_diag. split; [reflexivity | exact Hpath].
    + constructor; [exact Hsorted|].
      eapply Forall_impl; [exact Hall|]. intros d (Hrange & _). simpl in Hrange. lia.
Qed.

Lemma merge_loop_bytes cancelled_at total warnings files position st st' :
  merge_loop lib fs config cancelled_at total warnings position files st = inl st' ->
  bytes_processed st'
  = (bytes_processed st + processed_size (outcomes lib fs config total position files))%Z.
Proof.
  revert position st. induction files as [|f files IH]; intros position st; simpl.
  - intros [= <-]. lia.
  - destruct (cancelled_at position); [discriminate|].
    intros H. apply IH in H. rewrite H. unfold process_file.
    destruct (read_and_process lib fs config total position f); simpl; lia.
Qed.

Lemma processed_size_bounds os :
  Forall (fun o : FileInfo * res ProcessedDocument => (0 <= fi_size (fst o))%Z) os ->
  (0 <= processed_size os <= py_sum (List.map (fun o => fi_size (fst o)) os))%Z.
Proof.
  induction 1 as [|[f [doc|e]] os Hf _ IH]; simpl in *; rewrite ?py_sum_foldr in *;
    simpl; lia.
Qed.

Lemma outcomes_files total position files :
  List.map fst (outcomes lib fs config total position files) = files.
Proof.
  revert position. induction files as [|f files IH]; intros position; simpl;
    [reflexivity | rewrite IH; reflexivity].
Qed.

(** The documents that the loop leaves when it runs to its end. *)
Lemma merge_loop_docs cancelled_at total warns files position st st' :
  merge_loop lib fs config cancelled_at total warns position files st = inl st' ->
  processed_docs st'
  = processed_docs st ++ merged_docs (outcomes lib fs config total position files).
Proof.
  revert position st. induction files as [|f files IH]; intros position st; simpl.
  - intros [= <-]. rewrite app_nil_r. reflexivity.
  - destruct (cancelled_at position); [discriminate|].
    intros H. apply IH in H. rewrite H. unfold process_file.
    destruct (read_and_process lib fs config total position f); simpl;
      rewrite <- ?app_assoc; reflexivity.
Qed.

(** A loop that runs to its end does so whatever the warnings. *)
Lemma merge_loop_warnings cancelled_at total warns warns' files position st st' :
  merge_loop lib fs config cancelled_at total warns position files st = inl st' ->
  merge_loop lib fs config cancelled_at total warns' position files st = inl st'.
Proof.
  revert position st. induction files as [|f files IH]; intros position st; simpl;
    [auto|].
  destruct (cancelled_at position); [discriminate | apply IH].
Qed.

(** What [merge] writes is what [_write_output] makes of the documents
    of its loop. *)
Lemma merge_written cancelled_at files out warns st text :
  merge_loop lib fs config cancelled_at (Z.of_nat (length files)) warns 1 files
    (mkLoopState [] [] 0) = inl st ->
  written (merge lib fs config cancelled_at files out false) = Some text
  <-> write_output lib fs config out (processed_docs st) = Ok text.
Proof.
  intros Hloop. unfold merge.
  rewrite (merge_loop_warnings _ _ _ (backup_warnings fs config out false) _ _ _ _ Hloop).
  destruct (write_output lib fs config out (processed_docs st)) as [t|e]; cbn.
  - split; intros [= ->]; reflexivity.
  - split; discriminate.
Qed.

Lemma merge_loop_numbered cancelled_at files warns st :
  merge_loop lib fs config cancelled_at (Z.of_nat (length files)) warns 1 files
    (mkLoopState [] [] 0) = inl st ->
  Forall (fun doc =>
            (1 <= index doc <= Z.of_nat (length files))%Z /\
            total_count doc = Z.of_nat (length files) /\
            exists f, files !! Z.to_nat (index doc - 1) = Some f /\
                      source_path doc = fi_path f) (processed_docs st) /\
  StronglySorted (fun a b => (index a < index b)%Z) (processed_docs st).
Proof.
  intros Hloop. apply merge_loop_docs in Hloop. simpl in Hloop. rewrite Hloop.
  destruct (merged_docs_numbered (Z.of_nat (length files)) 1 files) as [Hall Hsorted].
  split; [|exact Hsorted].
  eapply Forall_impl; [exact Hall|]. intros doc (Hrange & Htotal & Hfile).
  split; [lia|]. split; assumption.
Qed.
End MergeMore.

(** X17: when the loop of [merge] runs to its end, every document it
    leaves carries the position of its file in the list given to
    [merge], counted from one with the files that failed included, and
    the length of that list as its total; so the numbers of the
    documents increase strictly, and each lies between one and the
    number of files.  These documents are the ones that [merge]
    writes. *)
Theorem merge_documents_numbered (lib : Library) (fs : FileSystem)
    (config : MergeConfig) (cancelled_at : Z -> bool) (files : list FileInfo)
    (out : path) (warns : list str) (st : loop_state) :
  let total := Z.of_nat (length files) in
  merge_loop lib fs config cancelled_at total warns 1 files (mkLoopState [] [] 0)
    = inl st ->
  Forall (fun doc =>
            (1 <= index doc <= total)%Z /\ total_count doc = total /\
            exists f, files !! Z.to_nat (index doc - 1) = Some f /\
                      source_path doc = fi_path f) (processed_docs st) /\
  StronglySorted (fun a b => (index a < index b)%Z) (processed_docs st) /\
  forall text,
    written (merge lib fs config cancelled_at files out false) = Some text
    <-> write_output lib fs config out (processed_docs st) = Ok text.
Proof.
  intros total Hloop.
  destruct (merge_loop_numbered lib fs config cancelled_at files warns st Hloop)
    as [Hall Hsorted].
  split; [exact Hall|]. split; [exact Hsorted|].
  intros text. eapply merge_written. exact Hloop.
Qed.

Lemma merge_documents_numbered_witness :
  exists st,
    merge_loop example_library example_fs default_config (fun _ => false) 3 [] 1
      example_run_files (mkLoopState [] [] 0) = inl st /\
    List.map (fun doc => (index doc, total_count doc)) (processed_docs st)
    = [(1, 3); (3, 3)]%Z /\
    StronglySorted (fun a b => (index a < index b)%Z) (processed_docs st).
Proof.
  assert (H : exists st,
             merge_loop example_library example_fs default_config (fun _ => false) 3 [] 1
               example_run_files (mkLoopState [] [] 0) = inl st)
    by (vm_compute; eexists; reflexivity).
  destruct H as [st H]. exists st. split; [exact H|]. split.
  - vm_compute in H. injection H as <-. vm_compute. reflexivity.
  - apply (merge_documents_numbered example_library example_fs default_config
             (fun _ => false) example_run_files [lit "out.md"] [] st H).
Defined.

(** The second of three files cannot be read: the output numbers the
    documents one and three, of three. *)
Example merge_documents_numbered_example :
  contains (lit "*Document 1 of 3*") example_output = true /\
  contains (lit "*Document 2 of 3*") example_output = false /\
  contains (lit "*Document 3 of 3*") example_output = true.
Proof. vm_compute. repeat split. Qed.

(** X18: in a run that no cancellation cuts short, [total_size] is the
    sum of the sizes, as discovery recorded them, of the files that were
    processed, whether or not the write phase then fails; with sizes that
    are not negative it lies between zero and the sum over all files. *)
Theorem merge_total_size (lib : Library) (fs : FileSystem) (config : MergeConfig)
    (cancelled_at : Z -> bool) (files : list FileInfo) (out : path) (dry_run : bool) :
  let os := outcomes lib fs config (Z.of_nat (length files)) 1 files in
  let o := merge lib fs config cancelled_at files out dry_run in
  never_cancelled cancelled_at 1 (length files) ->
  total_size (result o) = processed_size os /\
  (Forall (fun f => (0 <= fi_size f)%Z) files ->
   (0 <= total_size (result o) <= py_sum (List.map fi_size files))%Z).
Proof.
  intros os o Hnc.
  assert (Hsize : total_size (result o) = processed_size os).
  { subst o. unfold merge.
    destruct (merge_loop_completes lib fs config cancelled_at (Z.of_nat (length files))
                (backup_warnings fs config out dry_run) files 1
                (mkLoopState [] [] 0) Hnc) as (st & Hloop & _ & _).
    rewrite Hloop. apply merge_loop_bytes in Hloop. simpl in Hloop. fold os in Hloop.
    destruct (if dry_run then _ else _); simpl; exact Hloop. }
  split; [exact Hsize|]. intros Hpos. rewrite Hsize.
  pose proof (outcomes_files lib fs config (Z.of_nat (length files)) 1 files) as Hfiles.
  fold os in Hfiles.
  assert (Hmap : List.map fi_size files = List.map (fun o' => fi_size (fst o')) os)
    by (rewrite <- Hfiles at 1; apply map_map).
  rewrite Hmap. apply processed_size_bounds.
  apply Forall_forall. intros o' Ho'.
  rewrite Forall_forall in Hpos. apply Hpos. rewrite <- Hfiles.
  apply list_elem_of_fmap. exists o'. split; [reflexivity | exact Ho'].
Qed.

Lemma merge_total_size_witness :
  total_size (result (merge example_library example_fs default_config (fun _ => false)
                        example_run_files [lit "out"; lit "locked.md"] false))
  = 14%Z.
Proof.
  destruct (merge_total_size example_library example_fs default_config (fun _ => false)
              example_run_files [lit "out"; lit "locked.md"] false) as [H _].
  - intros i _. reflexivity.
  - rewrite H. vm_compute. reflexivity.
Defined.

Section MergeTwoSystems.
Variable lib : Library.
Variable fs fs' : FileSystem.
Variable config : MergeConfig.
Variable cancelled_at : Z -> bool.
Hypothesis same_reads : forall p, safe_read_file fs' p = safe_read_file fs p.
Hypothesis same_stats : forall p, stat_file fs' p = stat_file fs p.

Lemma read_and_process_same total position f :
  read_and_process lib fs' config total position f
  = read_and_process lib fs config total position f.
Proof.
  unfold read_and_process, process_document. rewrite same_reads.
  destruct (safe_read_file fs (fi_path f)) as [content|e]; simpl; [|reflexivity].
  rewrite same_stats. reflexivity.
Qed.

Lemma process_file_same total position f st :
  process_file lib fs' config total position f st
  = process_file lib fs config total position f st.
Proof. unfold process_file. rewrite read_and_process_same. reflexivity. Qed.

(** The loop reads the warnings only to hand them back when it is
    cancelled. *)
Lemma merge_loop_same total warns warns' files position st :
  match merge_loop lib fs' config cancelled_at total warns' position files st,
        merge_loop lib fs config cancelled_at total warns position files st with
  | inl st1, inl st2 => st1 = st2
  | inr r1, inr r2 =>
      success r1 = success r2 /\ output_path r1 = output_path r2 /\
      files_merged r1 = files_merged r2 /\ total_size r1 = total_size r2 /\
      errors r1 = errors r2 /\ warnings r1 = warns' /\ warnings r2 = warns
  | _, _ => False
  end.
Proof.
  revert position st. induction files as [|f files IH]; intros position st; simpl.
  - reflexivity.
  - destruct (cancelled_at position); simpl; [auto 10|].
    rewrite process_file_same. apply IH.
Qed.
End MergeTwoSystems.

(** X19: a dry run depends on the file system only through what can be
    read and what [stat] reports: it gives the same result on any two
    file systems that agree there, whatever the output path; it writes
    nothing, reports no output path, and gives no warning. *)
Theorem merge_dry_run (lib : Library) (fs fs' : FileSystem) (config : MergeConfig)
    (cancelled_at : Z -> bool) (files : list FileInfo) (out out' : path) :
  (forall p, safe_read_file fs' p = safe_read_file fs p) ->
  (forall p, stat_file fs' p = stat_file fs p) ->
  let o := merge lib fs config cancelled_at files out true in
  merge lib fs' config cancelled_at files out' true = o /\
  written o = None /\ output_path (result o) = None /\ warnings (result o) = [].
Proof.
  intros Hreads Hstats o. subst o. unfold merge.
  change (backup_warnings fs' config out' true) with (@nil str).
  change (backup_warnings fs config out true) with (@nil str).
  pose proof (merge_loop_same lib fs fs' config cancelled_at Hreads Hstats
                (Z.of_nat (length files)) [] [] files 1 (mkLoopState [] [] 0)) as Hsame.
  destruct (merge_loop lib fs' config _ _ _ _ _ _) as [st1|r1],
           (merge_loop lib fs config _ _ _ _ _ _) as [st2|r2] eqn:Hloop;
    try contradiction.
  - subst st1. simpl. auto.
  - destruct Hsame as (Hs & Hp & Hm & Hz & He & Hw1 & Hw2).
    apply merge_loop_returned in Hloop as (_ & _ & Hnone).
    simpl. repeat split; try assumption.
    destruct r1, r2; simpl in *; congruence.
Qed.

Lemma merge_dry_run_witness :
  merge example_library (with_copy2_error example_fs (fun _ => Some (lit "disk full")))
    default_config (fun _ => false) example_run_files [lit "locked.md"] true
  = merge example_library example_fs default_config (fun _ => false)
      example_run_files [lit "out"; lit "merged.md"] true.
Proof.
  apply (merge_dry_run example_library example_fs
           (with_copy2_error example_fs (fun _ => Some (lit "disk full")))
           default_config (fun _ => false) example_run_files
           [lit "out"; lit "merged.md"] [lit "locked.md"]);
    intros p; reflexivity.
Defined.

(** X20: a backup copy that fails costs a warning and nothing else:
    whatever [shutil.copy2] does, the run has the same success flag,
    output path, counts and errors, and writes the same text; the
    warnings of a run are those of the backup step, one at most. *)
Theorem merge_backup_failure_harmless (lib : Library) (fs : FileSystem)
    (config : MergeConfig) (cancelled_at : Z -> bool) (files : list FileInfo)
    (out : path) (dry_run : bool) (copy2 : path -> option str) :
  let fs' := with_copy2_error fs copy2 in
  let o := merge lib fs config cancelled_at files out dry_run in
  let o' := merge lib fs' config cancelled_at files out dry_run in
  success (result o') = success (result o) /\
  output_path (result o') = output_path (result o) /\
  files_merged (result o') = files_merged (result o) /\
  total_size (result o') = total_size (result o) /\
  errors (result o') = errors (result o) /\
  written o' = written o /\
  warnings (result o') = backup_warnings fs' config out dry_run /\
  (length (warnings (result o')) <= 1)%nat.
Proof.
  intros fs' o o'. subst o o'. unfold merge.
  pose proof (merge_loop_same lib fs fs' config cancelled_at
                (fun _ => eq_refl) (fun _ => eq_refl)
                (Z.of_nat (length files)) (backup_warnings fs config out dry_run)
                (backup_warnings fs' config out dry_run) files 1
                (mkLoopState [] [] 0)) as Hsame.
  assert (Hlen : (length (backup_warnings fs' config out dry_run) <= 1)%nat).
  { unfold backup_warnings. destruct (_ && _); [|simpl; lia].
    destruct (copy2_error fs' out); simpl; lia. }
  destruct (merge_loop lib fs' config _ _ _ _ _ _) as [st1|r1],
           (merge_loop lib fs config _ _ _ _ _ _) as [st2|r2];
    try contradiction.
  - subst st1.
    change (write_output lib fs' config out (processed_docs st2))
      with (write_output lib fs config out (processed_docs st2)).
    destruct (if dry_run then _ else _) as [text|e]; simpl; auto 10.
  - destruct Hsame as (Hs & Hp & Hm & Hz & He & Hw1 & Hw2). simpl.
    rewrite Hw1. auto 10.
Qed.

(** The output exists and cannot be copied: one warning, and the merge
    succeeds. *)
Example merge_backup_failure_run :
  let fs := mkFileSystem (read_bytes example_fs) (safe_read_file example_fs)
              (stat_file example_fs) (fun _ => true)
              (fun _ => Some (lit "disk full"))
              (open_error example_fs) (write_error example_fs) in
  let r := result (merge example_library fs default_config (fun _ => false)
                     [example_file "a.md"] [lit "out.md"] false) in
  success r = true /\ warnings r = [lit "Could not create backup: disk full"].
Proof. vm_compute. split; reflexivity. Qed.

(** ** The text of the output *)

Lemma bind_ok {A B} (r : res A) (k : A -> res B) (b : B) :
  res_bind r k = Ok b -> exists a, r = Ok a /\ k a = Ok b.
Proof. destruct r as [a|e]; [eauto | discriminate]. Qed.

Section WriteMore.
Variable lib : Library.
Variable fs : FileSystem.
Variable config : MergeConfig.
Variable out : path.

Lemma f_write_ok (written text written' : str) :
  f_write fs out written text = Ok written' ->
  write_error fs out text = None /\ written' = written ++ text.
Proof.
  unfold f_write. destruct (write_error fs out text); [discriminate|].
  intros [= <-]. auto.
Qed.

(** What a write adds does not depend on what the output holds. *)
Lemma f_write_if_ok (written text line written' : str) :
  f_write_if fs out written text line = Ok written' ->
  exists piece,
    written' = written ++ piece /\
    forall w, f_write_if fs out w text line = Ok (w ++ piece).
Proof.
  unfold f_write_if, f_write. destruct text as [|c text].
  - intros [= <-]. exists []. split; [rewrite app_nil_r; reflexivity|].
    intros w. rewrite app_nil_r. reflexivity.
  - destruct (write_error fs out line); [discriminate|].
    intros [= <-]. exists line. auto.
Qed.

(** One turn of the loop that succeeds: the document's block, as it is
    written alone, then the separator when documents follow. *)
Lemma write_documents_step doc rest written text :
  write_documents lib fs config out (doc :: rest) written = Ok text ->
  exists block,
    write_documents lib fs config out [doc] [] = Ok block /\
    match rest with
    | [] => text = written ++ block
    | _ =>
        write_documents lib fs config out rest
          (written ++ block ++ generate_separator config) = Ok text
    end.
Proof.
  cbn [write_documents]. intros H.
  apply bind_ok in H as (w1 & H1 & H). apply f_write_if_ok in H1 as (p1 & -> & H1).
  apply bind_ok in H as (w2 & H2 & H). apply f_write_if_ok in H2 as (p2 & -> & H2).
  apply bind_ok in H as (w3 & H3 & H). apply f_write_if_ok in H3 as (p3 & -> & H3).
  apply bind_ok in H as (header & Hheader & H).
  apply bind_ok in H as (w4 & H4 & H). apply f_write_ok in H4 as (E4 & ->).
  apply bind_ok in H as (w5 & H5 & H). apply f_write_ok in H5 as (E5 & ->).
  apply bind_ok in H as (w6 & H6 & H). apply f_write_if_ok in H6 as (p4 & -> & H6).
  apply bind_ok in H as (w7 & H7 & H).
  exists (p1 ++ p2 ++ p3 ++ (header ++ [LF; LF]) ++ processed_content doc ++ p4).
  split.
  - rewrite H1. cbn [res_bind]. rewrite H2. cbn [res_bind]. rewrite H3. cbn [res_bind].
    rewrite Hheader. cbn [res_bind]. unfold f_write at 1 2. rewrite E4, E5.
    cbn [res_bind]. rewrite H6. cbn [res_bind]. f_equal.
    rewrite <- !app_assoc. reflexivity.
  - destruct rest as [|next rest].
    + injection H7 as <-. cbn [write_documents] in H. injection H as <-.
      rewrite <- !app_assoc. reflexivity.
    + apply f_write_ok in H7 as (_ & ->). rewrite <- H. f_equal.
      rewrite <- !app_assoc. reflexivity.
Qed.

Lemma write_documents_blocks_from documents written text :
  write_documents lib fs config out documents written = Ok text ->
  exists blocks,
    Forall2 (fun doc block => write_documents lib fs config out [doc] [] = Ok block)
      documents blocks /\
    text = written ++ join_with (generate_separator config) blocks.
Proof.
  revert written text. induction documents as [|doc rest IH]; intros written text.
  - intros [= <-]. exists []. split; [constructor | rewrite app_nil_r; reflexivity].
  - intros H. apply write_documents_step in H as (block & Hblock & H).
    destruct rest as [|next rest].
    + exists [block]. split; [repeat constructor; exact Hblock | exact H].
    + apply IH in H as (blocks & Hblocks & ->).
      exists (block :: blocks). split; [constructor; assumption|].
      inversion Hblocks; subst. cbn [join_with]. rewrite <- !app_assoc. reflexivity.
Qed.

Hypothesis writes : forall text, write_error fs out text = None.



End WriteMore.

(** X21: when the documents are written without an exception, what the
    loop adds to the output is the blocks of the documents, each as it
    is written alone, with the separator between consecutive blocks and
    none after the last. *)
Theorem write_documents_blocks (lib : Library) (fs : FileSystem) (config : MergeConfig)
    (out : path) (documents : list ProcessedDocument) (text : str) :
  write_documents lib fs config out documents [] = Ok text ->
  exists blocks,
    Forall2 (fun doc block => write_documents lib fs config out [doc] [] = Ok block)
      documents blocks /\
    text = join_with (generate_separator config) blocks.
Proof. apply write_documents_blocks_from. Qed.

Lemma write_documents_blocks_witness :
  exists blocks,
    length blocks = 2%nat /\
    write_documents example_library example_fs default_config [lit "out.md"]
      (merged_docs (outcomes example_library example_fs default_config 3 1
                      example_run_files)) []
    = Ok (join_with (generate_separator default_config) blocks).
Proof.
  assert (H : exists text,
             write_documents example_library example_fs default_config [lit "out.md"]
               (merged_docs (outcomes example_library example_fs default_config 3 1
                               example_run_files)) [] = Ok text)
    by (vm_compute; eexists; reflexivity).
  destruct H as [text H].
  destruct (write_documents_blocks example_library example_fs default_config
              [lit "out.md"] _ text H)
    as (blocks & Hblocks & Htext).
  exists blocks. split.
  - apply Forall2_length in Hblocks. rewrite <- Hblocks. reflexivity.
  - rewrite H, Htext. reflexivity.
Defined.



(** A text that the output encoding cannot take stops the loop before
    the header of the next document is made. *)
Example write_documents_write_error :
  let fs := mkFileSystem (read_bytes example_fs) (safe_read_file example_fs)
              (stat_file example_fs) (path_exists example_fs) (copy2_error example_fs)
              (open_error example_fs)
              (fun _ text => if contains (lit "# Title") text
                             then Some (Exn OtherError (lit "codec can't encode"))
                             else None) in
  write_output example_library fs default_config [lit "out.md"]
    (merged_docs (outcomes example_library example_fs default_config 3 1
                    example_run_files))
  = Raise (Exn OtherError (lit "codec can't encode")).
Proof. vm_compute. reflexivity. Qed.

(** ** The headers of a text *)

Lemma rstrip_sub (P : char -> Prop) (s : str) : Forall P s -> Forall P (rstrip s).
Proof.
  induction 1 as [|c s Hc _ IH]; simpl; [constructor|].
  destruct (rstrip s) as [|y r].
  - destruct (is_space c); repeat constructor. exact Hc.
  - constructor; assumption.
Qed.

Lemma strip_sub (P : char -> Prop) (s : str) : Forall P s -> Forall P (strip s).
Proof. intros H. apply rstrip_sub, drop_while_sub, H. Qed.

Lemma is_dot_LF (s : str) : Forall (fun c => is_dot c = true) s -> LF ∉ s.
Proof.
  intros H Hin. rewrite Forall_forall in H. specialize (H LF Hin). discriminate.
Qed.

(** What a match of the header pattern of [extract_headers] holds. *)
Lemma header_text_at_inv (prev : option char) (s : str) (n : nat) (text : str)
    (len : nat) :
  header_text_at prev s = Some ((n, text), len) ->
  1 <= n <= 6 /\ Forall (fun c => is_dot c = true) text.
Proof.
  unfold header_text_at.
  destruct (at_line_start prev); [|discriminate].
  destruct (_ && _) eqn:Hn; [|discriminate].
  apply andb_true_iff in Hn as [H1 H6].
  apply Nat.leb_le in H1, H6.
  destruct (take_while is_space _) as [|w ws]; [discriminate|].
  destruct (drop _ s) as [|c rest] eqn:Erest.
  - destruct (last_dot ws 1) as [j|] eqn:Ej; [|discriminate].
    intros [= <- <- _]. split; [lia|].
    assert (Hj : forall ws i j, last_dot ws i = Some j ->
                   i <= j /\ exists c, ws !! (j - i) = Some c /\ is_dot c = true).
    { clear. induction ws as [|c ws IH]; intros i j; simpl; [discriminate|].
      destruct (last_dot ws (S i)) as [j'|] eqn:E.
      - intros [= ->]. destruct (IH _ _ E) as (Hle & c' & Hc' & Hdot).
        split; [lia|]. exists c'. split; [|exact Hdot].
        replace (j - i) with (S (j - S i)) by lia. exact Hc'.
      - destruct (is_dot c) eqn:Hc; [|discriminate]. intros [= ->].
        split; [lia|]. exists c. rewrite Nat.sub_diag. auto. }
    destruct (Hj _ _ _ Ej) as (Hle & c & Hc & Hdot).
    destruct j as [|j]; [lia|]. simpl drop.
    replace (S j - 1) with j in Hc by lia.
    rewrite (drop_S ws c j Hc). simpl. repeat constructor. exact Hdot.
  - intros [= <- <- _]. split; [lia|]. exact (take_while_all is_dot (c :: rest)).
Qed.

Lemma scan_header_texts prev s :
  Forall (fun m : nat * str =>
            1 <= fst m <= 6 /\ Forall (fun c => is_dot c = true) (snd m))
    (matches_of (scan header_text_at prev s)).
Proof.
  pattern prev, s, (scan header_text_at prev s). apply scan_ind; clear prev s.
  - intros prev. constructor.
  - intros prev c s' [n text] len Hm IH.
    apply header_text_at_inv in Hm.
    unfold matches_of in *. simpl. constructor; [exact Hm | exact IH].
  - intros prev c s' _ IH. exact IH.
Qed.

(** X23: every header that [extract_headers] returns has a level from 1
    to 6 that is at most [max_depth], and a text that holds no line feed
    and neither begins nor ends with a space character; [max_depth] only
    filters: the result is the part, of the result for depth 6, with the
    levels up to [max_depth]. *)
Theorem extract_headers_entries (content : str) (max_depth : Z) :
  Forall (fun h : Z * str =>
            (1 <= fst h <= 6)%Z /\ (fst h <= max_depth)%Z /\ (LF ∉ snd h) /\
            match snd h with [] => True | c :: _ => is_space c = false end /\
            forall b c, snd h = b ++ [c] -> is_space c = false)
    (Helpers.extract_headers content max_depth) /\
  Helpers.extract_headers content max_depth
  = List.filter (fun h => (fst h <=? max_depth)%Z) (Helpers.extract_headers content 6).
Proof.
  unfold Helpers.extract_headers, re_finditer.
  pose proof (scan_header_texts None content) as Hall.
  induction Hall as [|[n text] ms (Hn & Htext) _ [IH1 IH2]]; [split; [constructor | reflexivity]|].
  cbn [omap list_omap fst snd] in *.
  destruct (Z.leb_spec (Z.of_nat n) 6) as [_|]; [|lia].
  cbn [List.filter fst].
  destruct (Z.leb_spec (Z.of_nat n) max_depth) as [Hd|Hd].
  - split; [|f_equal; exact IH2].
    constructor; [|exact IH1]. cbn [fst snd].
    split; [lia|]. split; [exact Hd|]. split; [|split].
    + apply is_dot_LF, strip_sub, Htext.
    + apply strip_head.
    + intros b c. apply strip_last.
  - split; [exact IH1 | exact IH2].
Qed.

(** A line that holds only [#] takes the next line that has text as its
    header text; a line of seven [#] is no header. *)
Example extract_headers_next_line :
  Helpers.extract_headers (lit "#" ++ [LF] ++ lit "text" ++ [LF] ++ lit "####### x") 6
  = [(1%Z, lit "text")].
Proof. vm_compute. reflexivity. Qed.

(** ** The list of recent projects *)

Lemma list_remove_absent (x : str) (l : list str) :
  x ∉ l -> list_remove x l = l.
Proof.
  induction l as [|y l IH]; [reflexivity|]. intros H.
  apply not_elem_of_cons in H as [Hxy Hl]. simpl.
  destruct (str_eqb y x) eqn:E; [apply str_eqb_eq in E; congruence|].
  rewrite IH by exact Hl. reflexivity.
Qed.

Lemma list_remove_sublist (x : str) (l : list str) : list_remove x l `sublist_of` l.
Proof.
  induction l as [|y l IH]; simpl; [constructor|].
  destruct (str_eqb y x); [apply sublist_cons, reflexivity | apply sublist_skip, IH].
Qed.

Lemma list_remove_gone (x : str) (l : list str) :
  NoDup l -> x ∉ list_remove x l.
Proof.
  induction 1 as [|y l Hy Hnd IH]; simpl; [apply not_elem_of_nil|].
  destruct (str_eqb y x) eqn:Ey.
  - apply str_eqb_eq in Ey. subst y. exact Hy.
  - apply str_eqb_neq in Ey. apply not_elem_of_cons. split; [congruence | exact IH].
Qed.

Lemma existsb_str_eqb (x : str) (l : list str) :
  existsb (str_eqb x) l = true <-> x ∈ l.
Proof.
  rewrite existsb_exists. split.
  - intros (y & Hy & E). apply str_eqb_eq in E. subst. apply list_elem_of_In. exact Hy.
  - intros H. exists x. split; [apply list_elem_of_In; exact H | apply str_eqb_eq; reflexivity].
Qed.

(** X24: with a positive [max_recent], [add_recent_project] puts the
    project first, keeps at most [max_recent] entries, keeps the other
    entries in the order they had, leaves a list without repetition
    without repetition, and gives the same list when the same project is
    added again. *)
Theorem add_recent_project_front (recent_projects : list str) (max_recent : Z)
    (project_path : str) :
  (0 < max_recent)%Z ->
  let updated := add_recent_project recent_projects max_recent project_path in
  head updated = Some project_path /\
  (Z.of_nat (length updated) <= max_recent)%Z /\
  tail updated `sublist_of` recent_projects /\
  (NoDup recent_projects -> NoDup updated) /\
  add_recent_project updated max_recent project_path = updated.
Proof.
  intros Hmax updated.
  set (others := if existsb (str_eqb project_path) recent_projects
                 then list_remove project_path recent_projects
                 else recent_projects).
  assert (Hupd : updated = project_path :: take (Z.to_nat max_recent - 1) others).
  { subst updated. unfold add_recent_project, slice_to. fold others.
    destruct (Z.leb_spec 0 max_recent); [|lia].
    destruct (Z.to_nat max_recent) as [|m] eqn:Em; [lia|].
    simpl. rewrite Nat.sub_0_r. reflexivity. }
  assert (Hsub : others `sublist_of` recent_projects).
  { subst others. destruct (existsb _ _); [apply list_remove_sublist | reflexivity]. }
  assert (Habsent : NoDup recent_projects -> project_path ∉ others).
  { intros Hnd. subst others.
    destruct (existsb _ recent_projects) eqn:E.
    - apply list_remove_gone, Hnd.
    - intros Hin. apply existsb_str_eqb in Hin. congruence. }
  rewrite Hupd. split; [reflexivity|]. split; [|split; [|split]].
  - simpl. rewrite length_take. lia.
  - simpl. etransitivity; [apply sublist_take | exact Hsub].
  - intros Hnd. constructor.
    + intros Hin. apply (Habsent Hnd).
      eapply elem_of_sublist; [exact Hin | apply sublist_take].
    + apply (sublist_NoDup _ recent_projects); [exact Hnd|].
      transitivity others; [apply sublist_take | exact Hsub].
  - unfold add_recent_project, slice_to.
    destruct (Z.leb_spec 0 max_recent); [|lia].
    assert (Hr : str_eqb project_path project_path = true) by (apply str_eqb_eq; reflexivity).
    cbn [existsb list_remove]. rewrite Hr. cbn [orb].
    destruct (Z.to_nat max_recent) as [|m] eqn:Em; [lia|].
    simpl. rewrite Nat.sub_0_r. f_equal. rewrite take_take. f_equal. lia.
Qed.

Lemma add_recent_project_front_witness :
  head (add_recent_project [lit "a"; lit "b"; lit "c"] 3 (lit "b")) = Some (lit "b") /\
  add_recent_project [lit "a"; lit "b"; lit "c"] 3 (lit "b") = [lit "b"; lit "a"; lit "c"] /\
  add_recent_project [lit "a"; lit "b"; lit "c"] 3 (lit "d") = [lit "d"; lit "a"; lit "b"].
Proof.
  split.
  - exact (proj1 (add_recent_project_front [lit "a"; lit "b"; lit "c"] 3 (lit "b")
                    eq_refl)).
  - split; vm_compute; reflexivity.
Defined.

(** With [max_recent = -1] the slice drops the last entry instead, and
    adding the same project twice is not adding it once. *)
Example add_recent_project_negative :
  add_recent_project [lit "a"] (-1) (lit "p") = [lit "p"] /\
  add_recent_project [lit "p"] (-1) (lit "p") = [].
Proof. vm_compute. split; reflexivity. Qed.

(** ** Adding paths to the list of files *)

Lemma NoDup_map_filter {A B} (f : A -> B) (p : A -> bool) (l : list A) :
  NoDup (List.map f l) -> NoDup (List.map f (List.filter p l)).
Proof.
  induction l as [|x l IH]; simpl; [auto|]. intros H.
  apply NoDup_cons in H as [Hx Hl].
  destruct (p x); simpl; [|apply IH, Hl].
  apply NoDup_cons. split; [|apply IH, Hl].
  intros Hin. apply Hx. apply list_elem_of_fmap in Hin as (y & Hy & Hin).
  apply list_elem_of_fmap. exists y. split; [exact Hy|].
  apply list_elem_of_In. apply list_elem_of_In in Hin.
  apply filter_In in Hin. tauto.
Qed.

(** X25: [add_paths] keeps the files it had, in place, and appends those
    discovered files whose path it did not have; every discovered path is
    in the list afterwards; over a tree with distinct sibling names and
    input paths that do not overlap, a list without a repeated path stays
    without one. *)
Theorem add_paths_unique (lib : Library) (config : MergeConfig)
    (files : list FileInfo) (paths : list (path * entry)) (updated : list FileInfo) :
  add_paths lib config files paths = Ok updated ->
  exists new_files added,
    discover_files lib config paths = Ok new_files /\
    updated = files ++ added /\
    added `sublist_of` new_files /\
    Forall (fun f => fi_path f ∈ List.map fi_path updated) new_files /\
    (NoDup (List.map fi_path files) ->
     Forall (fun pe => wf_entry (snd pe)) paths ->
     roots_apart (List.map fst paths) ->
     NoDup (List.map fi_path updated)).
Proof.
  unfold add_paths.
  destruct (discover_files lib config paths) as [new_files|e] eqn:Hrun; [|discriminate].
  cbn [res_bind]. intros [= <-].
  set (fresh := fun f => negb (bool_decide (fi_path f ∈ List.map fi_path files))).
  exists new_files, (List.filter fresh new_files).
  split; [reflexivity|]. split; [reflexivity|]. split; [|split].
  - clear. induction new_files as [|f l IH]; simpl; [constructor|].
    destruct (fresh f); [apply sublist_skip, IH | apply sublist_cons, IH].
  - apply Forall_forall. intros f Hf. rewrite map_app. apply elem_of_app.
    destruct (fresh f) eqn:Ef.
    + right. apply list_elem_of_fmap. exists f. split; [reflexivity|].
      apply list_elem_of_In, filter_In. split; [apply list_elem_of_In, Hf | exact Ef].
    + left. unfold fresh in Ef. apply negb_false_iff, bool_decide_eq_true in Ef. exact Ef.
  - intros Hfiles Hwf Hapart. rewrite map_app. apply NoDup_app. split; [exact Hfiles|]. split.
    + intros p Hp Hin. apply list_elem_of_fmap in Hin as (f & -> & Hf).
      apply list_elem_of_In, filter_In in Hf as [_ Hfresh].
      unfold fresh in Hfresh. apply negb_true_iff, bool_decide_eq_false in Hfresh.
      contradiction.
    + apply NoDup_map_filter. apply discover_files_sorted in Hrun.
      apply sort_files_perm in Hrun. rewrite Hrun. apply discover_NoDup; assumption.
Qed.

Lemma add_paths_unique_witness :
  exists updated,
    add_paths example_library default_config [example_file "a.md"] example_tree
    = Ok updated /\
    List.map fi_path updated
    = [[lit "docs"; lit "a.md"]; [lit "docs"; lit "sub"; lit "b.md"]; [lit "notes.md"]].
Proof.
  assert (H : exists updated,
             add_paths example_library default_config [example_file "a.md"] example_tree
             = Ok updated)
    by (vm_compute; eexists; reflexivity).
  destruct H as [updated H]. exists updated. split; [exact H|].
  destruct (add_paths_unique example_library default_config [example_file "a.md"]
              example_tree updated H) as (new_files & added & _ & _ & _ & _ & _).
  vm_compute in H. injection H as <-. vm_compute. reflexivity.
Defined.

(** The same file given twice in one call is added twice: the paths that
    are already there are collected before the loop. *)
Example add_paths_repeats :
  let file := ([lit "notes.md"], EFile 7%Z 0%Z (Some (lit "# Title"))) in
  match add_paths example_library default_config [] [file; file] with
  | Ok updated => List.map fi_path updated = [[lit "notes.md"]; [lit "notes.md"]]
  | Raise _ => False
  end.
Proof. vm_compute. reflexivity. Qed.

(** ** The steps of [process_document], one after the other *)

Section KeptCharacters.
Variable Q : char -> Prop.

Lemma re_sub_sub {M : Type} (match_at : option char -> str -> option (M * nat))
    (repl : M -> str) :
  (forall prev s m n,
     match_at prev s = Some (m, S n) -> Forall Q s -> Forall Q (repl m)) ->
  forall prev s,
    Forall Q s -> Forall Q (concat (List.map (render repl) (scan match_at prev s))).
Proof.
  intros Hrepl prev s.
  pattern prev, s, (scan match_at prev s). apply scan_ind; clear prev s.
  - intros prev _. constructor.
  - intros prev c s' m n Hm IH Hs. simpl. apply Forall_app. split.
    + eapply Hrepl; eassumption.
    + apply IH. apply Forall_drop. exact Hs.
  - intros prev c s' _ IH Hs. simpl. inversion Hs; subst.
    constructor; [assumption | apply IH; assumption].
Qed.

Lemma normalize_whitespace_sub (content : str) (max_consecutive : Z) :
  Q LF -> Forall Q content -> Forall Q (normalize_whitespace content max_consecutive).
Proof.
  intros HLF Hs. unfold normalize_whitespace. apply Forall_app. split; [|repeat constructor; exact HLF].
  apply strip_sub. rewrite re_sub_scan. apply re_sub_sub; [|exact Hs].
  intros _ _ _ _ _ _. apply Forall_forall. intros c Hc.
  apply list_elem_of_In, repeat_spec in Hc. subst. exact HLF.
Qed.

Lemma adjust_header_levels_sub (content : str) (offset : Z) :
  Q HASH -> Forall Q content -> Forall Q (adjust_header_levels content offset).
Proof.
  intros Hhash Hs. unfold adjust_header_levels.
  destruct (offset =? 0)%Z; [exact Hs|].
  rewrite re_sub_scan. apply re_sub_sub; [|exact Hs].
  intros prev s [n tail] len Hm Hall.
  apply header_at_inv in Hm as (_ & ws & ln & rest & -> & -> & _ & _).
  unfold adjust_header. cbn [fst snd]. apply Forall_app. split.
  - apply Forall_forall. intros c Hc.
    apply list_elem_of_In, repeat_spec in Hc. subst. exact Hhash.
  - apply Forall_app in Hall as [_ Hall]. rewrite app_assoc in Hall.
    apply Forall_app in Hall as [Hall _]. exact Hall.
Qed.

Lemma split_lines_sub (s : str) : Forall Q s -> Forall (Forall Q) (split_lines s).
Proof.
  induction 1 as [|c s Hc _ IH]; simpl; [repeat constructor|].
  destruct (is_nl c); [constructor; [constructor | exact IH]|].
  destruct (split_lines s) as [|l ls]; [repeat constructor; exact Hc|].
  inversion IH; subst. constructor; [constructor; assumption | assumption].
Qed.

Lemma join_lines_sub (ls : list str) :
  Q LF -> Forall (Forall Q) ls -> Forall Q (join_lines ls).
Proof.
  intros HLF. induction 1 as [|l ls Hl Hls IH]; [constructor|].
  destruct ls as [|l' ls]; [exact Hl|].
  rewrite join_lines_cons by discriminate.
  apply Forall_app. split; [exact Hl|]. constructor; [exact HLF | exact IH].
Qed.

Lemma extract_front_matter_sub (content : str) :
  Q LF -> Forall Q content -> Forall Q (snd (extract_front_matter content)).
Proof.
  intros HLF Hs. unfold extract_front_matter.
  destruct (negb _); [exact Hs|].
  destruct (find_closing _ 1) as [end_index|]; [|exact Hs].
  cbn [snd]. unfold lstrip_nl. apply drop_while_sub, join_lines_sub; [exact HLF|].
  apply Forall_drop, split_lines_sub, Hs.
Qed.
End KeptCharacters.

Lemma crlf_to_lf_same (s : str) : CR ∉ s -> crlf_to_lf s = s.
Proof.
  induction s as [|c s IH]; [reflexivity|]. intros H.
  apply not_elem_of_cons in H as [Hc Hs]. simpl.
  destruct (N.eqb_spec c CR) as [->|_]; [done|]. rewrite IH by exact Hs. reflexivity.
Qed.

Lemma normalize_whitespace_runs (content : str) (max_consecutive : Z) (a b : str) :
  (0 <= max_consecutive)%Z ->
  normalize_whitespace content max_consecutive
    <> a ++ repeat LF (Z.to_nat (max_consecutive + 2)) ++ b.
Proof.
  intros Hm. unfold normalize_whitespace.
  set (k := Z.to_nat (max_consecutive + 2)).
  set (r := Z.to_nat (max_consecutive + 1)).
  assert (Hrk : r < k) by lia. assert (Hk : 2 <= k) by lia.
  rewrite re_sub_scan. fold (collapse_from k r None content).
  set (t := strip (collapse_from k r None content)).
  assert (Ht : short_runs k 0 t).
  { apply short_runs_rstrip. eapply short_runs_lstrip.
    apply (collapse_short_runs k r Hrk None content 0). left. reflexivity. }
  intros Heq.
  apply (short_runs_no_infix k 0 a b); [lia|]. rewrite <- Heq.
  apply short_runs_snoc_LF; [exact Hk | reflexivity | | exact Ht].
  intros b' c Hb. eapply strip_last. exact Hb.
Qed.

(** X26: with whitespace normalisation on, a limit of at least 0 and a
    line ending other than [crlf], the processed content of a text that
    holds no carriage return has no run of more than
    [max_consecutive_blanks + 1] line feeds, whatever the other steps
    do. *)
Theorem process_document_blank_lines (lib : Library) (fs : FileSystem)
    (config : MergeConfig) (filepath : path) (content : str) (position total : Z)
    (doc : ProcessedDocument) :
  cfg_normalize_whitespace config = true ->
  (0 <= cfg_max_consecutive_blanks config)%Z ->
  str_eqb (ascii_lower (cfg_line_ending config)) (lit "crlf") = false ->
  CR ∉ content ->
  process_document lib fs config filepath content position total = Ok doc ->
  forall a b,
    processed_content doc
      <> a ++ repeat LF (Z.to_nat (cfg_max_consecutive_blanks config + 2)) ++ b.
Proof.
  intros Hon Hmax Hstyle Hcr. unfold process_document.
  assert (Hfree : forall s : str, CR ∉ s <-> Forall (fun c => c <> CR) s).
  { intros s. rewrite Forall_forall. split.
    - intros H c Hc ->. exact (H Hc).
    - intros H Hc. exact (H CR Hc eq_refl). }
  destruct (if cfg_strip_front_matter config then _ else _) as [fm rest] eqn:Efm.
  assert (Hrest : CR ∉ rest).
  { destruct (cfg_strip_front_matter config).
    - apply Hfree. replace rest with (snd (extract_front_matter content))
        by (rewrite Efm; reflexivity).
      apply extract_front_matter_sub; [discriminate | apply Hfree, Hcr].
    - injection Efm as _ <-. exact Hcr. }
  rewrite Hon.
  set (adjusted := if negb _ then _ else rest).
  assert (Hadj : CR ∉ adjusted).
  { subst adjusted. destruct (negb _); [|exact Hrest].
    apply Hfree, adjust_header_levels_sub; [discriminate | apply Hfree, Hrest]. }
  destruct (stat_file fs filepath) as [stat|e]; cbn [res_bind]; [|discriminate].
  intros [= <-] a b. cbn [processed_content].
  unfold normalize_line_endings. rewrite Hstyle.
  rewrite crlf_to_lf_same.
  - apply normalize_whitespace_runs. exact Hmax.
  - apply Hfree, normalize_whitespace_sub; [discriminate | apply Hfree, Hadj].
Qed.

Lemma process_document_blank_lines_witness :
  exists doc,
    process_document example_library example_fs default_config [lit "a.md"]
      (lit "a" ++ repeat LF 6 ++ lit "b") 1 1 = Ok doc /\
    processed_content doc = lit "a" ++ repeat LF 3 ++ lit "b" ++ [LF] /\
    forall a b, processed_content doc <> a ++ repeat LF 4 ++ b.
Proof.
  assert (H : exists doc,
             process_document example_library example_fs default_config [lit "a.md"]
               (lit "a" ++ repeat LF 6 ++ lit "b") 1 1 = Ok doc)
    by (vm_compute; eexists; reflexivity).
  destruct H as [doc H]. exists doc. split; [exact H|]. split.
  - vm_compute in H. injection H as <-. vm_compute. reflexivity.
  - apply (process_document_blank_lines example_library example_fs default_config
             [lit "a.md"] (lit "a" ++ repeat LF 6 ++ lit "b") 1 1 doc).
    + reflexivity.
    + vm_compute. discriminate.
    + reflexivity.
    + apply (bool_decide_unpack _). vm_compute. exact I.
    + exact H.
Defined.

(** Blank lines that end with CR LF are not counted: the limit is
    applied before the line endings are made the same. *)
Example process_document_crlf_blank_lines :
  match process_document example_library example_fs default_config [lit "a.md"]
          (lit "a" ++ concat (repeat [CR; LF] 6) ++ lit "b") 1 1 with
  | Ok doc => processed_content doc = lit "a" ++ repeat LF 6 ++ lit "b" ++ [LF]
  | Raise _ => False
  end.
Proof. vm_compute. reflexivity. Qed.

(** ** The preview *)

Section PreviewTwoSystems.
Variable lib : Library.
Variable fs fs' : FileSystem.
Variable config : MergeConfig.

Lemma preview_documents_same n_files n_preview i (preview_files : list FileInfo) :
  (forall f, f ∈ preview_files ->
     safe_read_file fs' (fi_path f) = safe_read_file fs (fi_path f) /\
     stat_file fs' (fi_path f) = stat_file fs (fi_path f)) ->
  preview_documents lib fs' config n_files n_preview i preview_files
  = preview_documents lib fs config n_files n_preview i preview_files.
Proof.
  revert i. induction preview_files as [|f rest IH]; intros i Hsame; [reflexivity|].
  simpl. rewrite IH by (intros g Hg; apply Hsame; right; exact Hg). f_equal.
  destruct (Hsame f) as [Hread Hstat]; [left|].
  unfold preview_document, read_and_process, process_document.
  rewrite Hread. destruct (safe_read_file fs (fi_path f)) as [content|e]; [|reflexivity].
  cbn [res_bind]. rewrite Hstat. reflexivity.
Qed.
End PreviewTwoSystems.

Lemma slice_to_length {A} (l : list A) (stop : Z) :
  (0 <= stop)%Z -> length (slice_to l stop) <= Z.to_nat stop.
Proof.
  intros H. unfold slice_to. destruct (Z.leb_spec 0 stop); [|lia].
  rewrite length_take. lia.
Qed.

(** X27: [generate_preview] reads the first three files and no other:
    on two file systems that agree on these it gives the same text; and
    for a limit of at least 0 the list of lines it joins has at most
    [max_lines + 2] entries. *)
Theorem generate_preview_first_three (lib : Library) (fs fs' : FileSystem)
    (config : MergeConfig) (files : list FileInfo) (max_lines : Z) :
  (forall f, f ∈ take 3 files ->
     safe_read_file fs' (fi_path f) = safe_read_file fs (fi_path f) /\
     stat_file fs' (fi_path f) = stat_file fs (fi_path f)) ->
  generate_preview lib fs' config files max_lines
  = generate_preview lib fs config files max_lines /\
  ((0 <= max_lines)%Z ->
   length (preview_lines lib fs config files max_lines) <= Z.to_nat max_lines + 2).
Proof.
  intros Hsame. split.
  - unfold generate_preview, preview_lines.
    rewrite (preview_documents_same lib fs fs' config _ _ _ _ Hsame). reflexivity.
  - intros Hmax. unfold preview_lines.
    match goal with
    | |- context [if (max_lines <? Z.of_nat (length ?l))%Z then _ else _] =>
        set (lines := l)
    end.
    destruct (Z.ltb_spec max_lines (Z.of_nat (length lines))) as [Hlt|Hge].
    + rewrite length_app. pose proof (slice_to_length lines max_lines Hmax). simpl. lia.
    + lia.
Qed.

Lemma generate_preview_first_three_witness :
  let unreadable := mkFileSystem (read_bytes example_fs)
                      (fun p => if str_eqb (path_name p) (lit "z.md")
                                then Raise (Exn IOError (lit "gone"))
                                else safe_read_file example_fs p)
                      (stat_file example_fs) (path_exists example_fs)
                      (copy2_error example_fs) (open_error example_fs)
                      (write_error example_fs) in
  let files := [example_file "a.md"; example_file "bad.md"; example_file "b.md";
                example_file "z.md"] in
  generate_preview example_library unreadable default_config files 50
  = generate_preview example_library example_fs default_config files 50.
Proof.
  intros unreadable files.
  apply (generate_preview_first_three example_library example_fs unreadable
           default_config files 50).
  intros f Hf. split; [|reflexivity].
  simpl in Hf. rewrite !elem_of_cons in Hf.
  destruct Hf as [->|[->|[->|Hf]]]; [reflexivity..|].
  apply elem_of_nil in Hf. contradiction.
Defined.

(** The preview of three files of which the second cannot be read. *)
Example generate_preview_example :
  generate_preview example_library example_fs default_config example_run_files 50
  = join_lines
      [ lit "# Table of Contents"; [];
        lit "- a"; lit "- bad"; lit "- b"; []; lit "---"; [];
        lit "## a" ++ [LF] ++ lit "*Document 1 of 3*"; []; lit "# Title"; [];
        [LF; LF] ++ lit "---" ++ [LF; LF];
        lit "[Error previewing bad.md: Permission denied]";
        lit "## b" ++ [LF] ++ lit "*Document 3 of 3*"; []; lit "# Title"; [] ].
Proof. vm_compute. reflexivity. Qed.

(** ** Duplicate detection: the groups *)

Section DuplicatesMore.
Variable lib : Library.
Variable fs : FileSystem.
Variable config : MergeConfig.

Lemma hash_files_buckets (files : list FileInfo) (hash_map m : gmap str (list FileInfo)) :
  hash_files lib fs files hash_map = Ok m ->
  forall h,
    m !! h = match hash_map !! h, files_with_hash lib fs h files with
             | Some bucket, group => Some (bucket ++ group)
             | None, [] => None
             | None, group => Some group
             end.
Proof.
  revert hash_map. induction files as [|f files IH]; intros hash_map; simpl.
  - intros [= <-] h. destruct (hash_map !! h); [rewrite app_nil_r|]; reflexivity.
  - unfold files_with_hash. cbn [omap list_omap].
    destruct (calculate_file_hash lib fs (fi_path f)) as [h0|e]; cbn [res_bind];
      [|discriminate].
    intros Hrun h. rewrite (IH _ Hrun h). fold (files_with_hash lib fs h files).
    destruct (str_eqb h0 h) eqn:E.
    + apply str_eqb_eq in E. subst h0. rewrite lookup_insert_eq.
      destruct (hash_map !! h) as [bucket|]; simpl; [rewrite <- app_assoc|]; reflexivity.
    + apply str_eqb_neq in E. rewrite lookup_insert_ne by exact E. reflexivity.
Qed.

Lemma hash_files_raises (files : list FileInfo) (hash_map : gmap str (list FileInfo))
    (e : exn) :
  hash_files lib fs files hash_map = Raise e <->
  exists before f after,
    files = before ++ f :: after /\
    Forall (fun f => exists data, read_bytes fs (fi_path f) = Ok data) before /\
    read_bytes fs (fi_path f) = Raise e.
Proof.
  revert hash_map. induction files as [|f files IH]; intros hash_map; simpl.
  - split; [discriminate|]. intros (before & g & after & H & _). destruct before; discriminate.
  - unfold calculate_file_hash.
    destruct (read_bytes fs (fi_path f)) as [data|e0] eqn:Eread; cbn [res_bind].
    + rewrite IH. split.
      * intros (before & g & after & -> & Hbefore & Hg).
        exists (f :: before), g, after. repeat split; [|exact Hg].
        constructor; [eauto | exact Hbefore].
      * intros (before & g & after & Hsplit & Hbefore & Hg).
        destruct before as [|b before]; simpl in Hsplit; injection Hsplit as <- ->.
        -- rewrite Eread in Hg. discriminate.
        -- exists before, g, after. inversion Hbefore; subst. auto.
    + split.
      * intros [= ->]. exists [], f, files. repeat split; [constructor | exact Eread].
      * intros (before & g & after & Hsplit & Hbefore & Hg).
        destruct before as [|b before]; simpl in Hsplit; injection Hsplit as <- ->.
        -- rewrite Eread in Hg. injection Hg as ->. reflexivity.
        -- inversion Hbefore as [|? ? [data Hd] _]; subst. rewrite Eread in Hd. discriminate.
Qed.
End DuplicatesMore.

(** X28: with detection enabled, the groups that [detect_duplicates]
    returns are exactly these: under each hash that at least two files of
    the list have, all the files with that hash, in the order of the
    list, each with the hash recorded. *)
Theorem detect_duplicates_buckets (lib : Library) (fs : FileSystem)
    (config : MergeConfig) (files : list FileInfo) (m : gmap str (list FileInfo)) :
  cfg_detect_duplicates config = true ->
  detect_duplicates lib config fs files = Ok m ->
  forall h group,
    m !! h = Some group <->
    group = files_with_hash lib fs h files /\ 2 <= length group.
Proof.
  intros Hon. unfold detect_duplicates. rewrite Hon. cbn [negb].
  destruct (hash_files lib fs files ∅) as [hash_map|e] eqn:Hrun; cbn [res_bind];
    [|discriminate].
  intros [= <-] h group.
  pose proof (hash_files_buckets lib fs files ∅ hash_map Hrun h) as Hb.
  rewrite lookup_empty in Hb. rewrite map_lookup_filter_Some. cbn [snd].
  split.
  - intros [Hlook Hlen]. rewrite Hb in Hlook.
    destruct (files_with_hash lib fs h files) as [|g gs]; [discriminate|].
    injection Hlook as <-. split; [reflexivity | exact Hlen].
  - intros [-> Hlen]. split; [|exact Hlen]. rewrite Hb.
    destruct (files_with_hash lib fs h files) as [|g gs]; [simpl in Hlen; lia | reflexivity].
Qed.

Lemma detect_duplicates_buckets_witness :
  exists m,
    detect_duplicates example_library default_config example_fs
      [example_file "a.md"; example_file "b.md"; example_file "c.md"] = Ok m /\
    m !! lit "# Title"
    = Some [with_hash (example_file "a.md") (lit "# Title");
            with_hash (example_file "b.md") (lit "# Title");
            with_hash (example_file "c.md") (lit "# Title")].
Proof.
  assert (H : exists m,
             detect_duplicates example_library default_config example_fs
               [example_file "a.md"; example_file "b.md"; example_file "c.md"] = Ok m).
  { unfold detect_duplicates. cbn [negb default_config cfg_detect_duplicates].
    destruct (hash_files_readable example_library example_fs
                [example_file "a.md"; example_file "b.md"; example_file "c.md"])
      with (hash_map := (∅ : gmap str (list FileInfo))) as [m Hm].
    - repeat constructor; eexists; vm_compute; reflexivity.
    - rewrite Hm. cbn [res_bind]. eauto. }
  destruct H as [m H]. exists m. split; [exact H|].
  apply (detect_duplicates_buckets example_library example_fs default_config _ m eq_refl H).
  split; [vm_compute; reflexivity | simpl; lia].
Defined.

(** X29: [detect_duplicates] raises exactly when detection is enabled and
    a file of the list cannot be read, with the exception of the first
    such file; no group is returned then. *)
Theorem detect_duplicates_raises (lib : Library) (fs : FileSystem)
    (config : MergeConfig) (files : list FileInfo) (e : exn) :
  detect_duplicates lib config fs files = Raise e <->
  cfg_detect_duplicates config = true /\
  exists before f after,
    files = before ++ f :: after /\
    Forall (fun f => exists data, read_bytes fs (fi_path f) = Ok data) before /\
    read_bytes fs (fi_path f) = Raise e.
Proof.
  unfold detect_duplicates.
  destruct (cfg_detect_duplicates config); cbn [negb].
  - rewrite <- (hash_files_raises lib fs files ∅ e).
    destruct (hash_files lib fs files ∅) as [hash_map|e0]; cbn [res_bind].
    + split; [discriminate | intros [_ H]; discriminate].
    + split; [intros [= ->]; auto | intros [_ H]; exact H].
  - split; [discriminate | intros [H _]; discriminate].
Qed.

(** The second file cannot be read. *)
Example detect_duplicates_unreadable :
  detect_duplicates example_library default_config example_fs
    [example_file "a.md"; example_file "bad.md"; example_file "a.md"]
  = Raise (Exn PermissionError (lit "Permission denied")).
Proof. reflexivity. Qed.

(** ** The numbers in markers and hints *)

Lemma decimal_value_acc (d : Decimal.uint) (acc : positive) :
  foldl (fun acc c => (10 * acc + (Z.of_N c - 48))%Z) (Z.pos acc)
    (lit (NilEmpty.string_of_uint d))
  = Z.pos (Pos.of_uint_acc d acc).
Proof.
  revert acc. induction d as [|d IH|d IH|d IH|d IH|d IH|d IH|d IH|d IH|d IH|d IH];
    intros acc; [reflexivity|..];
    cbn [NilEmpty.string_of_uint lit list_ascii_of_string List.map foldl Pos.of_uint_acc];
    rewrite <- IH; f_equal.
  all: cbn [N_of_ascii N_of_digits]; lia.
Qed.

Lemma decimal_value_uint (d : Decimal.uint) :
  decimal_value (lit (NilEmpty.string_of_uint d)) = Z.of_N (Pos.of_uint d).
Proof.
  unfold decimal_value.
  induction d as [|d IH|d IH|d IH|d IH|d IH|d IH|d IH|d IH|d IH|d IH];
    [reflexivity | exact IH |..];
    cbn [NilEmpty.string_of_uint lit list_ascii_of_string List.map foldl Pos.of_uint];
    match goal with
    | |- foldl _ ?a _ = Z.of_N (N.pos (Pos.of_uint_acc _ ?p)) =>
        change a with (Z.pos p); apply decimal_value_acc
    end.
Qed.

Lemma decimal_value_str_of_Z (n : Z) : (0 <= n)%Z -> decimal_value (str_of_Z n) = n.
Proof.
  intros Hn. unfold str_of_Z. destruct n as [|p|p]; [reflexivity | | lia].
  cbn [Z.to_int NilZero.string_of_int]. unfold NilZero.string_of_uint.
  pose proof (DecimalPos.Unsigned.to_uint_nonnil p) as Hnil.
  pose proof (DecimalPos.Unsigned.of_to p) as Hp.
  destruct (Pos.to_uint p) eqn:E; [congruence|..];
    rewrite decimal_value_uint, Hp; reflexivity.
Qed.

Lemma decimal_value_zeros (k : nat) (s : str) :
  decimal_value (repeat ZERO k ++ s) = decimal_value s.
Proof.
  unfold decimal_value. induction k as [|k IH]; [reflexivity|]. exact IH.
Qed.

(** The number can be read back from [format(n, '04d')]. *)
Lemma decimal_value_04d (n : Z) : (0 <= n)%Z -> decimal_value (str_of_Z_04d n) = n.
Proof.
  intros Hn. unfold str_of_Z_04d. destruct (Z.ltb_spec n 0); [lia|].
  rewrite decimal_value_zeros. apply decimal_value_str_of_Z, Hn.
Qed.

Lemma NoDup_map_increasing {A} (f : A -> Z) (g : A -> str) (l : list A) :
  (forall a b, g a = g b -> f a = f b) ->
  StronglySorted (fun a b => (f a < f b)%Z) l ->
  NoDup (List.map g l).
Proof.
  intros Hinj. induction 1 as [|a l _ IH Ha]; simpl; constructor; [|exact IH].
  intros Hin. apply list_elem_of_fmap in Hin as (b & Hg & Hb).
  rewrite Forall_forall in Ha. specialize (Ha b Hb). apply Hinj in Hg. lia.
Qed.

(** X30: when the loop of [merge] runs to its end, the chunk hints of
    the documents it leaves, which are the ones that [merge] writes, are
    pairwise distinct when chunk hints are on: the number of a document
    can be read back from its rendering in [doc_NNNN], and the numbers of
    the documents increase strictly. *)
Theorem merge_chunk_hints_distinct (lib : Library) (fs : FileSystem)
    (config : MergeConfig) (cancelled_at : Z -> bool) (files : list FileInfo)
    (out : path) (warns : list str) (st : loop_state) :
  merge_loop lib fs config cancelled_at (Z.of_nat (length files)) warns 1 files
    (mkLoopState [] [] 0) = inl st ->
  (cfg_add_chunk_hints config = true ->
   NoDup (List.map (generate_chunk_hint config) (processed_docs st))) /\
  Forall (fun doc => decimal_value (str_of_Z_04d (index doc)) = index doc)
    (processed_docs st) /\
  forall text,
    written (merge lib fs config cancelled_at files out false) = Some text
    <-> write_output lib fs config out (processed_docs st) = Ok text.
Proof.
  intros Hloop.
  destruct (merge_loop_numbered lib fs config cancelled_at files warns st Hloop)
    as [Hall Hsorted].
  set (docs := processed_docs st) in *.
  assert (Hback : Forall (fun doc => decimal_value (str_of_Z_04d (index doc)) = index doc)
                    docs).
  { eapply Forall_impl; [exact Hall|]. intros doc (Hrange & _).
    apply decimal_value_04d. simpl in Hrange. lia. }
  split; [|split; [exact Hback | intros text; eapply merge_written; exact Hloop]].
  intros Hon.
  assert (Hsorted' : StronglySorted
            (fun a b => (decimal_value (str_of_Z_04d (index a))
                         < decimal_value (str_of_Z_04d (index b)))%Z) docs).
  { clear -Hsorted Hback. induction Hsorted as [|a l Hs IH Ha]; constructor.
    - apply IH. inversion Hback; assumption.
    - inversion Hback as [|? ? Hba Hbl]; subst.
      rewrite Forall_forall in Ha, Hbl |- *. intros b Hb.
      rewrite Hba, (Hbl b Hb). apply Ha, Hb. }
  eapply NoDup_map_increasing; [|exact Hsorted'].
  intros a b. unfold generate_chunk_hint. rewrite Hon. cbn [negb].
  intros Heq. apply app_inv_head, app_inv_tail in Heq. rewrite Heq. reflexivity.
Qed.

Lemma merge_chunk_hints_distinct_witness :
  exists st,
    merge_loop example_library example_fs preset_ai_knowledge_base (fun _ => false)
      3 [] 1 example_run_files (mkLoopState [] [] 0) = inl st /\
    List.map (generate_chunk_hint preset_ai_knowledge_base) (processed_docs st)
    = [lit "<!-- CHUNK_BOUNDARY: doc_0001 -->"; lit "<!-- CHUNK_BOUNDARY: doc_0003 -->"] /\
    NoDup (List.map (generate_chunk_hint preset_ai_knowledge_base) (processed_docs st)).
Proof.
  assert (H : exists st,
             merge_loop example_library example_fs preset_ai_knowledge_base
               (fun _ => false) 3 [] 1 example_run_files (mkLoopState [] [] 0) = inl st)
    by (vm_compute; eexists; reflexivity).
  destruct H as [st H]. exists st. split; [exact H|]. split.
  - vm_compute in H. injection H as <-. vm_compute. reflexivity.
  - apply (merge_chunk_hints_distinct example_library example_fs
             preset_ai_knowledge_base (fun _ => false) example_run_files
             [lit "out.md"] [] st H).
    reflexivity.
Defined.

(** From 10000 on the number takes more than four digits. *)
Example chunk_hint_numbers :
  str_of_Z_04d 7 = lit "0007" /\ str_of_Z_04d 12345 = lit "12345".
Proof. vm_compute. split; reflexivity. Qed.
